(** * The sandboxed filesystem server of TheMCP-server

    A shallow embedding of [src/servers/filesystem/filesystem_mcp.py]:
    the path validator, the line-window reader, the edit engine, the
    atomic writer and the twelve tools, followed by the properties the
    specification states about them.

    Conventions of the embedding.
    - A Python [str] is a [list ascii]: characters are code points below
      256, which covers every input used below.
    - The operating system is POSIX ([os.sep] is the slash).
    - An exception is a value of [exn]; a call that may raise returns a
      [result].  [try]/[except] is a [match] on that result.
    - The file store is a finite map from resolved paths to nodes; a
      function that changes it returns the store it leaves.  Symbolic
      links live in a separate link table read by [realpath].
    - A [while] loop or a recursion of the source is a [Fixpoint] on a
      bound: a number of turns that is shown to suffice, or the recursion
      limit of the interpreter.
    - What the server takes from the standard library or the operating
      system without looking inside ([difflib.unified_diff], the float
      format, [os.listdir], [os.stat], [os.path.isdir], the date format,
      [json.dumps] with an indent, the random token) is a variable of
      the section that uses it. *)

From Stdlib Require Import List Ascii String ZArith Lia Bool Arith.
From Stdlib Require Import Sorting.Sorted Sorting.Permutation.
From Stdlib Require Import Numbers.DecimalString.
From stdpp Require Import base option gmap list fin_maps.
Import ListNotations.

Set Default Proof Using "Type".
Set Warnings "-register-all".
Local Open Scope list_scope.
Local Open Scope nat_scope.

(** ** Python strings *)

Abbreviation str := (list ascii) (only parsing).

(** A string literal of the source. *)
Definition lit (s : string) : str := list_ascii_of_string s.

Definition chr (n : nat) : ascii := ascii_of_nat n.
Definition ord (c : ascii) : nat := nat_of_ascii c.

Definition NUL : ascii := chr 0.
Definition LF : ascii := chr 10.
Definition CR : ascii := chr 13.
Definition SLASH : ascii := chr 47.
Definition DQUOTE : ascii := chr 34.
Definition SQUOTE : ascii := chr 39.
Definition BACKTICK : ascii := chr 96.
Definition SPACE : ascii := chr 32.

Module Py.

(** [c.isspace()] for a code point below 256: the characters that
    [str.strip()] without argument removes. *)
Definition isspace (c : ascii) : bool :=
  let n := ord c in
  ((9 <=? n) && (n <=? 13)) || ((28 <=? n) && (n <=? 32))
  || (n =? 133) || (n =? 160).

(** [s.lstrip(chars)], [s.rstrip(chars)], [s.strip(chars)] with the set
    of characters given as a predicate. *)
Fixpoint lstrip_by (f : ascii -> bool) (s : str) : str :=
  match s with
  | c :: t => if f c then lstrip_by f t else s
  | [] => []
  end.

Definition rstrip_by (f : ascii -> bool) (s : str) : str :=
  rev (lstrip_by f (rev s)).

Definition strip_by (f : ascii -> bool) (s : str) : str :=
  rstrip_by f (lstrip_by f s).

Definition strip (s : str) : str := strip_by isspace s.
Definition lstrip (s : str) : str := lstrip_by isspace s.

Definition mem_char (cs : str) (c : ascii) : bool :=
  existsb (Ascii.eqb c) cs.

Definition strip_chars (cs : str) (s : str) : str := strip_by (mem_char cs) s.
Definition rstrip_chars (cs : str) (s : str) : str := rstrip_by (mem_char cs) s.

(** [s.startswith(p)] *)
Fixpoint startswith (p s : str) : bool :=
  match p, s with
  | [], _ => true
  | a :: p', b :: s' => Ascii.eqb a b && startswith p' s'
  | _ :: _, [] => false
  end.

Definition endswith (p s : str) : bool := startswith (rev p) (rev s).

(** [needle in hay] *)
Fixpoint contains (needle hay : str) : bool :=
  startswith needle hay ||
  match hay with
  | [] => false
  | _ :: t => contains needle t
  end.

(** [sep.join(parts)] *)
Fixpoint join (sep : str) (parts : list str) : str :=
  match parts with
  | [] => []
  | [p] => p
  | p :: rest => p ++ sep ++ join sep rest
  end.

(** [s * n] *)
Fixpoint repeat_str (s : str) (n : nat) : str :=
  match n with
  | 0 => []
  | S k => s ++ repeat_str s k
  end.

(** The scan behind [s.split(sep)] for a separator that is not empty:
    [skip] counts the characters of a separator just matched that are
    still to be passed over, [cur] is the piece being collected, in
    reverse. *)
Fixpoint split_go (sep : str) (s : str) (skip : nat) (cur : str) : list str :=
  match s with
  | [] => [rev cur]
  | c :: t =>
      match skip with
      | S k => split_go sep t k cur
      | 0 =>
          if startswith sep s
          then rev cur :: split_go sep t (length sep - 1) []
          else split_go sep t 0 (c :: cur)
      end
  end.

(** [s.rfind(c) + 1] for a single character: the length of the longest
    prefix of [s] that ends with [c], 0 when [c] does not occur. *)
Fixpoint rfind_succ (c : ascii) (s : str) : nat :=
  match s with
  | [] => 0
  | a :: t =>
      match rfind_succ c t with
      | 0 => if Ascii.eqb a c then 1 else 0
      | S k => S (S k)
      end
  end.

(** A character at which [str.splitlines] ends a line (code points
    below 256). *)
Definition is_linebreak (c : ascii) : bool :=
  let n := ord c in
  ((10 <=? n) && (n <=? 13)) || ((28 <=? n) && (n <=? 30)) || (n =? 133).

(** [s.splitlines()]: a carriage return followed by a line feed ends one
    line, and a final terminator opens no empty last line. *)
Fixpoint splitlines (s : str) : list str :=
  match s with
  | [] => []
  | c :: t =>
      if Ascii.eqb c CR then
        match t with
        | d :: t' => if Ascii.eqb d LF then [] :: splitlines t'
                     else [] :: splitlines t
        | [] => [[]]
        end
      else if is_linebreak c then [] :: splitlines t
      else
        match splitlines t with
        | [] => [[c]]
        | l :: ls => (c :: l) :: ls
        end
  end.

(** [s.ljust(w)] and [s.rjust(w)] *)
Definition ljust (w : nat) (s : str) : str := s ++ repeat SPACE (w - length s).
Definition rjust (w : nat) (s : str) : str := repeat SPACE (w - length s) ++ s.

(** [str(n)] for an integer *)
Definition str_of_nat (n : nat) : str :=
  lit (NilEmpty.string_of_uint (Nat.to_uint n)).

Definition str_of_Z (z : Z) : str :=
  match z with
  | Z0 => lit "0"
  | Zpos p => lit (NilEmpty.string_of_uint (Pos.to_uint p))
  | Zneg p => lit "-" ++ lit (NilEmpty.string_of_uint (Pos.to_uint p))
  end.

(** [a <= b] on strings: lexicographic on code points. *)
Fixpoint str_leb (a b : str) : bool :=
  match a, b with
  | [], _ => true
  | _ :: _, [] => false
  | x :: a', y :: b' =>
      if ord x <? ord y then true
      else if ord y <? ord x then false
      else str_leb a' b'
  end.

End Py.

(** ** Exceptions and results *)

(** The exceptions the modelled code raises or meets.  A [ValueError]
    carries its message; an operating-system error carries the path it
    was raised for, or its message when it has no class of its own. *)
Inductive exn : Type :=
  | ValueError (msg : str)
  | IndexError
  | RecursionError
  | TypeError (msg : str)
  | ValidationError (msg : str)
  | OSError (msg : str)
  | FileNotFoundError (path : str)
  | FileExistsError (path : str)
  | IsADirectoryError (path : str)
  | NotADirectoryError (path : str).

Inductive result (A : Type) : Type :=
  | Ok (a : A)
  | Raise (e : exn).
Arguments Ok {A} a.
Arguments Raise {A} e.

Definition bind {A B : Type} (r : result A) (k : A -> result B) : result B :=
  match r with
  | Ok a => k a
  | Raise e => Raise e
  end.

Notation "'let*' x ':=' r 'in' k" := (bind r (fun x => k))
  (at level 10, x name, r at level 100, k at level 200).

(** [l[i]] on a list: out of range raises [IndexError]. *)
Definition index {A : Type} (l : list A) (i : nat) : result A :=
  match nth_error l i with
  | Some a => Ok a
  | None => Raise IndexError
  end.

(** [s.split(sep)]: an empty separator raises [ValueError]. *)
Definition py_split (s sep : str) : result (list str) :=
  match sep with
  | [] => Raise (ValueError (lit "empty separator"))
  | _ :: _ => Ok (Py.split_go sep s 0 [])
  end.

(** [str(e)] *)
Definition str_of_exn (e : exn) : str :=
  match e with
  | ValueError msg => msg
  | IndexError => lit "list index out of range"
  | RecursionError => lit "maximum recursion depth exceeded"
  | TypeError msg => msg
  | ValidationError msg => msg
  | OSError msg => msg
  | FileNotFoundError p =>
      lit "[Errno 2] No such file or directory: '" ++ p ++ lit "'"
  | FileExistsError p => lit "[Errno 17] File exists: '" ++ p ++ lit "'"
  | IsADirectoryError p => lit "[Errno 21] Is a directory: '" ++ p ++ lit "'"
  | NotADirectoryError p => lit "[Errno 20] Not a directory: '" ++ p ++ lit "'"
  end.

(** ** [os.path] on POSIX *)

(** The process environment [os.path] reads: the home directory that
    [expanduser] finds and the current working directory, which is an
    absolute path. *)
Record environ : Type := {
  env_home : str;
  env_cwd : str
}.

Module PosixPath.

Definition sep : str := [SLASH].

Definition isabs (p : str) : bool := Py.startswith sep p.

(** [os.path.join(a, b)] *)
Definition join (a b : str) : str :=
  if Py.startswith sep b then b
  else if (match a with [] => true | _ => false end) || Py.endswith sep a
       then a ++ b
       else a ++ sep ++ b.

(** The loop of [normpath] over the components: [new_comps] is kept in
    reverse, its head is the last component appended. *)
Fixpoint normpath_comps (initial_slashes : nat) (comps : list str)
    (new_comps : list str) : list str :=
  match comps with
  | [] => rev new_comps
  | comp :: rest =>
      if bool_decide (comp = []) || bool_decide (comp = lit ".") then
        normpath_comps initial_slashes rest new_comps
      else if negb (bool_decide (comp = lit ".."))
              || ((initial_slashes =? 0)
                  && match new_comps with [] => true | _ => false end)
              || match new_comps with
                 | last :: _ => bool_decide (last = lit "..")
                 | [] => false
                 end
      then normpath_comps initial_slashes rest (comp :: new_comps)
      else normpath_comps initial_slashes rest (tl new_comps)
  end.

(** [os.path.normpath(path)] *)
Definition normpath (path : str) : str :=
  match path with
  | [] => lit "."
  | _ :: _ =>
      let initial_slashes :=
        if Py.startswith sep path then
          if Py.startswith (Py.repeat_str sep 2) path
             && negb (Py.startswith (Py.repeat_str sep 3) path)
          then 2 else 1
        else 0 in
      let comps := Py.split_go sep path 0 [] in
      let new_comps := normpath_comps initial_slashes comps [] in
      let path' := Py.join sep new_comps in
      let path'' := Py.repeat_str sep initial_slashes ++ path' in
      match path'' with
      | [] => lit "."
      | _ :: _ => path''
      end
  end.

(** [os.path.split(p)] *)
Definition split (p : str) : str * str :=
  let i := Py.rfind_succ SLASH p in
  let head := firstn i p in
  let tail := skipn i p in
  let head' :=
    if negb (bool_decide (head = []))
       && negb (bool_decide (head = Py.repeat_str sep (length head)))
    then Py.rstrip_chars sep head else head in
  (head', tail).

(** [os.path.dirname(p)] *)
Definition dirname (p : str) : str := fst (split p).

(** [os.path.expanduser("~")] *)
Definition expanduser_tilde (env : environ) : str :=
  match Py.rstrip_chars sep (env_home env) with
  | [] => sep
  | h => h
  end.

(** [os.path.abspath(path)] *)
Definition abspath (env : environ) (path : str) : str :=
  normpath (if isabs path then path else join (env_cwd env) path).

End PosixPath.

(** ** PathValidator *)

Module PathValidator.

Section Validator.

(** The process environment and [os.path.realpath], the one call of the
    validator that consults the file system.  It is kept as it is called:
    a function of the path that returns the resolved path or raises. *)
Variable env : environ.
Variable realpath : str -> result str.

(** [normalize_path(p)] *)
Definition normalize_path (p : str) : str :=
  let p := Py.strip_chars [SQUOTE; DQUOTE] (Py.strip p) in
  let p :=
    if Py.startswith (lit "~/") p || bool_decide (p = lit "~")
    then PosixPath.join (PosixPath.expanduser_tilde env) (skipn 1 p)
    else p in
  let p := PosixPath.normpath p in
  if negb (PosixPath.isabs p)
  then PosixPath.abspath env (PosixPath.join (env_cwd env) p)
  else p.

(** [is_path_within_allowed_directory(absolute_path, allowed_dir)] *)
Definition is_path_within_allowed_directory (absolute_path allowed_dir : str)
    : result bool :=
  let normalized_path := normalize_path absolute_path in
  let normalized_allowed := normalize_path allowed_dir in
  if negb (PosixPath.isabs normalized_path)
     || negb (PosixPath.isabs normalized_allowed)
  then Raise (ValueError (lit "Paths must be absolute"))
  else if Py.contains [NUL] normalized_path then Ok false
  else if bool_decide (normalized_path = normalized_allowed) then Ok true
  else Ok (Py.startswith (normalized_allowed ++ PosixPath.sep) normalized_path).

(** The three messages with which [validate_path] denies access. *)
Definition denied_path (absolute_path allowed_dir : str) : exn :=
  ValueError (lit "Access denied - path outside allowed directory: "
              ++ absolute_path ++ lit " not in " ++ allowed_dir).

Definition denied_symlink (real_path : str) : exn :=
  ValueError (lit "Access denied - symlink target outside allowed directory: "
              ++ real_path).

Definition denied_parent (real_parent : str) : exn :=
  ValueError (lit "Access denied - parent directory outside allowed directory: "
              ++ real_parent).

(** The body of the [try] block of [validate_path]. *)
Definition validate_resolved (absolute_path allowed_dir : str) : result str :=
  let* real_path := realpath absolute_path in
  let* within := is_path_within_allowed_directory real_path allowed_dir in
  if negb within then Raise (denied_symlink real_path)
  else Ok real_path.

(** The handler of [FileNotFoundError] in [validate_path]. *)
Definition validate_parent (absolute_path allowed_dir : str) : result str :=
  let parent_dir := PosixPath.dirname absolute_path in
  let* real_parent := realpath parent_dir in
  let* within := is_path_within_allowed_directory real_parent allowed_dir in
  if negb within then Raise (denied_parent real_parent)
  else Ok absolute_path.

(** [validate_path(requested_path, allowed_dir)] *)
Definition validate_path (requested_path allowed_dir : str) : result str :=
  let absolute_path := normalize_path requested_path in
  let* within := is_path_within_allowed_directory absolute_path allowed_dir in
  if negb within then Raise (denied_path absolute_path allowed_dir)
  else
    match validate_resolved absolute_path allowed_dir with
    | Raise (FileNotFoundError _) => validate_parent absolute_path allowed_dir
    | r => r
    end.

End Validator.

(** A path denied by the validator: the SecurityViolation of the
    specification is one of the three access-denied errors. *)
Definition SecurityViolation (e : exn) : Prop :=
  (exists a d, e = denied_path a d)
  \/ (exists r, e = denied_symlink r)
  \/ (exists r, e = denied_parent r).

(** What the specification means by a path under the root: the root
    itself, or the root followed by a separator and more. *)
Definition under (root p : str) : Prop :=
  p = root \/ exists rest, p = root ++ PosixPath.sep ++ rest.

End PathValidator.

(** ** [os.path.realpath] of posixpath *)

Module Realpath.

(** The symbolic links of the file system: the path of each link and
    what [os.readlink] returns for it.  [os.lstat] says of a path that it
    is a link exactly when the table has it. *)
Abbreviation link_table := (gmap (list ascii) (list ascii)) (only parsing).

(** The [seen] dictionary of [_joinrealpath]: a link under resolution
    maps to [None], a resolved one to its resolution. *)
Abbreviation seen_table := (gmap (list ascii) (option (list ascii))) (only parsing).

(** [_joinrealpath(path, rest, strict=False, seen)].  The components of
    [rest] are walked by the inner loop; resolving the target of a link is
    the recursive call, whose nesting [depth] bounds as the interpreter's
    recursion limit does. *)
Fixpoint joinrealpath (depth : nat) (links : link_table)
    : str -> list str -> seen_table -> result (str * bool * seen_table) :=
  fix loop (path : str) (comps : list str) (seen : seen_table)
      : result (str * bool * seen_table) :=
    match comps with
    | [] => Ok (path, true, seen)
    | name :: rest =>
        if bool_decide (name = []) || bool_decide (name = lit ".") then
          loop path rest seen
        else if bool_decide (name = lit "..") then
          let path' :=
            match path with
            | [] => lit ".."
            | _ :: _ =>
                let '(p, n) := PosixPath.split path in
                if bool_decide (n = lit "..")
                then PosixPath.join (PosixPath.join p (lit "..")) (lit "..")
                else p
            end in
          loop path' rest seen
        else
          let newpath := PosixPath.join path name in
          match links !! newpath with
          | None => loop newpath rest seen
          | Some target =>
              match seen !! newpath with
              | Some (Some cached) => loop cached rest seen
              | Some None =>
                  Ok (PosixPath.join newpath (Py.join PosixPath.sep rest),
                      false, seen)
              | None =>
                  match depth with
                  | 0 => Raise RecursionError
                  | S d =>
                      let seen1 := <[newpath := None]> seen in
                      let start :=
                        if PosixPath.isabs target then PosixPath.sep else path in
                      let target_rest :=
                        if PosixPath.isabs target then skipn 1 target
                        else target in
                      let* r := joinrealpath d links start
                                  (Py.split_go PosixPath.sep target_rest 0 [])
                                  seen1 in
                      let '(p, ok, seen2) := r in
                      if negb ok then
                        Ok (PosixPath.join p (Py.join PosixPath.sep rest),
                            false, seen2)
                      else loop p rest (<[newpath := Some p]> seen2)
                  end
              end
          end
    end.

(** [os.path.realpath(filename)], not strict: what cannot be resolved is
    appended as it is, and a missing file raises nothing. *)
Definition realpath (depth : nat) (env : environ) (links : link_table)
    (filename : str) : result str :=
  let start := if PosixPath.isabs filename then PosixPath.sep else [] in
  let rest := if PosixPath.isabs filename then skipn 1 filename else filename in
  let* r := joinrealpath depth links start
              (Py.split_go PosixPath.sep rest 0 []) ∅ in
  Ok (PosixPath.abspath env (fst (fst r))).

End Realpath.

(** ** The file store and text input/output *)

Inductive node : Type :=
  | File (content : str)
  | Dir.

(** The regular files and directories, by resolved path.  The text
    written is stored as it is passed to [f.write]: the encoding is the
    identity on the characters modelled, and on POSIX writing translates
    no line ending. *)
Abbreviation store := (gmap (list ascii) node) (only parsing).

Module FileIO.

(** Reading in text mode with the default [newline=None]: a carriage
    return, with or without a line feed after it, is read as a line
    feed. *)
Fixpoint universal_newlines (s : str) : str :=
  match s with
  | [] => []
  | c :: t =>
      if Ascii.eqb c CR then
        LF :: match t with
              | d :: t' => if Ascii.eqb d LF then universal_newlines t'
                           else universal_newlines t
              | [] => []
              end
      else c :: universal_newlines t
  end.

(** The error of opening [p] when nothing is stored at [p] and it cannot
    be created, read off the parent directory. *)
Definition missing (st : store) (p : str) : exn :=
  match st !! PosixPath.dirname p with
  | Some (File _) => NotADirectoryError p
  | _ => FileNotFoundError p
  end.

Definition can_create (st : store) (p : str) : bool :=
  match st !! PosixPath.dirname p with
  | Some Dir => true
  | _ => false
  end.

(** [open(p, "r")] followed by [f.read()] *)
Definition read_text (st : store) (p : str) : result str :=
  match st !! p with
  | Some (File c) => Ok (universal_newlines c)
  | Some Dir => Raise (IsADirectoryError p)
  | None => Raise (missing st p)
  end.

(** The error of a write that the device refuses after the file has been
    opened (no space left). *)
Definition device_error (p : str) : exn :=
  OSError (lit "[Errno 28] No space left on device: '" ++ p ++ lit "'").

(** What the file holds after a write of [content]: all of it, or nothing
    when the device refuses the write ([fault]). *)
Definition written (fault : bool) (p content : str) : result unit * node :=
  if fault then (Raise (device_error p), File [])
  else (Ok tt, File content).

(** [with open(p, "x") as f: f.write(content)] *)
Definition write_exclusive (fault : bool) (st : store) (p content : str)
    : result unit * store :=
  match st !! p with
  | Some _ => (Raise (FileExistsError p), st)
  | None =>
      if can_create st p then
        let '(r, n) := written fault p content in (r, <[p := n]> st)
      else (Raise (missing st p), st)
  end.

(** [with open(p, "w") as f: f.write(content)] *)
Definition write_truncate (fault : bool) (st : store) (p content : str)
    : result unit * store :=
  match st !! p with
  | Some Dir => (Raise (IsADirectoryError p), st)
  | Some (File _) =>
      let '(r, n) := written fault p content in (r, <[p := n]> st)
  | None =>
      if can_create st p then
        let '(r, n) := written fault p content in (r, <[p := n]> st)
      else (Raise (missing st p), st)
  end.

(** [k] is below the directory [dir]. *)
Definition below (dir k : str) : bool := Py.startswith (dir ++ PosixPath.sep) k.

(** Nothing is stored below [dir]. *)
Definition is_empty_dir (st : store) (dir : str) : bool :=
  forallb (fun kv => negb (below dir (fst kv))) (map_to_list st).

(** The store after the directory [src] and all below it moved to
    [dst]. *)
Definition move_tree (st : store) (src dst : str) : store :=
  list_to_map
    (map (fun kv : list ascii * node =>
            let k := fst kv in
            (if bool_decide (k = src) then dst
             else if below src k then dst ++ skipn (length src) k
             else k, snd kv))
         (map_to_list (delete dst st))).

(** [os.rename(src, dst)]: a regular file replaces what is at [dst]
    unless that is a directory; a directory moves with all below it, onto
    nothing or onto an empty directory, and not into itself. *)
Definition rename (st : store) (src dst : str) : result unit * store :=
  match st !! src with
  | None => (Raise (missing st src), st)
  | Some Dir =>
      if bool_decide (src = dst) then (Ok tt, st)
      else if below src dst then
        (Raise (OSError (lit "[Errno 22] Invalid argument: '" ++ src ++ lit "'")), st)
      else
        match st !! dst with
        | Some (File _) => (Raise (NotADirectoryError src), st)
        | Some Dir =>
            if is_empty_dir st dst then (Ok tt, move_tree st src dst)
            else (Raise (OSError (lit "[Errno 39] Directory not empty: '"
                                  ++ src ++ lit "'")), st)
        | None =>
            if can_create st dst then (Ok tt, move_tree st src dst)
            else (Raise (missing st dst), st)
        end
  | Some (File c) =>
      match st !! dst with
      | Some Dir => (Raise (IsADirectoryError dst), st)
      | Some (File _) => (Ok tt, <[dst := File c]> (delete src st))
      | None =>
          if can_create st dst
          then (Ok tt, <[dst := File c]> (delete src st))
          else (Raise (missing st dst), st)
      end
  end.

(** [os.unlink(p)] *)
Definition unlink (st : store) (p : str) : result unit * store :=
  match st !! p with
  | Some (File _) => (Ok tt, delete p st)
  | Some Dir => (Raise (IsADirectoryError p), st)
  | None => (Raise (missing st p), st)
  end.

(** [os.mkdir(p)] *)
Definition mkdir (st : store) (p : str) : result unit * store :=
  match st !! p with
  | Some _ => (Raise (FileExistsError p), st)
  | None =>
      if can_create st p then (Ok tt, <[p := Dir]> st)
      else (Raise (missing st p), st)
  end.

(** [os.makedirs(name, exist_ok=True)]; the nesting of its recursive
    calls is bounded by [depth], as the interpreter bounds it. *)
Fixpoint makedirs (depth : nat) (st : store) (name : str)
    : result unit * store :=
  let '(head0, tail0) := PosixPath.split name in
  let '(head, tail) :=
    match tail0 with
    | [] => PosixPath.split head0
    | _ :: _ => (head0, tail0)
    end in
  let create (st1 : store) : result unit * store :=
    match mkdir st1 name with
    | (Raise e, st2) =>
        match st2 !! name with
        | Some Dir => (Ok tt, st2)
        | _ => (Raise e, st2)
        end
    | ok => ok
    end in
  if negb (bool_decide (head = [])) && negb (bool_decide (tail = []))
     && negb (bool_decide (is_Some (st !! head)))
  then
    match depth with
    | 0 => (Raise RecursionError, st)
    | S d =>
        match makedirs d st head with
        | (Raise (FileExistsError _), st1) | (Ok _, st1) =>
            if bool_decide (tail = lit ".") then (Ok tt, st1) else create st1
        | (Raise e, st1) => (Raise e, st1)
        end
    end
  else create st.

(** [try: os.unlink(p) except: pass] *)
Definition unlink_quietly (st : store) (p : str) : store :=
  snd (unlink st p).

(** [f.seek(position)] followed by [f.read(size)] on a file opened in
    text mode: [size] characters of the text that starts at [position]. *)
Definition read_at (data : str) (position size : nat) : str :=
  firstn size (universal_newlines (skipn position data)).

(** The lines a text file yields when iterated, each with its line
    feed. *)
Fixpoint iter_lines (s : str) : list str :=
  match s with
  | [] => []
  | c :: t =>
      if Ascii.eqb c LF then [c] :: iter_lines t
      else
        match iter_lines t with
        | [] => [[c]]
        | l :: ls => (c :: l) :: ls
        end
  end.

End FileIO.

(** ** Helper functions of the server *)

(** [normalize_line_endings(text)]: [text.replace] of a carriage return
    and line feed by a line feed. *)
Fixpoint normalize_line_endings (text : str) : str :=
  match text with
  | [] => []
  | c :: t =>
      if Ascii.eqb c CR then
        match t with
        | d :: _ => if Ascii.eqb d LF then normalize_line_endings t
                    else c :: normalize_line_endings t
        | [] => [c]
        end
      else c :: normalize_line_endings t
  end.

(** ** LineWindowReader *)

Module LineWindowReader.

Definition chunk_size : nat := 1024.

(** The variables of the loop of [tail_file]. *)
Record tail_state : Type := {
  lines : list str;
  position : nat;
  lines_found : nat;
  remaining_text : str
}.

(** The test of the [while] of [tail_file]. *)
Definition tail_continues (num_lines : Z) (s : tail_state) : bool :=
  (0 <? position s) && (Z.of_nat (lines_found s) <? num_lines)%Z.

(** [for line in reversed(chunk_lines)]: [rev_lines] is the reversed
    list. *)
Fixpoint tail_collect (num_lines : Z) (rev_lines : list str)
    (lines : list str) (lines_found : nat) : list str * nat :=
  match rev_lines with
  | [] => (lines, lines_found)
  | line :: rest =>
      if (Z.of_nat lines_found <? num_lines)%Z
      then tail_collect num_lines rest (line :: lines) (S lines_found)
      else tail_collect num_lines rest lines lines_found
  end.

(** One turn of the [while] of [tail_file]. *)
Definition tail_step (data : str) (num_lines : Z) (s : tail_state)
    : result tail_state :=
  let size := Nat.min chunk_size (position s) in
  let position' := position s - size in
  let chunk := FileIO.read_at data position' size in
  let chunk_text := chunk ++ remaining_text s in
  let chunk_lines := Py.splitlines (normalize_line_endings chunk_text) in
  let* carried :=
    if 0 <? position' then
      let* first := index chunk_lines 0 in
      Ok (first, tl chunk_lines)
    else Ok (remaining_text s, chunk_lines) in
  let '(remaining_text', chunk_lines') := carried in
  let '(lines', lines_found') :=
    tail_collect num_lines (rev chunk_lines') (lines s) (lines_found s) in
  Ok {| lines := lines'; position := position';
        lines_found := lines_found'; remaining_text := remaining_text' |}.

(** The [while] of [tail_file], unrolled [turns] times.  Every turn
    lowers [position], so [position] turns are enough: the state returned
    fails the test of the loop ([tail_loop_exits] below). *)
Fixpoint tail_loop (turns : nat) (data : str) (num_lines : Z)
    (s : tail_state) : result tail_state :=
  match turns with
  | 0 => Ok s
  | S k =>
      if tail_continues num_lines s then
        let* s' := tail_step data num_lines s in
        tail_loop k data num_lines s'
      else Ok s
  end.

(** [tail_file] on the text [data] of the file; [os.stat] gives its
    length as the size. *)
Definition tail_text (data : str) (num_lines : Z) : result str :=
  let st_size := length data in
  if st_size =? 0 then Ok []
  else
    let* s := tail_loop st_size data num_lines
                {| lines := []; position := st_size;
                   lines_found := 0; remaining_text := [] |} in
    Ok (Py.join [LF] (lines s)).

(** [tail_file(file_path, num_lines)] *)
Definition tail_file (st : store) (file_path : str) (num_lines : Z)
    : result str :=
  match st !! file_path with
  | None => Raise (FileIO.missing st file_path)
  | Some Dir => Raise (IsADirectoryError file_path)
  | Some (File data) => tail_text data num_lines
  end.

(** [head_file] on the text of the file: [enumerate(f)] stops at the
    first index that is not below [num_lines]. *)
Fixpoint head_lines (i : nat) (num_lines : Z) (file_lines : list str)
    : list str :=
  match file_lines with
  | [] => []
  | line :: rest =>
      if (num_lines <=? Z.of_nat i)%Z then []
      else Py.rstrip_chars [LF] line :: head_lines (S i) num_lines rest
  end.

Definition head_text (data : str) (num_lines : Z) : str :=
  Py.join [LF]
    (head_lines 0 num_lines (FileIO.iter_lines (FileIO.universal_newlines data))).

(** [head_file(file_path, num_lines)] *)
Definition head_file (st : store) (file_path : str) (num_lines : Z)
    : result str :=
  match st !! file_path with
  | None => Raise (FileIO.missing st file_path)
  | Some Dir => Raise (IsADirectoryError file_path)
  | Some (File data) => Ok (head_text data num_lines)
  end.

(** The reference of the specification: the last [n] lines of a full
    read of the file, in their order. *)
Definition last_lines (n : Z) (ls : list str) : list str :=
  skipn (length ls - Z.to_nat n) ls.

Definition tail_of_full_read (data : str) (n : Z) : str :=
  Py.join [LF]
    (last_lines n
       (Py.splitlines (normalize_line_endings (FileIO.universal_newlines data)))).

End LineWindowReader.

(** ** EditEngine *)

Module EditEngine.

Record EditOperation : Type := {
  oldText : str;
  newText : str
}.

(** [all(old.strip() == content.strip() for old, content in zip(...))] *)
Fixpoint all_trimmed_equal (old_lines potential_match : list str) : bool :=
  match old_lines, potential_match with
  | old :: olds, content :: contents =>
      bool_decide (Py.strip old = Py.strip content)
      && all_trimmed_equal olds contents
  | _, _ => true
  end.

(** [l[i:j]] *)
Definition slice {A : Type} (l : list A) (i j : nat) : list A :=
  firstn (j - i) (skipn i l).

(** The test of the window that starts at line [i]. *)
Definition window_matches (old_lines content_lines : list str) (i : nat)
    : bool :=
  all_trimmed_equal old_lines (slice content_lines i (i + length old_lines)).

(** [range(len(content_lines) - len(old_lines) + 1)] *)
Definition window_range (old_lines content_lines : list str) : list nat :=
  seq 0 (Z.to_nat (Z.of_nat (length content_lines)
                   - Z.of_nat (length old_lines) + 1)).

(** The first window that matches, if any. *)
Definition find_window (old_lines content_lines : list str) : option nat :=
  List.find (window_matches old_lines content_lines)
            (window_range old_lines content_lines).

Definition no_match (e : EditOperation) : exn :=
  ValueError (lit "Could not find exact match for edit: " ++ oldText e).

(** The body of the loop over the edits: one edit applied to
    [modified_content]. *)
Definition apply_edit (modified_content : str) (edit : EditOperation)
    : result str :=
  let old_lines := Py.splitlines (normalize_line_endings (oldText edit)) in
  let content_lines := Py.splitlines modified_content in
  match find_window old_lines content_lines with
  | Some i =>
      let* line := index content_lines i in
      let* old0 := index old_lines 0 in
      let* pieces := py_split line (Py.strip old0) in
      let* original_indent := index pieces 0 in
      let new_lines := Py.splitlines (normalize_line_endings (newText edit)) in
      let* new0 := index new_lines 0 in
      let new_lines' := (original_indent ++ Py.lstrip new0) :: tl new_lines in
      let content_lines' :=
        firstn i content_lines ++ new_lines'
        ++ skipn (i + length old_lines) content_lines in
      Ok (Py.join [LF] content_lines')
  | None => Raise (no_match edit)
  end.

(** [for edit in edits] *)
Fixpoint apply_edits (modified_content : str) (edits : list EditOperation)
    : result str :=
  match edits with
  | [] => Ok modified_content
  | edit :: rest =>
      let* modified_content' := apply_edit modified_content edit in
      apply_edits modified_content' rest
  end.

(** [three backticks * num_backticks] *)
Definition fence (num_backticks : nat) : str :=
  Py.repeat_str [BACKTICK; BACKTICK; BACKTICK] num_backticks.

(** The [while] that widens the fence, unrolled [turns] times.  A fence
    longer than the diff is not in it, so [length diff] turns are enough:
    the count returned fails the test of the loop ([fence_loop_exits]
    below). *)
Fixpoint fence_loop (turns : nat) (diff : str) (num_backticks : nat) : nat :=
  match turns with
  | 0 => num_backticks
  | S k =>
      if Py.contains (fence num_backticks) diff
      then fence_loop k diff (S num_backticks)
      else num_backticks
  end.

Definition fence_count (diff : str) : nat := fence_loop (length diff) diff 3.

(** [formatted_diff] *)
Definition format_diff (diff : str) : str :=
  let num_backticks := fence_count diff in
  fence num_backticks ++ lit "diff" ++ [LF] ++ diff ++ [LF]
  ++ fence num_backticks ++ [LF].

Section Engine.

(** [difflib.unified_diff(a, b, fromfile=filepath, tofile=filepath,
    fromfiledate="original", tofiledate="modified", n=3)] of the standard
    library, as the list of the lines it yields. *)
Variable unified_diff : list str -> list str -> str -> list str.

(** What the device and [secrets.token_hex(16)] answer during the call:
    whether the write of the content is refused, and the token. *)
Variable fault : bool.
Variable token : str.

(** [create_unified_diff(original, modified, filepath)] *)
Definition create_unified_diff (original modified filepath : str) : str :=
  let original_lines := Py.splitlines (normalize_line_endings original) in
  let modified_lines := Py.splitlines (normalize_line_endings modified) in
  Py.join [LF] (unified_diff original_lines modified_lines filepath).

Definition temp_path_of (file_path : str) : str :=
  file_path ++ lit "." ++ token ++ lit ".tmp".

(** The [if not dry_run] block: write the temporary file, rename it onto
    the target, and on any exception unlink it and raise again. *)
Definition persist (st : store) (file_path modified_content : str)
    : result unit * store :=
  let temp_path := temp_path_of file_path in
  match FileIO.write_truncate fault st temp_path modified_content with
  | (Raise e, st1) => (Raise e, FileIO.unlink_quietly st1 temp_path)
  | (Ok _, st1) =>
      match FileIO.rename st1 temp_path file_path with
      | (Raise e, st2) => (Raise e, FileIO.unlink_quietly st2 temp_path)
      | (Ok _, st2) => (Ok tt, st2)
      end
  end.

(** [apply_file_edits(file_path, edits, dry_run)]: the value returned or
    the exception raised, and the store it leaves. *)
Definition apply_file_edits (st : store) (file_path : str)
    (edits : list EditOperation) (dry_run : bool) : result str * store :=
  match FileIO.read_text st file_path with
  | Raise e => (Raise e, st)
  | Ok text =>
      let content := normalize_line_endings text in
      match apply_edits content edits with
      | Raise e => (Raise e, st)
      | Ok modified_content =>
          let diff := create_unified_diff content modified_content file_path in
          let formatted_diff := format_diff diff in
          if negb dry_run then
            match persist st file_path modified_content with
            | (Raise e, st') => (Raise e, st')
            | (Ok _, st') => (Ok formatted_diff, st')
            end
          else (Ok formatted_diff, st)
      end
  end.

End Engine.

End EditEngine.

(** ** The tools *)

(** The dictionary a tool hands to [json.dumps]. *)
Inductive json : Type :=
  | JString (s : str)
  | JArray (items : list json)
  | JObject (members : list (str * json)).

Definition content_payload (content : str) : json :=
  JObject [(lit "content", JString content)].

Definition message_payload (message : str) : json :=
  JObject [(lit "message", JString message)].

Definition error_payload (e : exn) : json :=
  JObject [(lit "error", JString (str_of_exn e))].

(** [format_size] divides as a float and prints two decimals; the digits
    are left to [format_2f a b], the text of [a / b] under the format
    [.2f]. *)
Definition bit_length (z : Z) : Z :=
  match z with
  | Z0 => 0
  | Zpos p | Zneg p => Z.log2 (Zpos p) + 1
  end.

Definition units : list str :=
  [lit "B"; lit "KB"; lit "MB"; lit "GB"; lit "TB"].

Module Tools.

Record ReadFileArgs : Type := {
  rf_path : str;
  rf_tail : option Z;
  rf_head : option Z
}.

Record WriteFileArgs : Type := {
  wf_path : str;
  wf_content : str
}.

Record EditFileArgs : Type := {
  ef_path : str;
  ef_edits : list EditEngine.EditOperation;
  ef_dryRun : bool
}.

Record ListDirectoryWithSizesArgs : Type := {
  ls_path : str;
  ls_sortBy : str
}.

Record ReadMultipleFilesArgs : Type := {
  rm_paths : list str
}.

Record CreateDirectoryArgs : Type := {
  cd_path : str
}.

Record ListDirectoryArgs : Type := {
  ld_path : str
}.

Record DirectoryTreeArgs : Type := {
  dt_path : str
}.

Record MoveFileArgs : Type := {
  mv_source : str;
  mv_destination : str
}.

Record SearchFilesArgs : Type := {
  sf_path : str;
  sf_pattern : str;
  sf_excludePatterns : list str
}.

Record GetFileInfoArgs : Type := {
  gi_path : str
}.

(** What [os.stat] returns, as far as the server reads it.  The three
    times are floats in the source; they are only passed on, to the list
    entry and to the date format. *)
Record stat_result : Type := {
  st_size : Z;
  st_ctime : Z;
  st_mtime : Z;
  st_atime : Z;
  st_mode : Z
}.

(** [stat.S_ISDIR(mode)] and [stat.S_ISREG(mode)] *)
Definition S_ISDIR (mode : Z) : bool := (Z.land mode 61440 =? 16384)%Z.
Definition S_ISREG (mode : Z) : bool := (Z.land mode 61440 =? 32768)%Z.

(** [oct(n)] for a number that is not negative, and [s[-3:]]. *)
Fixpoint oct_digits (turns : nat) (n : Z) (acc : str) : str :=
  let acc' := chr (48 + Z.to_nat (n mod 8)) :: acc in
  match turns with
  | 0 => acc'
  | S k => if (n <? 8)%Z then acc' else oct_digits k (n / 8) acc'
  end.

Definition oct (n : Z) : str :=
  lit "0o" ++ oct_digits (Z.to_nat (Z.log2 n)) n [].

Definition last3 (s : str) : str := skipn (length s - 3) s.

(** [str(b)] for a boolean *)
Definition str_of_bool (b : bool) : str :=
  if b then lit "True" else lit "False".

(** One dictionary of the list [entries]. *)
Record entry : Type := {
  name : str;
  isDirectory : bool;
  size : Z;
  mtime : Z
}.

(** The truth value of an [Optional[int]]. *)
Definition truthy (o : option Z) : bool :=
  match o with
  | Some z => negb (z =? 0)%Z
  | None => false
  end.

(** [list.sort] is stable: insertion of each element before the first
    later one it may precede.  [before a b] says that the key of [a] may
    stand before the key of [b]. *)
Fixpoint insert_sorted {A : Type} (before : A -> A -> bool) (x : A)
    (l : list A) : list A :=
  match l with
  | [] => [x]
  | y :: t => if before x y then x :: y :: t
              else y :: insert_sorted before x t
  end.

Definition py_sort {A : Type} (before : A -> A -> bool) (l : list A)
    : list A :=
  fold_right (insert_sorted before) [] l.

(** The order of [entries.sort(key=..., reverse=(sortBy == "size"))]: by
    size, largest first, when [sortBy] is [size]; by name otherwise. *)
Definition entry_before (sortBy : str) (a b : entry) : bool :=
  if bool_decide (sortBy = lit "size") then (size b <=? size a)%Z
  else Py.str_leb (name a) (name b).

(** [sum(1 for e in entries if p(e))] and [sum(e.size for e in entries
    if p(e))] *)
Definition count_where (p : entry -> bool) (entries : list entry) : nat :=
  fold_left (fun acc e => if p e then acc + 1 else acc) entries 0.

Definition size_where (p : entry -> bool) (entries : list entry) : Z :=
  fold_left (fun acc e => if p e then (acc + size e)%Z else acc) entries 0%Z.

Definition is_file (e : entry) : bool := negb (isDirectory e).

(** [[f(x) for x in l]] where [f] may raise. *)
Fixpoint map_result {A B : Type} (f : A -> result B) (l : list A)
    : result (list B) :=
  match l with
  | [] => Ok []
  | x :: t =>
      let* y := f x in
      let* ys := map_result f t in
      Ok (y :: ys)
  end.

Section Server.

(** The host of the server: the process environment, [os.path.realpath],
    the configured root, and the answers of the standard library and of
    the operating system that the tools use as they are. *)
Variable env : environ.
Variable realpath : str -> result str.
Variable ALLOWED_DIR : str.
Variable unified_diff : list str -> list str -> str -> list str.
Variable format_2f : Z -> Z -> str.
Variable listdir : str -> result (list str).
Variable stat : str -> result stat_result.
Variable isdir : str -> bool.
Variable fault : bool.
Variable token : str.

(** The text of [datetime.fromtimestamp(t).isoformat()], the text of
    [json.dumps(value, indent=2)], and the recursion limit of the
    interpreter. *)
Variable isoformat : Z -> result str.
Variable dumps_indent2 : json -> str.
Variable recursion_limit : nat.

Definition validate_path (requested_path : str) : result str :=
  PathValidator.validate_path env realpath requested_path ALLOWED_DIR.

(** [format_size(bytes)] *)
Definition format_size (bytes : Z) : result str :=
  if (bytes =? 0)%Z then Ok (lit "0 B")
  else
    let i := Z.to_nat (bit_length bytes / 10) in
    if i =? 0 then
      let* unit := index units i in
      Ok (Py.str_of_Z bytes ++ lit " " ++ unit)
    else
      let text := format_2f bytes (1024 ^ Z.of_nat i) in
      let* unit := index units i in
      Ok (text ++ lit " " ++ unit).

(** The body of the [try] of [read_file]. *)
Definition read_file_body (st : store) (parsed : ReadFileArgs) : result json :=
  if truthy (rf_head parsed) && truthy (rf_tail parsed) then
    Ok (JObject [(lit "error",
                  JString (lit "Cannot specify both head and tail parameters"))])
  else
    let* valid_path := validate_path (rf_path parsed) in
    let* content :=
      if truthy (rf_tail parsed) then
        LineWindowReader.tail_file st valid_path (default 0%Z (rf_tail parsed))
      else if truthy (rf_head parsed) then
        LineWindowReader.head_file st valid_path (default 0%Z (rf_head parsed))
      else FileIO.read_text st valid_path in
    Ok (content_payload content).

(** [read_file(args)]; [args] is what the constructor of the argument
    record made of the dictionary: the record, or a [ValidationError]. *)
Definition read_file (st : store) (args : result ReadFileArgs) : json :=
  match (let* parsed := args in read_file_body st parsed) with
  | Ok response => response
  | Raise e => error_payload e
  end.

(** The inner [try] of [write_file] with its two handlers. *)
Definition write_atomically (st : store) (valid_path content : str)
    : result unit * store :=
  let temp_path := EditEngine.temp_path_of token valid_path in
  let attempt :=
    match FileIO.write_exclusive fault st temp_path content with
    | (Raise e, st1) => (Raise e, st1)
    | (Ok _, st1) => FileIO.rename st1 temp_path valid_path
    end in
  match attempt with
  | (Raise (FileExistsError _), st1) =>
      match FileIO.write_truncate fault st1 temp_path content with
      | (Raise e, st2) => (Raise e, st2)
      | (Ok _, st2) => FileIO.rename st2 temp_path valid_path
      end
  | (Raise e, st1) => (Raise e, FileIO.unlink_quietly st1 temp_path)
  | (Ok _, st1) => (Ok tt, st1)
  end.

(** [write_file(args)] *)
Definition write_file (st : store) (args : result WriteFileArgs)
    : json * store :=
  match args with
  | Raise e => (error_payload e, st)
  | Ok parsed =>
      match validate_path (wf_path parsed) with
      | Raise e => (error_payload e, st)
      | Ok valid_path =>
          match write_atomically st valid_path (wf_content parsed) with
          | (Raise e, st') => (error_payload e, st')
          | (Ok _, st') =>
              (message_payload (lit "Successfully wrote to " ++ wf_path parsed),
               st')
          end
      end
  end.

(** [edit_file(args)] *)
Definition edit_file (st : store) (args : result EditFileArgs)
    : json * store :=
  match args with
  | Raise e => (error_payload e, st)
  | Ok parsed =>
      match validate_path (ef_path parsed) with
      | Raise e => (error_payload e, st)
      | Ok valid_path =>
          match EditEngine.apply_file_edits unified_diff fault token st
                  valid_path (ef_edits parsed) (ef_dryRun parsed) with
          | (Raise e, st') => (error_payload e, st')
          | (Ok result, st') => (content_payload result, st')
          end
      end
  end.

(** The dictionary appended for one name that [os.listdir] returned. *)
Definition entry_of (valid_path entry_name : str) : entry :=
  let entry_path := PosixPath.join valid_path entry_name in
  match stat entry_path with
  | Ok stats =>
      {| name := entry_name; isDirectory := isdir entry_path;
         size := st_size stats; mtime := st_mtime stats |}
  | Raise _ =>
      {| name := entry_name; isDirectory := isdir entry_path;
         size := 0; mtime := 0 |}
  end.

(** One line of the listing. *)
Definition format_entry (e : entry) : result str :=
  let* shown :=
    if isDirectory e then Ok []
    else let* text := format_size (size e) in Ok (Py.rjust 10 text) in
  Ok ((if isDirectory e then lit "[DIR]" else lit "[FILE]")
      ++ lit " " ++ Py.ljust 30 (name e) ++ lit " " ++ shown).

(** The three lines appended to the listing. *)
Definition summary_lines (total_files total_dirs : nat) (combined : str)
    : list str :=
  [ [];
    lit "Total: " ++ Py.str_of_nat total_files ++ lit " files, "
      ++ Py.str_of_nat total_dirs ++ lit " directories";
    lit "Combined size: " ++ combined ].

(** The entries of the directory, sorted as asked. *)
Definition sorted_entries (valid_path sortBy : str) (names : list str)
    : list entry :=
  py_sort (entry_before sortBy) (map (entry_of valid_path) names).

(** The body of the [try] of [list_directory_with_sizes]. *)
Definition list_directory_with_sizes_body (parsed : ListDirectoryWithSizesArgs)
    : result json :=
  let* valid_path := validate_path (ls_path parsed) in
  let* names := listdir valid_path in
  let entries := sorted_entries valid_path (ls_sortBy parsed) names in
  let* formatted := map_result format_entry entries in
  let total_files := count_where is_file entries in
  let total_dirs := count_where isDirectory entries in
  let total_size := size_where is_file entries in
  let* combined := format_size total_size in
  Ok (content_payload
        (Py.join [LF]
           (formatted ++ summary_lines total_files total_dirs combined))).

(** [list_directory_with_sizes(args)] *)
Definition list_directory_with_sizes
    (args : result ListDirectoryWithSizesArgs) : json :=
  match (let* parsed := args in list_directory_with_sizes_body parsed) with
  | Ok response => response
  | Raise e => error_payload e
  end.

(** One entry of [read_multiple_files]: the inner [try] with its
    handler. *)
Definition read_one (st : store) (file_path : str) : str :=
  match (let* valid_path := validate_path file_path in
         FileIO.read_text st valid_path) with
  | Ok content => file_path ++ lit ":" ++ [LF] ++ content ++ [LF]
  | Raise e => file_path ++ lit ": Error - " ++ str_of_exn e
  end.

(** [read_multiple_files(args)] *)
Definition read_multiple_files (st : store)
    (args : result ReadMultipleFilesArgs) : json :=
  match args with
  | Raise e => error_payload e
  | Ok parsed =>
      content_payload
        (Py.join ([LF] ++ lit "---" ++ [LF]) (map (read_one st) (rm_paths parsed)))
  end.

(** [create_directory(args)] *)
Definition create_directory (st : store) (args : result CreateDirectoryArgs)
    : json * store :=
  match args with
  | Raise e => (error_payload e, st)
  | Ok parsed =>
      match validate_path (cd_path parsed) with
      | Raise e => (error_payload e, st)
      | Ok valid_path =>
          match FileIO.makedirs recursion_limit st valid_path with
          | (Raise e, st') => (error_payload e, st')
          | (Ok _, st') =>
              (message_payload
                 (lit "Successfully created directory " ++ cd_path parsed), st')
          end
      end
  end.

(** [list_directory(args)] *)
Definition list_directory (args : result ListDirectoryArgs) : json :=
  match (let* parsed := args in
         let* valid_path := validate_path (ld_path parsed) in
         let* entries := listdir valid_path in
         let formatted :=
           map (fun entry =>
                  let entry_path := PosixPath.join valid_path entry in
                  (if isdir entry_path then lit "[DIR]" else lit "[FILE]")
                  ++ lit " " ++ entry) entries in
         Ok (content_payload (Py.join [LF] formatted))) with
  | Ok response => response
  | Raise e => error_payload e
  end.

(** [build_tree(current_path)] of [directory_tree]; the nesting of its
    recursive calls is bounded by [depth]. *)
Fixpoint build_tree (depth : nat) (current_path : str) : result (list json) :=
  let* valid_path := validate_path current_path in
  let* names := listdir valid_path in
  (fix each (names : list str) : result (list json) :=
     match names with
     | [] => Ok []
     | entry :: rest =>
         let entry_path := PosixPath.join valid_path entry in
         let entry_data :=
           [(lit "name", JString entry);
            (lit "type",
             JString (if isdir entry_path then lit "directory" else lit "file"))] in
         let* entry_data' :=
           if isdir entry_path then
             match depth with
             | 0 => Raise RecursionError
             | S d =>
                 let* children := build_tree d entry_path in
                 Ok (entry_data ++ [(lit "children", JArray children)])
             end
           else Ok entry_data in
         let* entries := each rest in
         Ok (JObject entry_data' :: entries)
     end) names.

(** [directory_tree(args)] *)
Definition directory_tree (args : result DirectoryTreeArgs) : json :=
  match (let* parsed := args in
         let* tree_data := build_tree recursion_limit (dt_path parsed) in
         Ok (content_payload (dumps_indent2 (JArray tree_data)))) with
  | Ok response => response
  | Raise e => error_payload e
  end.

(** [move_file(args)] *)
Definition move_file (st : store) (args : result MoveFileArgs)
    : json * store :=
  match args with
  | Raise e => (error_payload e, st)
  | Ok parsed =>
      match (let* valid_source := validate_path (mv_source parsed) in
             let* valid_dest := validate_path (mv_destination parsed) in
             Ok (valid_source, valid_dest)) with
      | Raise e => (error_payload e, st)
      | Ok (valid_source, valid_dest) =>
          match FileIO.rename st valid_source valid_dest with
          | (Raise e, st') => (error_payload e, st')
          | (Ok _, st') =>
              (message_payload
                 (lit "Successfully moved " ++ mv_source parsed ++ lit " to "
                  ++ mv_destination parsed), st')
          end
      end
  end.

(** [search_files(args)].  The tool is defined under the name of the
    helper [search_files(root_path, pattern, exclude_patterns)], after
    it: when the tool runs, the name is bound to the tool, which takes one
    argument, and the call with three raises [TypeError].  The helper is
    never called. *)
Definition search_files (args : result SearchFilesArgs) : json :=
  match (let* parsed := args in
         let* valid_path := validate_path (sf_path parsed) in
         let* results :=
           Raise (TypeError (lit "search_files() takes 1 positional argument "
                             ++ lit "but 3 were given")) in
         Ok (content_payload
               (match results with
                | [] => lit "No matches found"
                | _ :: _ => Py.join [LF] results
                end))) with
  | Ok response => response
  | Raise e => error_payload e
  end.

(** [get_file_stats(file_path)], as the pairs of the dictionary it
    returns with the values as [str] formats them. *)
Definition get_file_stats (file_path : str) : result (list (str * str)) :=
  let* stats := stat file_path in
  let* created := isoformat (st_ctime stats) in
  let* modified := isoformat (st_mtime stats) in
  let* accessed := isoformat (st_atime stats) in
  Ok [(lit "size", Py.str_of_Z (st_size stats));
      (lit "created", created);
      (lit "modified", modified);
      (lit "accessed", accessed);
      (lit "isDirectory", str_of_bool (S_ISDIR (st_mode stats)));
      (lit "isFile", str_of_bool (S_ISREG (st_mode stats)));
      (lit "permissions", last3 (oct (st_mode stats)))].

(** [get_file_info(args)] *)
Definition get_file_info (args : result GetFileInfoArgs) : json :=
  match (let* parsed := args in
         let* valid_path := validate_path (gi_path parsed) in
         let* info := get_file_stats valid_path in
         let formatted :=
           Py.join [LF]
             (map (fun kv => fst kv ++ lit ": " ++ snd kv) info) in
         Ok (content_payload formatted)) with
  | Ok response => response
  | Raise e => error_payload e
  end.

(** [list_allowed_directories(args)] *)
Definition list_allowed_directories : json :=
  content_payload (lit "Allowed directories:" ++ [LF] ++ ALLOWED_DIR).

End Server.

End Tools.

(** * The vocabulary of the specification *)

(** [needle] occurs in [hay] as a substring. *)
Definition occurs_in (needle hay : str) : Prop :=
  exists before after, hay = before ++ needle ++ after.

(** A path contained in the root [root]: under it, and free of the NUL
    character that the containment test refuses. *)
Definition contained (root p : str) : Prop :=
  PathValidator.under root p /\ ~ In NUL p.

(** The lines of the text an edit searches for. *)
Definition old_lines_of (e : EditEngine.EditOperation) : list str :=
  Py.splitlines (normalize_line_endings (EditEngine.oldText e)).

(** The first line of [oldText] is empty or white space only. *)
Definition blank_first_line (e : EditEngine.EditOperation) : Prop :=
  exists first rest, old_lines_of e = first :: rest /\ Py.strip first = [].

(** Every edit of the list, applied in order, finds a window. *)
Fixpoint every_edit_matches (content : str) (edits : list EditEngine.EditOperation)
    : Prop :=
  match edits with
  | [] => True
  | e :: rest =>
      exists i content',
        EditEngine.find_window (old_lines_of e) (Py.splitlines content) = Some i
        /\ EditEngine.apply_edit content e = Ok content'
        /\ every_edit_matches content' rest
  end.

(** Sizes from the largest to the smallest. *)
Definition size_descending (a b : Tools.entry) : Prop := (Tools.size b <= Tools.size a)%Z.

(** Names in ascending order. *)
Definition name_ascending (a b : Tools.entry) : Prop :=
  Py.str_leb (Tools.name a) (Tools.name b) = true.

(** The three shapes a tool returns. *)
Definition is_content (j : json) : Prop := exists c, j = content_payload c.
Definition is_message (j : json) : Prop := exists m, j = message_payload m.
Definition is_error (j : json) : Prop :=
  exists m, j = JObject [(lit "error", JString m)].

Definition content_or_error (j : json) : Prop := is_content j \/ is_error j.
Definition message_or_error (j : json) : Prop := is_message j \/ is_error j.

Definition file_exists_error (e : exn) : bool :=
  match e with
  | FileExistsError _ => true
  | _ => false
  end.

(** * The scenarios of the specification *)

Module Scenario.

Import Py PosixPath PathValidator EditEngine Tools.

Definition env0 : environ :=
  {| env_home := lit "/home/user"; env_cwd := lit "/srv" |}.

Definition root : str := lit "/sandbox".

(** Two links: one inside the root to a directory of the root, one
    outside the root to a file of the root. *)
Definition links0 : gmap (list ascii) (list ascii) :=
  <[lit "/sandbox/link" := lit "/sandbox/real"]>
    (<[lit "/tmp/in" := lit "/sandbox/a.txt"]> ∅).

Definition hello_world : str := lit "hello" ++ [LF] ++ lit "world" ++ [LF].

Definition store0 : gmap (list ascii) node :=
  <[lit "/sandbox/a.txt" := File hello_world]>
    (<[lit "/sandbox/real" := Dir]>
       (<[lit "/sandbox" := Dir]> (<[lit "/" := Dir]> ∅))).

Definition realpath0 : str -> result str := Realpath.realpath 1000 env0 links0.

Definition token0 : str := lit "3f9a1c0de4b7a2685d0c9e1f7a3b5c2d".

(** A stand-in for [difflib.unified_diff] where a concrete one is
    needed: the two headers, the old lines as removed, the new lines as
    added. *)
Definition plain_diff (a b : list str) (filepath : str) : list str :=
  [lit "--- " ++ filepath; lit "+++ " ++ filepath]
  ++ map (fun l => lit "-" ++ l) a ++ map (fun l => lit "+" ++ l) b.

(** A stand-in for the float format of [format_size]. *)
Definition whole_2f (a b : Z) : str := Py.str_of_Z (a / b) ++ lit ".00".

Definition world_to_there : EditOperation :=
  {| oldText := lit "world"; newText := lit "there" |}.

(** A file of 1026 characters: the line [a], an empty line, and a line of
    1023 [x], which fills the last block of 1024 together with the
    terminator of the empty line. *)
Definition three_lines : str := lit "a" ++ [LF; LF] ++ repeat (chr 120) 1023.

(** The edited file of the scenario, and an edit that cannot match. *)
Definition a_txt : str := lit "/sandbox/a.txt".

Definition absent_to_x : EditOperation :=
  {| oldText := lit "absent"; newText := lit "x" |}.

(** An edit whose old text starts with an empty line. *)
Definition blank_then_b : EditOperation :=
  {| oldText := [LF] ++ lit "b"; newText := lit "c" |}.

(** A file that holds a run of ten backticks, and the diff of a dry run
    over it. *)
Definition store_ticks : gmap (list ascii) node :=
  <[lit "/sandbox/code.md" := File (repeat BACKTICK 10 ++ [LF] ++ lit "world")]>
    store0.

Definition fenced_diff : str :=
  Eval vm_compute in
    match fst (apply_file_edits plain_diff false token0 store_ticks
                 (lit "/sandbox/code.md") [world_to_there] true) with
    | Ok formatted => formatted
    | Raise _ => []
    end.

(** A directory of two files and one directory, as [os.listdir],
    [os.stat] and [os.path.isdir] report it. *)
Definition listdir0 (p : str) : result (list str) :=
  if bool_decide (p = root) then Ok [lit "b.txt"; lit "docs"; lit "a.txt"]
  else Raise (NotADirectoryError p).

Definition stat_of (size mode : Z) : stat_result :=
  {| st_size := size; st_ctime := 1700000000; st_mtime := 1700000000;
     st_atime := 1700000000; st_mode := mode |}.

Definition stat0 (p : str) : result stat_result :=
  if bool_decide (p = lit "/sandbox/b.txt") then Ok (stat_of 20 33188)
  else if bool_decide (p = lit "/sandbox/docs") then Ok (stat_of 4096 16877)
  else if bool_decide (p = lit "/sandbox/a.txt") then Ok (stat_of 300 33188)
  else Raise (FileNotFoundError p).

Definition isdir0 (p : str) : bool := bool_decide (p = lit "/sandbox/docs").

Definition by_size : ListDirectoryWithSizesArgs :=
  {| ls_path := root; ls_sortBy := lit "size" |}.

Definition listing_text : str :=
  Eval vm_compute in
    match list_directory_with_sizes env0 realpath0 root whole_2f listdir0
            stat0 isdir0 (Ok by_size) with
    | JObject [(_, JString text)] => text
    | _ => []
    end.

(** A content with a carriage return, and one without. *)
Definition crlf_content : str := lit "a" ++ [CR; LF] ++ lit "b".
Definition plain_content : str := lit "a" ++ [LF] ++ lit "b".

Definition write_b (content : str) : result WriteFileArgs :=
  Ok {| wf_path := lit "/sandbox/b.txt"; wf_content := content |}.

Definition read_b : result ReadFileArgs :=
  Ok {| rf_path := lit "/sandbox/b.txt"; rf_tail := None; rf_head := None |}.

(** A store in which the temporary name of a write to the directory
    [/sandbox/real] is already taken by a file. *)
Definition store_taken : gmap (list ascii) node :=
  <[temp_path_of token0 (lit "/sandbox/real") := File (lit "old")]> store0.

End Scenario.

(** No character of [s] ends a line for [str.splitlines]. *)
Definition break_free (s : str) : Prop :=
  forall c, In c s -> Py.is_linebreak c = false.

(** From the store [st] to the store [st'] nothing is removed and nothing
    is changed, and all that is added are directories. *)
Definition only_adds_directories (st st' : store) : Prop :=
  forall k,
    match st !! k with
    | Some n => st' !! k = Some n
    | None => st' !! k = None \/ st' !! k = Some Dir
    end.

(** * The configuration of the server *)

Module Config.

(** A value that [json.load] returns.  A dictionary is kept as the list
    of its items, each key once, a float as its text. *)
Inductive value : Type :=
  | VNull
  | VBool (b : bool)
  | VInt (z : Z)
  | VFloat (text : str)
  | VStr (s : str)
  | VList (items : list value)
  | VDict (items : list (str * value)).

(** An exception, as far as the loading code tells one from another: its
    class and the text [str(e)] that is logged. *)
Record failure : Type := {
  class_name : str;
  message : str
}.

Inductive outcome (A : Type) : Type :=
  | Loaded (a : A)
  | Failed (e : failure).
Arguments Loaded {A} a.
Arguments Failed {A} e.

Definition and_then {A B : Type} (r : outcome A) (k : A -> outcome B)
    : outcome B :=
  match r with
  | Loaded a => k a
  | Failed e => Failed e
  end.

Notation "'let+' x ':=' r 'in' k" := (and_then r (fun x => k))
  (at level 10, x name, r at level 100, k at level 200).

(** What the loading code leaves behind besides its result: a record of
    the named logger, or a message shown by streamlit. *)
Inductive event : Type :=
  | LogError (logger : str) (text : str)
  | StreamlitError (text : str).

(** [type(v).__name__] *)
Definition type_name (v : value) : str :=
  match v with
  | VNull => lit "NoneType"
  | VBool _ => lit "bool"
  | VInt _ => lit "int"
  | VFloat _ => lit "float"
  | VStr _ => lit "str"
  | VList _ => lit "list"
  | VDict _ => lit "dict"
  end.

(** [d.get(key)] on the items of a dictionary *)
Definition lookup_key (key : str) (items : list (str * value)) : option value :=
  option_map snd (List.find (fun kv => bool_decide (fst kv = key)) items).

(** [item == key] for a string [key] *)
Definition equals_str (key : str) (item : value) : bool :=
  match item with
  | VStr s => bool_decide (s = key)
  | _ => false
  end.

(** [key in v] for a string [key]: membership in a dictionary or a list,
    a substring of a string, and [TypeError] on what is no container. *)
Definition contains_key (key : str) (v : value) : outcome bool :=
  match v with
  | VDict items => Loaded (bool_decide (is_Some (lookup_key key items)))
  | VList items => Loaded (existsb (equals_str key) items)
  | VStr s => Loaded (Py.contains key s)
  | _ =>
      Failed {| class_name := lit "TypeError";
                message := lit "argument of type '" ++ type_name v
                           ++ lit "' is not iterable" |}
  end.

(** [v[key]] for a string [key] *)
Definition getitem (v : value) (key : str) : outcome value :=
  match v with
  | VDict items =>
      match lookup_key key items with
      | Some x => Loaded x
      | None =>
          Failed {| class_name := lit "KeyError";
                    message := lit "'" ++ key ++ lit "'" |}
      end
  | VList _ =>
      Failed {| class_name := lit "TypeError";
                message :=
                  lit "list indices must be integers or slices, not str" |}
  | VStr _ =>
      Failed {| class_name := lit "TypeError";
                message := lit "string indices must be integers, not 'str'" |}
  | _ =>
      Failed {| class_name := lit "TypeError";
                message := lit "'" ++ type_name v
                           ++ lit "' object is not subscriptable" |}
  end.

(** [all(key in v for key in keys)] *)
Fixpoint contains_all (keys : list str) (v : value) : outcome bool :=
  match keys with
  | [] => Loaded true
  | key :: rest =>
      let+ found := contains_key key v in
      if found then contains_all rest v else Loaded false
  end.

Definition MCP_CLIENT_CONFIG_PATH : str := lit "config/mcp_client_config.json".

Definition value_error (text : str) : failure :=
  {| class_name := lit "ValueError"; message := text |}.

Section Loader.

(** [json.load] on the text of the file: the value, or the exception it
    raises. *)
Variable json_load : str -> outcome value.

(** [load_mcp_config()], given what is stored at the path of the
    configuration: the [try] block, and the handler that reports the
    exception and raises it again. *)
Definition load_mcp_config (found : option node) : outcome value * list event :=
  let attempt : outcome value :=
    match found with
    | None =>
        Failed {| class_name := lit "FileNotFoundError";
                  message := lit "Config file not found: "
                             ++ MCP_CLIENT_CONFIG_PATH |}
    | Some Dir =>
        Failed {| class_name := lit "IsADirectoryError";
                  message := str_of_exn (IsADirectoryError MCP_CLIENT_CONFIG_PATH) |}
    | Some (File data) =>
        let+ config := json_load (FileIO.universal_newlines data) in
        match config with
        | VDict _ => Loaded config
        | _ => Failed (value_error (lit "Invalid JSON format in "
                                   ++ MCP_CLIENT_CONFIG_PATH))
        end
    end in
  match attempt with
  | Loaded config => (Loaded config, [])
  | Failed e =>
      (Failed e,
       [LogError (lit "root") (lit "Failed to load MCP config: " ++ message e);
        StreamlitError (lit "Failed to load MCP config: " ++ message e)])
  end.

(** The three settings the module of the file server reads. *)
Record settings : Type := {
  ALLOWED_DIR : value;
  SERVER_NAME : value;
  PORT : value
}.

(** The block [# Load configuration] of the module of the file server:
    the [try] block, and the handler that logs the exception and raises it
    again. *)
Definition load_configuration (found : option node)
    : outcome settings * list event :=
  let '(loaded, events) := load_mcp_config found in
  let attempt : outcome settings :=
    let+ config := loaded in
    let+ has_servers := contains_key (lit "mcpServers") config in
    let+ has_server :=
      if negb has_servers then Loaded false
      else
        let+ servers := getitem config (lit "mcpServers") in
        contains_key (lit "filesystem-server") servers in
    if negb has_servers || negb has_server then
      Failed (value_error (lit "Invalid mcpServers configuration: "
                          ++ lit "missing filesystem-server"))
    else
      let+ servers := getitem config (lit "mcpServers") in
      let+ server_config := getitem servers (lit "filesystem-server") in
      let+ complete :=
        contains_all [lit "allowedDir"; lit "serverName"; lit "port"]
          server_config in
      if negb complete then
        Failed (value_error (lit "Missing allowedDir, serverName, or port in "
                            ++ lit "filesystem-server configuration"))
      else
        let+ allowed_dir := getitem server_config (lit "allowedDir") in
        let+ server_name := getitem server_config (lit "serverName") in
        let+ port := getitem server_config (lit "port") in
        Loaded {| ALLOWED_DIR := allowed_dir; SERVER_NAME := server_name;
                  PORT := port |} in
  match attempt with
  | Loaded s => (Loaded s, events)
  | Failed e =>
      (Failed e,
       events ++ [LogError (lit "mcp_server_filesystem")
                    (lit "Failed to load configuration: " ++ message e)])
  end.

End Loader.

End Config.

(** * The helper [search_files] *)

Module Search.

(** [c.lower()] for a code point below 256 *)
Definition lower_char (c : ascii) : ascii :=
  let n := ord c in
  if ((65 <=? n) && (n <=? 90))
     || ((192 <=? n) && (n <=? 222) && negb (n =? 215))
  then chr (n + 32) else c.

(** [s.lower()] *)
Definition lower (s : str) : str := map lower_char s.

Section Helper.

(** The process environment, the configured root, and the answers of the
    standard library that the helper uses as they are: the triples that
    [os.walk] yields, [os.path.relpath] and [fnmatch.fnmatch]. *)
Variable env : environ.
Variable ALLOWED_DIR : str.
Variable walk : str -> list (str * list str * list str).
Variable relpath : str -> str -> str.
Variable fnmatch : str -> str -> bool.

(** [for file in files]: what the loop appends to [results]. *)
Fixpoint search_in (root_path pattern : str) (exclude_patterns : list str)
    (root : str) (files : list str) (results : list str) : list str :=
  match files with
  | [] => results
  | file :: rest =>
      let full_path := PosixPath.join root file in
      let relative_path := relpath full_path root_path in
      if existsb (fnmatch relative_path) exclude_patterns
      then search_in root_path pattern exclude_patterns root rest results
      else if Py.contains pattern (lower file)
      then search_in root_path pattern exclude_patterns root rest
             (results ++ [full_path])
      else search_in root_path pattern exclude_patterns root rest results
  end.

(** [for root, _, files in os.walk(root_path)] *)
Fixpoint search_walk (root_path pattern : str) (exclude_patterns : list str)
    (walked : list (str * list str * list str)) (results : list str)
    : result (list str) :=
  match walked with
  | [] => Ok results
  | (root, _, files) :: rest =>
      let* within :=
        PathValidator.is_path_within_allowed_directory env root ALLOWED_DIR in
      if negb within
      then search_walk root_path pattern exclude_patterns rest results
      else search_walk root_path pattern exclude_patterns rest
             (search_in root_path pattern exclude_patterns root files results)
  end.

(** [search_files(root_path, pattern, exclude_patterns)] *)
Definition search_files (root_path pattern : str)
    (exclude_patterns : list str) : result (list str) :=
  let results := [] in
  let pattern := lower pattern in
  search_walk root_path pattern exclude_patterns (walk root_path) results.

End Helper.

End Search.

(** * Further scenarios *)

Module MoreScenarios.

Import Py PosixPath PathValidator EditEngine Tools Scenario.

Definition b_txt : str := lit "/sandbox/b.txt".
Definition c_txt : str := lit "/sandbox/c.txt".

(** A file written with carriage returns, a file with a form feed, and a
    second file beside [a.txt]. *)
Definition store_crlf : gmap (list ascii) node :=
  <[b_txt := File crlf_content]> store0.

Definition store_form_feed : gmap (list ascii) node :=
  <[c_txt := File (lit "page" ++ [chr 12] ++ lit "world")]> store0.

Definition store_two : gmap (list ascii) node :=
  <[b_txt := File (lit "old")]> store0.

(** Edits with an empty old text and with an empty new text. *)
Definition nothing_to_x : EditOperation :=
  {| oldText := []; newText := lit "x" |}.

Definition world_to_nothing : EditOperation :=
  {| oldText := lit "world"; newText := [] |}.

(** A text whose first line is indented by two spaces, and an edit whose
    new text is indented by four. *)
Definition indented : str := lit "  world" ++ [LF] ++ lit "world".

Definition world_to_indented_there : EditOperation :=
  {| oldText := lit "world"; newText := lit "    there" |}.

(** The directory of the scenario with one file in [docs]. *)
Definition listdir1 (p : str) : result (list str) :=
  if bool_decide (p = root) then Ok [lit "b.txt"; lit "docs"; lit "a.txt"]
  else if bool_decide (p = lit "/sandbox/docs") then Ok [lit "readme.md"]
  else Raise (NotADirectoryError p).

(** A stand-in for [json.dumps(tree_data, indent=2)]: the names of the
    nodes of the first level. *)
Definition names_only (j : json) : str :=
  match j with
  | JArray nodes =>
      Py.join (lit ", ")
        (map (fun node =>
                match node with
                | JObject ((_, JString entry_name) :: _) => entry_name
                | _ => []
                end) nodes)
  | _ => []
  end.

(** A configuration file, and a stand-in for [json.load] that knows this
    file and the empty dictionary. *)
Definition quoted (s : str) : str := [DQUOTE] ++ s ++ [DQUOTE].

Definition config_text : str :=
  lit "{" ++ quoted (lit "mcpServers") ++ lit ": {"
  ++ quoted (lit "filesystem-server") ++ lit ": {"
  ++ quoted (lit "allowedDir") ++ lit ": " ++ quoted (lit "/sandbox") ++ lit ", "
  ++ quoted (lit "serverName") ++ lit ": " ++ quoted (lit "files") ++ lit ", "
  ++ quoted (lit "port") ++ lit ": 8001}}}".

Definition config_value : Config.value :=
  Config.VDict
    [(lit "mcpServers",
      Config.VDict
        [(lit "filesystem-server",
          Config.VDict
            [(lit "allowedDir", Config.VStr (lit "/sandbox"));
             (lit "serverName", Config.VStr (lit "files"));
             (lit "port", Config.VInt 8001)])])].

Definition json_load0 (text : str) : Config.outcome Config.value :=
  if bool_decide (text = config_text) then Config.Loaded config_value
  else if bool_decide (text = lit "{}") then Config.Loaded (Config.VDict [])
  else Config.Failed
         {| Config.class_name := lit "JSONDecodeError";
            Config.message := lit "Expecting value: line 1 column 1 (char 0)" |}.

(** What [os.walk] yields for the root of the scenario, and stand-ins
    for [os.path.relpath] on a path under the start and for
    [fnmatch.fnmatch] on patterns without wildcard. *)
Definition walk0 (p : str) : list (str * list str * list str) :=
  if bool_decide (p = root)
  then [(root, [lit "docs"], [lit "b.txt"; lit "README.md"; lit "a.txt"]);
        (lit "/sandbox/docs", [], [lit "readme.md"])]
  else [].

Definition relpath0 (path start : str) : str := skipn (length start + 1) path.

Definition fnmatch0 (file_name pattern : str) : bool :=
  bool_decide (file_name = pattern).

End MoreScenarios.

(** * Properties *)

(** ** Strings *)

Section StringFacts.

Import Py.

Lemma ascii_eqb_true (a b : ascii) : Ascii.eqb a b = true <-> a = b.
Proof. apply Ascii.eqb_eq. Qed.

Lemma startswith_prefix (p s : str) :
  startswith p s = true <-> exists t, s = p ++ t.
Proof.
  revert s; induction p as [|a p IH]; intros s; simpl.
  - split; [intros _; now exists s | trivial].
  - destruct s as [|b s]; simpl.
    + split; [discriminate | intros [t Ht]; discriminate].
    + rewrite andb_true_iff, ascii_eqb_true, IH. split.
      * intros [-> [t ->]]. now exists t.
      * intros [t Ht]. injection Ht as -> ->. split; [reflexivity | now exists t].
Qed.

Lemma startswith_app (p t : str) : startswith p (p ++ t) = true.
Proof. apply startswith_prefix. now exists t. Qed.

Lemma contains_occurs (needle hay : str) :
  contains needle hay = true <-> occurs_in needle hay.
Proof.
  unfold occurs_in. induction hay as [|c hay IH].
  - simpl. rewrite orb_false_r, startswith_prefix. split.
    + intros [t Ht]. exists [], t. exact Ht.
    + intros [b [a H]]. destruct b; [now exists a | discriminate].
  - cbn [contains]. rewrite orb_true_iff, startswith_prefix, IH. split.
    + intros [[t Ht] | [b [a H]]].
      * exists [], t. exact Ht.
      * exists (c :: b), a. simpl. now rewrite H.
    + intros [b [a H]]. destruct b as [|c' b].
      * left. now exists a.
      * right. injection H as _ H. now exists b, a.
Qed.

Lemma occurs_in_length (needle hay : str) :
  occurs_in needle hay -> length needle <= length hay.
Proof.
  intros [b [a ->]]. rewrite !length_app. lia.
Qed.

Lemma occurs_in_trans (a b c : str) :
  occurs_in a b -> occurs_in b c -> occurs_in a c.
Proof.
  intros [p [q ->]] [r [t ->]]. exists (r ++ p), (q ++ t).
  now rewrite <- !app_assoc.
Qed.

Lemma repeat_str_length (s : str) (n : nat) :
  length (repeat_str s n) = n * length s.
Proof.
  induction n as [|n IH]; simpl; [reflexivity|].
  rewrite length_app, IH. lia.
Qed.

Lemma repeat_str_add (s : str) (n m : nat) :
  repeat_str s (n + m) = repeat_str s n ++ repeat_str s m.
Proof.
  induction n as [|n IH]; simpl; [reflexivity|].
  now rewrite IH, app_assoc.
Qed.

Lemma universal_newlines_id (s : str) :
  ~ In CR s -> FileIO.universal_newlines s = s.
Proof.
  induction s as [|c s IH]; simpl; [reflexivity|].
  intros H. destruct (Ascii.eqb c CR) eqn:E.
  - apply Ascii.eqb_eq in E. exfalso. apply H. now left.
  - f_equal. apply IH. intros Hin. apply H. now right.
Qed.

End StringFacts.

(** ** The fence of the diff *)

Section FenceFacts.

Import Py EditEngine.

Lemma fence_length (k : nat) : length (fence k) = 3 * k.
Proof. unfold fence. rewrite repeat_str_length. simpl. lia. Qed.

Lemma fence_backticks (k : nat) : fence k = repeat BACKTICK (3 * k).
Proof.
  unfold fence. induction k as [|k IH]; [reflexivity|].
  replace (3 * S k) with (3 + 3 * k) by lia. simpl. now rewrite IH.
Qed.

Lemma fence_occurs_mono (k m : nat) : k <= m -> occurs_in (fence k) (fence m).
Proof.
  intros H. exists [], (fence (m - k)). simpl. unfold fence.
  rewrite <- repeat_str_add. f_equal. lia.
Qed.

Lemma backticks_occur_mono (i j : nat) :
  i <= j -> occurs_in (repeat BACKTICK i) (repeat BACKTICK j).
Proof.
  intros H. exists [], (repeat BACKTICK (j - i)). simpl.
  rewrite <- repeat_app. f_equal. lia.
Qed.

(** The unrolled loop stops where the [while] of the source stops: the
    count returned fails the test of the loop. *)
Lemma fence_loop_stops (turns : nat) (diff : str) (n : nat) :
  length diff < 3 * (n + turns) ->
  contains (fence (fence_loop turns diff n)) diff = false.
Proof.
  revert n; induction turns as [|k IH]; intros n H; simpl.
  - destruct (contains (fence n) diff) eqn:E; [|reflexivity].
    apply contains_occurs, occurs_in_length in E.
    rewrite fence_length in E. lia.
  - destruct (contains (fence n) diff) eqn:E; [|exact E].
    apply IH. lia.
Qed.

Lemma fence_loop_exits (diff : str) :
  contains (fence (fence_count diff)) diff = false.
Proof. apply fence_loop_stops. lia. Qed.

Lemma fence_loop_ge (turns : nat) (diff : str) (n : nat) :
  n <= fence_loop turns diff n.
Proof.
  revert n; induction turns as [|k IH]; intros n; simpl; [lia|].
  destruct (contains (fence n) diff); [|lia].
  specialize (IH (S n)). lia.
Qed.

(** ... and no earlier: every count the loop passed over was in the
    diff. *)
Lemma fence_loop_passed (turns : nat) (diff : str) (n m : nat) :
  n <= m < fence_loop turns diff n -> contains (fence m) diff = true.
Proof.
  revert n; induction turns as [|k IH]; intros n H; simpl in H; [lia|].
  destruct (contains (fence n) diff) eqn:E; [|lia].
  destruct (Nat.eq_dec n m) as [->|Hne]; [exact E|].
  apply (IH (S n)). lia.
Qed.

Lemma fence_count_above_runs (diff : str) (m : nat) :
  occurs_in (fence m) diff -> m < fence_count diff.
Proof.
  intros H. destruct (Nat.lt_ge_cases m (fence_count diff)) as [|Hge]; [assumption|].
  exfalso. pose proof (fence_loop_exits diff) as Hex.
  assert (contains (fence (fence_count diff)) diff = true) as Hin.
  { apply contains_occurs. eapply occurs_in_trans; [|exact H].
    now apply fence_occurs_mono. }
  congruence.
Qed.

Lemma fence_count_above_backticks (diff : str) (j : nat) :
  occurs_in (repeat BACKTICK j) diff -> j < 3 * fence_count diff.
Proof.
  intros H. destruct (Nat.lt_ge_cases j (3 * fence_count diff)) as [|Hge]; [assumption|].
  exfalso. pose proof (fence_loop_exits diff) as Hex.
  assert (contains (fence (fence_count diff)) diff = true) as Hin.
  { apply contains_occurs. eapply occurs_in_trans; [|exact H].
    rewrite fence_backticks. now apply backticks_occur_mono. }
  congruence.
Qed.

End FenceFacts.

(** ** The edit engine *)

Section EditFacts.

Import Py EditEngine.

Variable unified_diff : list str -> list str -> str -> list str.
Variable fault : bool.
Variable token : str.

Lemma find_window_in_range (old_lines content_lines : list str) (i : nat) :
  find_window old_lines content_lines = Some i ->
  window_matches old_lines content_lines i = true
  /\ i + length old_lines <= length content_lines.
Proof.
  unfold find_window, window_range. intros H.
  apply List.find_some in H as [Hin Hm]. split; [exact Hm|].
  apply in_seq in Hin. lia.
Qed.

Lemma apply_edit_no_window (content : str) (e : EditOperation) :
  find_window (old_lines_of e) (splitlines content) = None ->
  apply_edit content e = Raise (no_match e).
Proof.
  unfold apply_edit, old_lines_of. now intros ->.
Qed.

Lemma apply_edit_ok_window (content : str) (e : EditOperation) (r : str) :
  apply_edit content e = Ok r ->
  exists i, find_window (old_lines_of e) (splitlines content) = Some i.
Proof.
  unfold apply_edit, old_lines_of.
  destruct (find_window _ _) as [i|]; [eauto | discriminate].
Qed.

Lemma apply_edits_ok_matches (edits : list EditOperation) (content r : str) :
  apply_edits content edits = Ok r -> every_edit_matches content edits.
Proof.
  revert content; induction edits as [|e rest IH]; intros content H; simpl.
  - exact I.
  - simpl in H. destruct (apply_edit content e) as [c'|err] eqn:E; simpl in H;
      [|discriminate].
    destruct (apply_edit_ok_window _ _ _ E) as [i Hi].
    exists i, c'. auto.
Qed.

Lemma apply_edits_app (pre post : list EditOperation) (content : str) :
  apply_edits content (pre ++ post)
  = bind (apply_edits content pre) (fun c => apply_edits c post).
Proof.
  revert content; induction pre as [|e pre IH]; intros content; simpl.
  - reflexivity.
  - destruct (apply_edit content e); simpl; [apply IH | reflexivity].
Qed.

(** An edit whose first old line is blank raises whatever the content:
    with a matching window the split on the empty string raises, without
    one the search does. *)
Lemma apply_edit_blank_window (content : str) (e : EditOperation) (i : nat) :
  blank_first_line e ->
  find_window (old_lines_of e) (splitlines content) = Some i ->
  apply_edit content e = Raise (ValueError (lit "empty separator")).
Proof.
  intros (first & rest & Hold & Hblank) Hfind.
  pose proof (find_window_in_range _ _ _ Hfind) as [_ Hlen].
  unfold apply_edit. unfold old_lines_of in *. rewrite Hfind.
  rewrite Hold in *. simpl in Hlen.
  unfold index at 1.
  destruct (nth_error (splitlines content) i) as [line|] eqn:Hnth.
  - simpl. rewrite Hblank. reflexivity.
  - apply nth_error_None in Hnth. lia.
Qed.

Lemma apply_edit_blank_raises (content : str) (e : EditOperation) :
  blank_first_line e -> exists err, apply_edit content e = Raise err.
Proof.
  intros Hb.
  destruct (find_window (old_lines_of e) (splitlines content)) as [i|] eqn:E.
  - eexists. eapply apply_edit_blank_window; eauto.
  - eexists. now apply apply_edit_no_window.
Qed.

Lemma apply_edits_blank_raises (edits : list EditOperation) (content : str)
    (e : EditOperation) :
  In e edits -> blank_first_line e ->
  exists err, apply_edits content edits = Raise err.
Proof.
  intros Hin Hb. revert content.
  induction edits as [|e' rest IH]; intros content; [contradiction|].
  simpl. destruct (apply_edit content e') as [c'|err] eqn:E; simpl.
  - destruct Hin as [->|Hin].
    + destruct (apply_edit_blank_raises content e Hb) as [err Herr]. congruence.
    + now apply IH.
  - now exists err.
Qed.

Lemma apply_file_edits_edit_error (st : store) (file_path text : str)
    (edits : list EditOperation) (dry_run : bool) (err : exn) :
  FileIO.read_text st file_path = Ok text ->
  apply_edits (normalize_line_endings text) edits = Raise err ->
  apply_file_edits unified_diff fault token st file_path edits dry_run
  = (Raise err, st).
Proof.
  intros Hr He. unfold apply_file_edits. now rewrite Hr, He.
Qed.

Lemma apply_file_edits_dry_run (st : store) (file_path : str)
    (edits : list EditOperation) :
  snd (apply_file_edits unified_diff fault token st file_path edits true) = st.
Proof.
  unfold apply_file_edits.
  destruct (FileIO.read_text st file_path); [|reflexivity].
  destruct (apply_edits _ edits); reflexivity.
Qed.

Lemma apply_file_edits_changed (st st' : store) (file_path : str)
    (edits : list EditOperation) (dry_run : bool) (r : result str) :
  apply_file_edits unified_diff fault token st file_path edits dry_run = (r, st') ->
  st' <> st ->
  dry_run = false
  /\ exists text modified_content,
       FileIO.read_text st file_path = Ok text
       /\ apply_edits (normalize_line_endings text) edits = Ok modified_content
       /\ every_edit_matches (normalize_line_endings text) edits.
Proof.
  unfold apply_file_edits. intros H Hne.
  destruct (FileIO.read_text st file_path) as [text|] eqn:Hr;
    [|injection H as _ <-; contradiction].
  destruct (apply_edits _ edits) as [m|] eqn:He;
    [|injection H as _ <-; contradiction].
  destruct dry_run; simpl in H; [injection H as _ <-; contradiction|].
  split; [reflexivity|]. exists text, m. repeat split; auto.
  eapply apply_edits_ok_matches; eauto.
Qed.

(** C3.  An edit with [dryRun] set leaves the store as it was.  Without
    it the store changes only when every edit of the list, applied in
    order, found a matching window; when the run reaches an edit that
    finds none, the call raises the no-match error of that edit and the
    store is what it was before the call, and so it is after any other
    error of the edit phase. *)
Theorem edit_persists_only_on_full_success (st : store) (file_path : str)
    (edits : list EditOperation) :
  snd (apply_file_edits unified_diff fault token st file_path edits true) = st
  /\ (forall r st',
        apply_file_edits unified_diff fault token st file_path edits false
        = (r, st') ->
        st' <> st ->
        exists text,
          FileIO.read_text st file_path = Ok text
          /\ every_edit_matches (normalize_line_endings text) edits)
  /\ (forall text pre e post content',
        FileIO.read_text st file_path = Ok text ->
        edits = pre ++ e :: post ->
        apply_edits (normalize_line_endings text) pre = Ok content' ->
        find_window (old_lines_of e) (splitlines content') = None ->
        apply_file_edits unified_diff fault token st file_path edits false
        = (Raise (no_match e), st))
  /\ (forall text err,
        FileIO.read_text st file_path = Ok text ->
        apply_edits (normalize_line_endings text) edits = Raise err ->
        apply_file_edits unified_diff fault token st file_path edits false
        = (Raise err, st)).
Proof.
  split; [apply apply_file_edits_dry_run|]. split; [|split].
  - intros r st' H Hne.
    destruct (apply_file_edits_changed _ _ _ _ _ _ H Hne) as (_ & text & m & Hr & _ & Hm).
    now exists text.
  - intros text pre e post content' Hr -> Hpre Hnone.
    apply apply_file_edits_edit_error with (text := text); [exact Hr|].
    rewrite apply_edits_app, Hpre. simpl.
    now rewrite (apply_edit_no_window _ _ Hnone).
  - intros text err Hr He. now apply apply_file_edits_edit_error with (text := text).
Qed.

(** C7.  The diff that a successful edit returns is wrapped in a fence
    of [k] triple backticks, where [k] is at least 3, the fence does not
    occur in the diff, [k] exceeds the length of every run of triple
    backticks in the diff, and the fence is longer than every run of
    backticks in the diff. *)
Theorem fence_exceeds_every_run (st : store) (file_path : str)
    (edits : list EditOperation) (dry_run : bool) (formatted : str) :
  fst (apply_file_edits unified_diff fault token st file_path edits dry_run)
  = Ok formatted ->
  exists text modified_content,
    FileIO.read_text st file_path = Ok text
    /\ apply_edits (normalize_line_endings text) edits = Ok modified_content
    /\ let diff := create_unified_diff unified_diff
                     (normalize_line_endings text) modified_content file_path in
       let k := fence_count diff in
       formatted = fence k ++ lit "diff" ++ [LF] ++ diff ++ [LF] ++ fence k ++ [LF]
       /\ 3 <= k
       /\ ~ occurs_in (fence k) diff
       /\ (forall m, occurs_in (fence m) diff -> m < k)
       /\ (forall j, occurs_in (repeat BACKTICK j) diff -> j < length (fence k)).
Proof.
  unfold apply_file_edits. intros H.
  destruct (FileIO.read_text st file_path) as [text|] eqn:Hr; [|discriminate].
  destruct (apply_edits _ edits) as [m|] eqn:He; [|discriminate].
  exists text, m. split; [reflexivity|]. split; [exact He|].
  set (diff := create_unified_diff unified_diff (normalize_line_endings text) m file_path) in *.
  assert (formatted = format_diff diff) as ->.
  { destruct dry_run; cbn [negb fst] in H.
    - now injection H as <-.
    - destruct (persist _ _ _ _ _) as [[[]|e] s2]; cbn [fst] in H;
        [now injection H as <- | discriminate]. }
  cbv zeta. split; [reflexivity|]. split; [apply fence_loop_ge|].
  split; [|split].
  - intros Hin. apply contains_occurs in Hin.
    pose proof (fence_loop_exits diff). congruence.
  - apply fence_count_above_runs.
  - intros j Hj. rewrite fence_length. now apply fence_count_above_backticks.
Qed.

(** C10.  An edit whose old text starts with a blank line is never
    applied: where a window matches, the split of the matched line on the
    empty string raises; whatever the content the edit raises; and a call
    whose list holds such an edit raises and leaves the store as it
    was. *)
Theorem blank_first_line_never_applies (e : EditOperation) :
  blank_first_line e ->
  (forall content i,
     find_window (old_lines_of e) (splitlines content) = Some i ->
     apply_edit content e = Raise (ValueError (lit "empty separator")))
  /\ (forall content, exists err, apply_edit content e = Raise err)
  /\ (forall st file_path edits dry_run,
        In e edits ->
        exists err,
          apply_file_edits unified_diff fault token st file_path edits dry_run
          = (Raise err, st)).
Proof.
  intros Hb. split; [|split].
  - intros content i. now apply apply_edit_blank_window.
  - intros content. now apply apply_edit_blank_raises.
  - intros st file_path edits dry_run Hin. unfold apply_file_edits.
    destruct (FileIO.read_text st file_path) as [text|err]; [|now exists err].
    destruct (apply_edits_blank_raises edits (normalize_line_endings text) e Hin Hb)
      as [err Herr].
    rewrite Herr. now exists err.
Qed.

End EditFacts.

(** ** The sorted listing *)

Section SortFacts.

Import Tools.

Context {A : Type} (before : A -> A -> bool).

Let precedes (a b : A) : Prop := before a b = true.

Hypothesis before_total : forall a b, before a b = false -> before b a = true.
Hypothesis before_trans :
  forall a b c, before a b = true -> before b c = true -> before a c = true.

Lemma insert_sorted_perm (x : A) (l : list A) :
  Permutation (insert_sorted before x l) (x :: l).
Proof.
  induction l as [|y t IH]; simpl; [reflexivity|].
  destruct (before x y); [reflexivity|].
  rewrite IH. apply perm_swap.
Qed.

Lemma py_sort_perm (l : list A) : Permutation (py_sort before l) l.
Proof.
  induction l as [|x t IH]; simpl; [reflexivity|].
  rewrite insert_sorted_perm. now constructor.
Qed.

Lemma insert_sorted_sorted (x : A) (l : list A) :
  StronglySorted precedes l -> StronglySorted precedes (insert_sorted before x l).
Proof using before_total before_trans.
  induction 1 as [|y t Hs IH Hall]; simpl.
  - repeat constructor.
  - destruct (before x y) eqn:E.
    + constructor; [now constructor|]. constructor; [exact E|].
      eapply List.Forall_impl; [|exact Hall]. intros z Hz.
      unfold precedes in *. eauto.
    + constructor; [exact IH|].
      eapply Permutation_Forall; [symmetry; apply insert_sorted_perm|].
      constructor; [|exact Hall]. apply before_total, E.
Qed.

Lemma py_sort_sorted (l : list A) : StronglySorted precedes (py_sort before l).
Proof using before_total before_trans.
  induction l as [|x t IH]; simpl; [constructor|].
  now apply insert_sorted_sorted.
Qed.

End SortFacts.

Section ListingFacts.

Import Py Tools.

Lemma str_leb_total (a b : str) : str_leb a b = false -> str_leb b a = true.
Proof.
  revert b; induction a as [|x a IH]; intros [|y b]; simpl; try easy.
  destruct (ord x <? ord y) eqn:E1; [discriminate|].
  destruct (ord y <? ord x) eqn:E2; [reflexivity|]. apply IH.
Qed.

Lemma ord_inj (x y : ascii) : ord x = ord y -> x = y.
Proof.
  unfold ord. intros H.
  rewrite <- (ascii_nat_embedding x), <- (ascii_nat_embedding y). now rewrite H.
Qed.

Lemma str_leb_trans (a b c : str) :
  str_leb a b = true -> str_leb b c = true -> str_leb a c = true.
Proof.
  revert b c; induction a as [|x a IH]; intros [|y b] [|z c]; simpl; try easy.
  destruct (ord x <? ord y) eqn:E1; destruct (ord y <? ord x) eqn:E2;
  destruct (ord y <? ord z) eqn:E3; destruct (ord z <? ord y) eqn:E4;
  destruct (ord x <? ord z) eqn:E5; destruct (ord z <? ord x) eqn:E6;
  try easy;
  repeat match goal with
         | H : (_ <? _) = true |- _ => apply Nat.ltb_lt in H
         | H : (_ <? _) = false |- _ => apply Nat.ltb_ge in H
         end; try lia.
  apply IH.
Qed.

Lemma size_before_total (a b : entry) :
  (size b <=? size a)%Z = false -> (size a <=? size b)%Z = true.
Proof. rewrite Z.leb_gt, Z.leb_le. lia. Qed.

Lemma size_before_trans (a b c : entry) :
  (size b <=? size a)%Z = true -> (size c <=? size b)%Z = true ->
  (size c <=? size a)%Z = true.
Proof. rewrite !Z.leb_le. lia. Qed.

Lemma count_where_filter (p : entry -> bool) (l : list entry) :
  count_where p l = length (List.filter p l).
Proof.
  unfold count_where.
  assert (forall acc, fold_left (fun acc e => if p e then acc + 1 else acc) l acc
                      = acc + length (List.filter p l)) as H.
  { induction l as [|e t IH]; intros acc; simpl; [lia|].
    destruct (p e); rewrite IH; simpl; lia. }
  apply H.
Qed.

Lemma size_where_filter (p : entry -> bool) (l : list entry) :
  size_where p l = fold_right Z.add 0%Z (map size (List.filter p l)).
Proof.
  unfold size_where.
  assert (forall acc,
            fold_left (fun acc e => if p e then (acc + size e)%Z else acc) l acc
            = (acc + fold_right Z.add 0 (map size (List.filter p l)))%Z) as H.
  { induction l as [|e t IH]; intros acc; simpl; [lia|].
    destruct (p e); rewrite IH; simpl; lia. }
  apply H.
Qed.

Lemma map_result_length {X Y : Type} (f : X -> result Y) (l : list X)
    (ys : list Y) :
  map_result f l = Ok ys -> length ys = length l.
Proof.
  revert ys; induction l as [|x t IH]; intros ys H; simpl in H.
  - now injection H as <-.
  - destruct (f x); simpl in H; [|discriminate].
    destruct (map_result f t) as [ys'|]; simpl in H; [|discriminate].
    injection H as <-. simpl. f_equal. now apply IH.
Qed.

Lemma filter_strongly_sorted {X : Type} (R : X -> X -> Prop) (p : X -> bool)
    (l : list X) :
  StronglySorted R l -> StronglySorted R (List.filter p l).
Proof.
  induction 1 as [|x t Hs IH Hall]; simpl; [constructor|].
  destruct (p x); [|exact IH]. constructor; [exact IH|].
  apply List.Forall_forall. intros y Hy. apply List.filter_In in Hy as [Hy _].
  rewrite List.Forall_forall in Hall. now apply Hall.
Qed.

Lemma error_is_not_content (e : exn) (text : str) :
  error_payload e <> content_payload text.
Proof. unfold error_payload, content_payload. intros H. discriminate H. Qed.

Lemma strongly_sorted_impl {X : Type} (R Q : X -> X -> Prop) (l : list X) :
  (forall a b, R a b -> Q a b) -> StronglySorted R l -> StronglySorted Q l.
Proof.
  intros HRQ. induction 1 as [|x t Hs IH Hall]; constructor; [exact IH|].
  eapply List.Forall_impl; [|exact Hall]. intros y. apply HRQ.
Qed.

Lemma sorted_entries_by_size stat isdir (valid_path : str) (names : list str) :
  StronglySorted size_descending
    (sorted_entries stat isdir valid_path (lit "size") names).
Proof.
  unfold sorted_entries.
  apply strongly_sorted_impl
    with (R := fun a b => entry_before (lit "size") a b = true).
  - intros a b. unfold entry_before, size_descending.
    rewrite bool_decide_eq_true_2 by reflexivity. apply Z.leb_le.
  - apply py_sort_sorted.
    + intros a b. unfold entry_before.
      rewrite bool_decide_eq_true_2 by reflexivity. apply size_before_total.
    + intros a b c. unfold entry_before.
      rewrite bool_decide_eq_true_2 by reflexivity. apply size_before_trans.
Qed.

Lemma sorted_entries_by_name stat isdir (valid_path sortBy : str)
    (names : list str) :
  sortBy <> lit "size" ->
  StronglySorted name_ascending (sorted_entries stat isdir valid_path sortBy names).
Proof.
  intros Hne. unfold sorted_entries.
  apply strongly_sorted_impl
    with (R := fun a b => entry_before sortBy a b = true).
  - intros a b. unfold entry_before, name_ascending.
    now rewrite bool_decide_eq_false_2 by exact Hne.
  - apply py_sort_sorted.
    + intros a b. unfold entry_before.
      rewrite bool_decide_eq_false_2 by exact Hne. apply str_leb_total.
    + intros a b c. unfold entry_before.
      rewrite bool_decide_eq_false_2 by exact Hne. apply str_leb_trans.
Qed.

End ListingFacts.

Section ListingTheorem.

Import Py Tools.

Variable env : environ.
Variable realpath : str -> result str.
Variable ALLOWED_DIR : str.
Variable format_2f : Z -> Z -> str.
Variable listdir : str -> result (list str).
Variable stat : str -> result stat_result.
Variable isdir : str -> bool.

(** C9.  A listing that succeeds shows the entries of the directory, each
    once, in the order asked: by size from the largest to the smallest
    when [sortBy] is [size], every entry ordered by the size [os.stat]
    gave for it, directory or not (so the files alone are in that order
    too), and by ascending name otherwise.  Its last lines give the
    number of entries listed that are files, the number that are
    directories, and the sum of the sizes of the files alone. *)
Theorem listing_sorted_and_totalled (parsed : ListDirectoryWithSizesArgs)
    (text : str) :
  list_directory_with_sizes env realpath ALLOWED_DIR format_2f listdir stat
    isdir (Ok parsed) = content_payload text ->
  exists valid_path names formatted combined,
    validate_path env realpath ALLOWED_DIR (ls_path parsed) = Ok valid_path
    /\ listdir valid_path = Ok names
    /\ let entries := sorted_entries stat isdir valid_path (ls_sortBy parsed) names in
       Permutation entries (map (entry_of stat isdir valid_path) names)
       /\ (ls_sortBy parsed = lit "size" ->
           StronglySorted size_descending entries
           /\ StronglySorted size_descending (List.filter is_file entries))
       /\ (ls_sortBy parsed <> lit "size" ->
           StronglySorted name_ascending entries)
       /\ map_result (format_entry format_2f) entries = Ok formatted
       /\ length formatted = length entries
       /\ format_size format_2f
            (fold_right Z.add 0%Z (map size (List.filter is_file entries)))
          = Ok combined
       /\ text = join [LF]
                   (formatted
                    ++ summary_lines (length (List.filter is_file entries))
                         (length (List.filter isDirectory entries)) combined).
Proof.
  unfold list_directory_with_sizes, list_directory_with_sizes_body.
  cbn [bind]. intros H.
  destruct (validate_path env realpath ALLOWED_DIR (ls_path parsed))
    as [valid_path|e] eqn:Hv; cbn [bind] in H;
    [|now apply error_is_not_content in H].
  destruct (listdir valid_path) as [names|e] eqn:Hl; cbn [bind] in H;
    [|now apply error_is_not_content in H].
  destruct (map_result (format_entry format_2f) _) as [formatted|e] eqn:Hf;
    cbn [bind] in H; [|now apply error_is_not_content in H].
  rewrite !count_where_filter, size_where_filter in H.
  destruct (format_size format_2f _) as [combined|e] eqn:Hc; cbn [bind] in H;
    [|now apply error_is_not_content in H].
  exists valid_path, names, formatted, combined.
  split; [reflexivity|]. split; [exact Hl|]. cbv zeta.
  split; [apply py_sort_perm|].
  split.
  { intros ->. split; [apply sorted_entries_by_size|].
    apply filter_strongly_sorted, sorted_entries_by_size. }
  split; [apply sorted_entries_by_name|].
  split; [exact Hf|]. split; [eapply map_result_length; exact Hf|].
  split; [exact Hc|].
  unfold content_payload in H. now injection H as <-.
Qed.

End ListingTheorem.

(** ** The path validator *)

Section ValidatorFacts.

Import Py PosixPath PathValidator.

Variable env : environ.
Variable realpath : str -> result str.

Hypothesis cwd_absolute : isabs (env_cwd env) = true.

Lemma contains_char (c : ascii) (s : str) : contains [c] s = true <-> In c s.
Proof.
  induction s as [|d s IH]; cbn [contains startswith In].
  - split; [discriminate | contradiction].
  - rewrite orb_true_iff, andb_true_r, IH, ascii_eqb_true.
    split; intros [H|H]; auto.
Qed.

Lemma isabs_cons (p : str) : isabs p = true <-> exists t, p = SLASH :: t.
Proof. unfold isabs, sep. rewrite startswith_prefix. reflexivity. Qed.

Lemma normpath_isabs (p : str) : isabs p = true -> isabs (normpath p) = true.
Proof.
  intros H. pose proof H as H0. apply isabs_cons in H as [t ->].
  unfold normpath. unfold isabs in H0. rewrite H0.
  destruct (startswith (repeat_str sep 2) (SLASH :: t)
            && negb (startswith (repeat_str sep 3) (SLASH :: t))); reflexivity.
Qed.

Lemma join_isabs (a b : str) : isabs a = true -> isabs (join a b) = true.
Proof.
  intros H. unfold join. destruct (startswith sep b) eqn:E; [exact E|].
  apply isabs_cons in H as [t ->].
  destruct (_ || _); reflexivity.
Qed.

Lemma normalize_path_isabs (p : str) : isabs (normalize_path env p) = true.
Proof using cwd_absolute.
  unfold normalize_path.
  match goal with |- context [negb (isabs ?q)] => destruct (isabs q) eqn:E end;
    cbn [negb]; [exact E|].
  unfold abspath. apply normpath_isabs.
  match goal with |- context [if isabs ?q then _ else _] =>
    assert (isabs q = true) as -> by (now apply join_isabs) end.
  now apply join_isabs.
Qed.

(** On a path that normalization leaves as it is, the containment test
    of the source decides [contained]. *)
Lemma within_decides (p allowed : str) :
  normalize_path env p = p ->
  exists b, is_path_within_allowed_directory env p allowed = Ok b
            /\ (b = true <-> contained (normalize_path env allowed) p).
Proof using cwd_absolute.
  intros Hp. unfold is_path_within_allowed_directory. rewrite Hp.
  assert (isabs p = true) as -> by (rewrite <- Hp; apply normalize_path_isabs).
  rewrite normalize_path_isabs. cbn [negb orb].
  unfold contained, under.
  destruct (contains [NUL] p) eqn:En.
  - exists false. split; [reflexivity|]. apply contains_char in En.
    split; [discriminate | intros [_ H]; contradiction].
  - assert (~ In NUL p) as Hn.
    { intros Hin. apply contains_char in Hin. congruence. }
    case_bool_decide as Heq.
    + exists true. split; [reflexivity|]. split; auto.
    + eexists. split; [reflexivity|]. rewrite startswith_prefix. split.
      * intros [t Ht]. split; [|exact Hn]. right. exists t.
        now rewrite Ht, <- app_assoc.
      * intros [[H|[t Ht]] _]; [contradiction|]. exists t.
        now rewrite Ht, <- app_assoc.
Qed.

Lemma denied_path_violation (a d : str) : SecurityViolation (denied_path a d).
Proof. left. eauto. Qed.

Lemma denied_symlink_violation (r : str) : SecurityViolation (denied_symlink r).
Proof. right. left. eauto. Qed.

(** C1, as the code has it.  Let [A] be the normalized form of the
    requested path and [R] that of the root, and let normalization leave
    [A] as it is.  If [A] is not contained in [R], the path is denied
    whatever it resolves to.  If [realpath] resolves [A] to [P], a path
    that normalization leaves as it is, then the validator returns [P]
    when both [A] and [P] are contained in [R], and denies the path with
    a SecurityViolation when either is not. *)
Theorem validate_iff_contained (requested allowed : str) :
  let A := normalize_path env requested in
  let R := normalize_path env allowed in
  normalize_path env A = A ->
  (~ contained R A ->
   validate_path env realpath requested allowed = Raise (denied_path A allowed))
  /\ (forall P,
        realpath A = Ok P ->
        normalize_path env P = P ->
        (contained R A /\ contained R P ->
         validate_path env realpath requested allowed = Ok P
         /\ under R P)
        /\ (~ (contained R A /\ contained R P) ->
            exists e, validate_path env realpath requested allowed = Raise e
                      /\ SecurityViolation e)).
Proof using cwd_absolute.
  intros A R HA.
  destruct (within_decides A allowed HA) as (bA & HwA & HbA).
  fold R in HbA.
  assert (forall P, realpath A = Ok P -> normalize_path env P = P ->
          forall bP, is_path_within_allowed_directory env P allowed = Ok bP ->
          validate_path env realpath requested allowed
          = if negb bA then Raise (denied_path A allowed)
            else if negb bP then Raise (denied_symlink P) else Ok P) as Hval.
  { intros P HP _ bP HwP. unfold validate_path. fold A. rewrite HwA.
    cbn [bind]. destruct bA; cbn [negb]; [|reflexivity].
    unfold validate_resolved. rewrite HP. cbn [bind]. rewrite HwP. cbn [bind].
    destruct bP; reflexivity. }
  split.
  - intros Hn. unfold validate_path. fold A. rewrite HwA. cbn [bind].
    destruct bA; [exfalso; apply Hn, HbA; reflexivity | reflexivity].
  - intros P HP HsP.
    destruct (within_decides P allowed HsP) as (bP & HwP & HbP). fold R in HbP.
    rewrite (Hval P HP HsP bP HwP). split.
    + intros [HcA HcP]. apply HbA in HcA. apply HbP in HcP. subst bA bP.
      split; [reflexivity|]. apply HbP. reflexivity.
    + intros Hn. destruct bA; cbn [negb].
      * destruct bP; cbn [negb].
        -- exfalso. apply Hn. split; [apply HbA | apply HbP]; reflexivity.
        -- eexists. split; [reflexivity | apply denied_symlink_violation].
      * eexists. split; [reflexivity | apply denied_path_violation].
Qed.

End ValidatorFacts.

(** ** The atomic writer and the shapes of the responses *)

Section WriterFacts.

Import Py EditEngine Tools.

Variable env : environ.
Variable realpath : str -> result str.
Variable ALLOWED_DIR : str.
Variable fault : bool.
Variable token : str.

Lemma temp_path_differs (p : str) : temp_path_of token p <> p.
Proof.
  unfold temp_path_of. intros H. apply (f_equal (@length ascii)) in H.
  rewrite !length_app in H. simpl in H. lia.
Qed.

Lemma missing_not_exists (st : store) (p : str) :
  file_exists_error (FileIO.missing st p) = false.
Proof. unfold FileIO.missing. now repeat case_match. Qed.

(** Renaming a regular file: it lands on the target and leaves its old
    name, or the call raises, not [FileExistsError], and changes
    nothing. *)
Lemma rename_file (st : store) (src dst c : str) :
  st !! src = Some (File c) ->
  (FileIO.rename st src dst = (Ok tt, <[dst := File c]> (delete src st)))
  \/ (exists e, FileIO.rename st src dst = (Raise e, st)
                /\ file_exists_error e = false).
Proof.
  intros Hs. unfold FileIO.rename. rewrite Hs.
  destruct (st !! dst) as [[c'|]|].
  - now left.
  - right. eexists. split; reflexivity.
  - destruct (FileIO.can_create st dst); [now left|].
    right. eexists. split; [reflexivity | apply missing_not_exists].
Qed.

Lemma unlink_quietly_absent (st : store) (p : str) :
  st !! p = None -> FileIO.unlink_quietly st p = st.
Proof. unfold FileIO.unlink_quietly, FileIO.unlink. now intros ->. Qed.

Lemma unlink_quietly_file (st : store) (p c : str) :
  st !! p = Some (File c) -> FileIO.unlink_quietly st p = delete p st.
Proof. unfold FileIO.unlink_quietly, FileIO.unlink. now intros ->. Qed.

(** A write that succeeds leaves the content at the target. *)
Lemma write_atomically_ok (st st' : store) (valid_path content : str) :
  write_atomically fault token st valid_path content = (Ok tt, st') ->
  st' !! valid_path = Some (File content).
Proof.
  unfold write_atomically.
  set (temp := temp_path_of token valid_path).
  assert (forall s : store,
            s !! temp = Some (File content) ->
            forall r s',
            FileIO.rename s temp valid_path = (r, s') ->
            (r = Ok tt /\ s' !! valid_path = Some (File content))
            \/ (exists e, r = Raise e /\ file_exists_error e = false)) as Hren.
  { intros s Hs r s' H. destruct (rename_file s temp valid_path content Hs)
      as [Hok | (e & He & Hne)]; rewrite H in *.
    - left. injection Hok as -> ->. split; [reflexivity|].
      apply lookup_insert_eq.
    - right. injection He as -> _. eauto. }
  unfold FileIO.write_exclusive, FileIO.write_truncate, FileIO.written.
  destruct (st !! temp) as [[c|]|] eqn:Et.
  - (* the temporary name is taken by a file *)
    rewrite Et. destruct fault; [discriminate|].
    destruct (FileIO.rename _ temp valid_path) as [r s'] eqn:Er.
    intros H. injection H as -> ->.
    destruct (Hren _ (lookup_insert_eq _ _ _) _ _ Er) as [[_ H]|(e & He & _)];
      [exact H | discriminate].
  - (* ... by a directory *)
    rewrite Et. discriminate.
  - destruct (FileIO.can_create st temp).
    + destruct fault; [discriminate|].
      destruct (FileIO.rename _ temp valid_path) as [r s'] eqn:Er.
      destruct (Hren _ (lookup_insert_eq _ _ _) _ _ Er) as [[-> H]|(e & -> & He)].
      * intros H'. now injection H' as <-.
      * destruct e; try discriminate.
    + pose proof (missing_not_exists st temp) as Hm.
      destruct (FileIO.missing st temp); try discriminate.
Qed.

(** With a fresh temporary name, nothing is left under it, whether the
    write succeeded or raised. *)
Lemma write_atomically_cleans (st st' : store) (valid_path content : str)
    (r : result unit) :
  st !! temp_path_of token valid_path = None ->
  write_atomically fault token st valid_path content = (r, st') ->
  st' !! temp_path_of token valid_path = None.
Proof.
  unfold write_atomically.
  set (temp := temp_path_of token valid_path).
  assert (temp <> valid_path) as Hne by apply temp_path_differs.
  intros Et. unfold FileIO.write_exclusive, FileIO.written. rewrite Et.
  destruct (FileIO.can_create st temp).
  - destruct fault.
    + simpl. intros H. injection H as _ <-.
      rewrite (unlink_quietly_file _ temp []) by apply lookup_insert_eq.
      apply lookup_delete_eq.
    + destruct (rename_file (<[temp := File content]> st) temp valid_path content
                  (lookup_insert_eq _ _ _)) as [Hok | (e & He & Hx)].
      * rewrite Hok. intros H. injection H as _ <-.
        rewrite lookup_insert_ne by congruence. apply lookup_delete_eq.
      * rewrite He. destruct e; try discriminate; intros H; injection H as _ <-;
          rewrite (unlink_quietly_file _ temp content) by apply lookup_insert_eq;
          apply lookup_delete_eq.
  - pose proof (missing_not_exists st temp) as Hm.
    destruct (FileIO.missing st temp); try discriminate;
      intros H; injection H as _ <-; now rewrite unlink_quietly_absent.
Qed.

Lemma message_is_not_error (m : str) (e : exn) :
  error_payload e <> message_payload m.
Proof. unfold error_payload, message_payload. intros H. discriminate H. Qed.

(** C6, as the code has it.  After a write that succeeded, a read of the
    same path returns the content as text mode reads it back: every
    carriage return, with or without a line feed after it, as a line
    feed; so a content without carriage return is read back as written.
    When the temporary name was free before the call, nothing is stored
    under it after the call, whether the write succeeded or failed. *)
Theorem write_then_read (st : store) (path content : str) :
  let written := write_file env realpath ALLOWED_DIR fault token st
                   (Ok {| wf_path := path; wf_content := content |}) in
  let read := read_file env realpath ALLOWED_DIR (snd written)
                (Ok {| rf_path := path; rf_tail := None; rf_head := None |}) in
  (is_message (fst written) ->
   read = content_payload (FileIO.universal_newlines content)
   /\ (~ In CR content -> read = content_payload content))
  /\ (forall valid_path,
        validate_path env realpath ALLOWED_DIR path = Ok valid_path ->
        st !! temp_path_of token valid_path = None ->
        snd written !! temp_path_of token valid_path = None).
Proof.
  cbv zeta. unfold write_file. cbn [wf_path wf_content]. split.
  - intros [msg H].
    destruct (validate_path env realpath ALLOWED_DIR path) as [vp|e] eqn:Hv;
      [|now apply message_is_not_error in H].
    destruct (write_atomically fault token st vp content) as [[[]|e] s] eqn:Hw;
      cbn [fst snd] in *; [|now apply message_is_not_error in H].
    apply write_atomically_ok in Hw.
    assert (read_file env realpath ALLOWED_DIR s
              (Ok {| rf_path := path; rf_tail := None; rf_head := None |})
            = content_payload (FileIO.universal_newlines content)) as Hread.
    { unfold read_file, read_file_body. cbn [bind rf_path rf_tail rf_head truthy andb].
      rewrite Hv. cbn [bind]. unfold FileIO.read_text. now rewrite Hw. }
    split; [exact Hread|]. intros Hcr. rewrite Hread.
    now rewrite universal_newlines_id.
  - intros vp Hv Ht. rewrite Hv.
    destruct (write_atomically fault token st vp content) as [r s] eqn:Hw.
    apply write_atomically_cleans in Hw; [|exact Ht].
    destruct r as [[]|e]; exact Hw.
Qed.

End WriterFacts.

Section ResponseFacts.

Import Py EditEngine Tools.

Variable env : environ.
Variable realpath : str -> result str.
Variable ALLOWED_DIR : str.
Variable unified_diff : list str -> list str -> str -> list str.
Variable format_2f : Z -> Z -> str.
Variable listdir : str -> result (list str).
Variable stat : str -> result stat_result.
Variable isdir : str -> bool.
Variable fault : bool.
Variable token : str.
Variable isoformat : Z -> result str.
Variable dumps_indent2 : json -> str.
Variable recursion_limit : nat.

Lemma error_payload_is_error (e : exn) : is_error (error_payload e).
Proof. now exists (str_of_exn e). Qed.

Lemma content_payload_is_content (c : str) : is_content (content_payload c).
Proof. now exists c. Qed.

Lemma message_payload_is_message (m : str) : is_message (message_payload m).
Proof. now exists m. Qed.

Lemma message_not_content (j : json) : is_message j -> ~ is_content j.
Proof. intros [m ->] [c H]. unfold message_payload, content_payload in H. discriminate H. Qed.

Lemma message_not_error (j : json) : is_message j -> ~ is_error j.
Proof. intros [m ->] [c H]. unfold message_payload in H. discriminate H. Qed.

Lemma content_not_error (j : json) : is_content j -> ~ is_error j.
Proof. intros [m ->] [c H]. unfold content_payload in H. discriminate H. Qed.

Create HintDb shapes.

Local Hint Resolve error_payload_is_error content_payload_is_content
  message_payload_is_message : shapes.

Local Hint Unfold content_or_error message_or_error : shapes.

(** The wrapper of the tools that change nothing: the body of the [try]
    returns a payload or raises, and what it raises becomes the error
    payload. *)
Lemma caught_body_shape (body : result json) :
  (forall j, body = Ok j -> content_or_error j) ->
  content_or_error (match body with Ok response => response
                                  | Raise e => error_payload e end).
Proof.
  intros H. destruct body as [j|e]; [now apply H | auto with shapes].
Qed.

(** The search tool raises at its call of [search_files], so it answers
    with an error payload whatever it is asked. *)
Lemma search_files_is_error (args : result SearchFilesArgs) :
  is_error (search_files env realpath ALLOWED_DIR args).
Proof.
  unfold search_files. destruct args as [parsed|e]; cbn [bind];
    [|auto with shapes].
  destruct (validate_path _ _ _ _); cbn [bind]; auto with shapes.
Qed.

(** C8, as the code has it.  Whatever the arguments, the store and the
    answers of the host, every tool returns one of three shapes: read,
    read_multiple, edit, list, list_with_sizes, tree, search, get_info
    and list_allowed_roots return a content payload or an error payload;
    write, create_directory and move return a message payload or an error
    payload.  Every exception raised inside a tool is turned into the
    error payload. *)
Theorem responses_have_three_shapes (st : store)
    (read_args : result ReadFileArgs)
    (read_multiple_args : result ReadMultipleFilesArgs)
    (write_args : result WriteFileArgs)
    (edit_args : result EditFileArgs)
    (create_args : result CreateDirectoryArgs)
    (list_args : result ListDirectoryArgs)
    (sizes_args : result ListDirectoryWithSizesArgs)
    (tree_args : result DirectoryTreeArgs)
    (move_args : result MoveFileArgs)
    (search_args : result SearchFilesArgs)
    (info_args : result GetFileInfoArgs) :
  content_or_error (read_file env realpath ALLOWED_DIR st read_args)
  /\ content_or_error
       (read_multiple_files env realpath ALLOWED_DIR st read_multiple_args)
  /\ message_or_error
       (fst (write_file env realpath ALLOWED_DIR fault token st write_args))
  /\ content_or_error
       (fst (edit_file env realpath ALLOWED_DIR unified_diff fault token st
               edit_args))
  /\ message_or_error
       (fst (create_directory env realpath ALLOWED_DIR recursion_limit st
               create_args))
  /\ content_or_error (list_directory env realpath ALLOWED_DIR listdir isdir
                         list_args)
  /\ content_or_error
       (list_directory_with_sizes env realpath ALLOWED_DIR format_2f listdir
          stat isdir sizes_args)
  /\ content_or_error
       (directory_tree env realpath ALLOWED_DIR listdir isdir dumps_indent2
          recursion_limit tree_args)
  /\ message_or_error (fst (move_file env realpath ALLOWED_DIR st move_args))
  /\ content_or_error (search_files env realpath ALLOWED_DIR search_args)
  /\ content_or_error
       (get_file_info env realpath ALLOWED_DIR stat isoformat info_args)
  /\ content_or_error (list_allowed_directories ALLOWED_DIR).
Proof.
  repeat split.
  - unfold read_file. destruct read_args as [parsed|e]; cbn [bind];
      [|auto with shapes].
    unfold read_file_body.
    destruct (truthy (rf_head parsed) && truthy (rf_tail parsed)).
    { right. eexists. reflexivity. }
    destruct (validate_path _ _ _ _); cbn [bind]; [|auto with shapes].
    match goal with |- context [bind ?c _] => destruct c end; cbn [bind];
      auto with shapes.
  - unfold read_multiple_files.
    destruct read_multiple_args; auto with shapes.
  - unfold write_file. destruct write_args as [parsed|e]; [|cbn; auto with shapes].
    destruct (validate_path _ _ _ _); [|cbn; auto with shapes].
    destruct (write_atomically _ _ _ _ _) as [[[]|e] s]; cbn [fst];
      auto with shapes.
  - unfold edit_file. destruct edit_args as [parsed|e]; [|cbn; auto with shapes].
    destruct (validate_path _ _ _ _); [|cbn; auto with shapes].
    destruct (apply_file_edits _ _ _ _ _ _ _) as [[r|e] s]; cbn [fst];
      auto with shapes.
  - unfold create_directory.
    destruct create_args as [parsed|e]; [|cbn; auto with shapes].
    destruct (validate_path _ _ _ _); [|cbn; auto with shapes].
    destruct (FileIO.makedirs _ _ _) as [[[]|e] s]; cbn [fst]; auto with shapes.
  - unfold list_directory. apply caught_body_shape. intros j.
    destruct list_args as [parsed|e]; cbn [bind]; [|discriminate].
    destruct (validate_path _ _ _ _); cbn [bind]; [|discriminate].
    destruct (listdir _); cbn [bind]; [|discriminate].
    intros H. injection H as <-. auto with shapes.
  - unfold list_directory_with_sizes. apply caught_body_shape. intros j.
    destruct sizes_args as [parsed|e]; cbn [bind]; [|discriminate].
    unfold list_directory_with_sizes_body.
    destruct (validate_path _ _ _ _); cbn [bind]; [|discriminate].
    destruct (listdir _); cbn [bind]; [|discriminate].
    destruct (map_result _ _); cbn [bind]; [|discriminate].
    destruct (format_size _ _); cbn [bind]; [|discriminate].
    intros H. injection H as <-. auto with shapes.
  - unfold directory_tree. apply caught_body_shape. intros j.
    destruct tree_args as [parsed|e]; cbn [bind]; [|discriminate].
    destruct (build_tree _ _ _ _ _ _ _); cbn [bind]; [|discriminate].
    intros H. injection H as <-. auto with shapes.
  - unfold move_file. destruct move_args as [parsed|e]; [|cbn; auto with shapes].
    destruct (validate_path _ _ _ (mv_source parsed)); cbn [bind fst];
      [|auto with shapes].
    destruct (validate_path _ _ _ (mv_destination parsed)); cbn [bind fst];
      [|auto with shapes].
    destruct (FileIO.rename _ _ _) as [[[]|e] s]; cbn [fst]; auto with shapes.
  - right. apply search_files_is_error.
  - unfold get_file_info. apply caught_body_shape. intros j.
    destruct info_args as [parsed|e]; cbn [bind]; [|discriminate].
    destruct (validate_path _ _ _ _); cbn [bind]; [|discriminate].
    destruct (get_file_stats _ _ _); cbn [bind]; [|discriminate].
    intros H. injection H as <-. auto with shapes.
  - unfold list_allowed_directories. auto with shapes.
Qed.

End ResponseFacts.

(** ** The reader of the last lines *)

Section TailFacts.

Import LineWindowReader.

Lemma tail_step_position (data : str) (num_lines : Z) (s s' : tail_state) :
  tail_step data num_lines s = Ok s' ->
  position s' = position s - Nat.min chunk_size (position s).
Proof.
  unfold tail_step. intros H.
  destruct (0 <? position s - Nat.min chunk_size (position s)).
  - destruct (index _ 0); cbn [bind] in H; [|discriminate].
    destruct (tail_collect _ _ _ _). now injection H as <-.
  - cbn [bind] in H. destruct (tail_collect _ _ _ _). now injection H as <-.
Qed.

(** The unrolled loop stops where the [while] of the source stops: the
    state returned fails the test of the loop. *)
Lemma tail_loop_exits (turns : nat) (data : str) (num_lines : Z)
    (s s' : tail_state) :
  position s <= turns ->
  tail_loop turns data num_lines s = Ok s' ->
  tail_continues num_lines s' = false.
Proof.
  revert s; induction turns as [|k IH]; intros s Hp H; simpl in H.
  - injection H as <-. unfold tail_continues.
    replace (position s) with 0 by lia. reflexivity.
  - destruct (tail_continues num_lines s) eqn:Hc.
    + destruct (tail_step data num_lines s) as [s1|] eqn:Hs; cbn [bind] in H;
        [|discriminate].
      apply (IH s1); [|exact H].
      rewrite (tail_step_position _ _ _ _ Hs).
      unfold tail_continues in Hc. apply andb_true_iff in Hc as [Hc _].
      apply Nat.ltb_lt in Hc. unfold chunk_size. lia.
    + now injection H as <-.
Qed.

End TailFacts.

(** ** [realpath] raises no [FileNotFoundError] *)

Section RealpathFacts.

Import Realpath.

Lemma joinrealpath_raises (depth : nat) (links : gmap (list ascii) (list ascii))
    (path : str) (comps : list str) (seen : gmap (list ascii) (option (list ascii)))
    (e : exn) :
  joinrealpath depth links path comps seen = Raise e -> e = RecursionError.
Proof.
  revert path comps seen.
  induction depth as [|d IHd]; intros path comps; revert path;
    induction comps as [|name rest IHc]; intros path seen H; cbn in H;
    try discriminate.
  - repeat case_match; try discriminate; eauto; congruence.
  - repeat case_match; try discriminate; eauto.
    all: unfold bind in H;
      match type of H with
      | match ?c with _ => _ end = _ =>
          destruct c as [[[p ok] seen2]|e'] eqn:E
      end;
      [destruct ok; cbn [negb] in H; [exact (IHc _ _ H) | discriminate]
      |injection H as <-; eapply IHd; exact E].
Qed.

(** The resolution never raises [FileNotFoundError]: the handler of
    [validate_path] for it is not entered, and the validator returns the
    resolved path or raises. *)
Lemma realpath_raises (depth : nat) (env : environ)
    (links : gmap (list ascii) (list ascii)) (filename : str) (e : exn) :
  realpath depth env links filename = Raise e -> e = RecursionError.
Proof.
  unfold realpath, bind.
  destruct (joinrealpath _ _ _ _ _) eqn:E; [discriminate|].
  intros H. injection H as <-. eapply joinrealpath_raises, E.
Qed.

Lemma validate_path_never_falls_back (depth : nat) (env : environ)
    (links : gmap (list ascii) (list ascii)) (requested allowed : str) :
  PathValidator.validate_path env (realpath depth env links) requested allowed
  = let absolute_path := PathValidator.normalize_path env requested in
    let* within :=
      PathValidator.is_path_within_allowed_directory env absolute_path allowed in
    if negb within then Raise (PathValidator.denied_path absolute_path allowed)
    else PathValidator.validate_resolved env (realpath depth env links)
           absolute_path allowed.
Proof.
  unfold PathValidator.validate_path. cbv zeta.
  destruct (PathValidator.is_path_within_allowed_directory _ _ _) as [[]|];
    cbn [bind negb]; try reflexivity.
  unfold PathValidator.validate_resolved.
  destruct (realpath depth env links _) as [rp|e] eqn:E; cbn [bind].
  - destruct (PathValidator.is_path_within_allowed_directory _ rp _)
      as [[]|e] eqn:W; cbn [bind negb]; try reflexivity.
    unfold PathValidator.is_path_within_allowed_directory in W.
    repeat case_match; try discriminate. now injection W as <-.
  - apply realpath_raises in E. now subst e.
Qed.

End RealpathFacts.

(** ** When the listing and the reader succeed *)

Section TotalityFacts.

Import Py Tools LineWindowReader.

Variable env : environ.
Variable realpath : str -> result str.
Variable ALLOWED_DIR : str.
Variable format_2f : Z -> Z -> str.
Variable listdir : str -> result (list str).
Variable stat : str -> result stat_result.
Variable isdir : str -> bool.

(** [format_size] has a unit for every size below 2^49; from there on
    the index of the unit is past the end of [units]. *)
Lemma format_size_ok (bytes : Z) :
  (0 <= bytes < 2 ^ 49)%Z -> exists text, format_size format_2f bytes = Ok text.
Proof.
  intros [Hlo Hhi]. unfold format_size.
  destruct (bytes =? 0)%Z eqn:E0; [eauto|]. apply Z.eqb_neq in E0.
  assert (Z.to_nat (bit_length bytes / 10) < 5) as Hi.
  { destruct bytes as [|p|p]; try lia. unfold bit_length.
    assert (Z.log2 (Z.pos p) < 49)%Z by (apply Z.log2_lt_pow2; lia).
    pose proof (Z.log2_nonneg (Z.pos p)).
    assert ((Z.log2 (Z.pos p) + 1) / 10 < 5)%Z
      by (apply Z.div_lt_upper_bound; lia).
    assert (0 <= (Z.log2 (Z.pos p) + 1) / 10)%Z
      by (apply Z.div_pos; lia).
    lia. }
  destruct (Z.to_nat (bit_length bytes / 10)) as [|[|[|[|[|i]]]]];
    cbn; eauto; lia.
Qed.

Lemma format_size_past_units (bytes : Z) :
  (2 ^ 49 <= bytes < 2 ^ 59)%Z -> format_size format_2f bytes = Raise IndexError.
Proof.
  intros [Hlo Hhi]. unfold format_size.
  destruct (bytes =? 0)%Z eqn:E0; [apply Z.eqb_eq in E0; lia|].
  assert (Z.to_nat (bit_length bytes / 10) = 5) as ->; [|reflexivity].
  destruct bytes as [|p|p]; try lia. unfold bit_length.
  assert (49 <= Z.log2 (Z.pos p))%Z by (apply Z.log2_le_pow2; lia).
  assert (Z.log2 (Z.pos p) < 59)%Z by (apply Z.log2_lt_pow2; lia).
  assert ((Z.log2 (Z.pos p) + 1) / 10 = 5)%Z as ->; [|reflexivity].
  symmetry. apply Z.div_unique with (r := (Z.log2 (Z.pos p) + 1 - 50)%Z); lia.
Qed.

Lemma map_result_ok {X Y : Type} (f : X -> result Y) (l : list X) :
  (forall x, In x l -> exists y, f x = Ok y) ->
  exists ys, map_result f l = Ok ys.
Proof.
  induction l as [|x t IH]; intros H; simpl; [eauto|].
  destruct (H x (or_introl eq_refl)) as [y ->].
  destruct IH as [ys ->]; [intros z Hz; apply H; now right|].
  cbn. eauto.
Qed.

Lemma files_total_bounds (l : list entry) :
  (forall e, In e l -> 0 <= size e)%Z ->
  (0 <= fold_right Z.add 0 (map size (List.filter is_file l))
   <= fold_right Z.add 0 (map size l))%Z
  /\ (forall e, In e l -> size e <= fold_right Z.add 0 (map size l))%Z.
Proof.
  induction l as [|x t IH]; intros H; simpl.
  - split; [lia | contradiction].
  - assert (0 <= size x)%Z as Hx by (apply H; now left).
    destruct IH as [IH1 IH2]; [intros e He; apply H; now right|].
    split.
    + destruct (is_file x); simpl; lia.
    + intros e [->|He]; [lia|]. specialize (IH2 e He). lia.
Qed.

Lemma total_size_perm (l l' : list entry) :
  Permutation l l' ->
  fold_right Z.add 0%Z (map size l) = fold_right Z.add 0%Z (map size l').
Proof. induction 1; simpl; lia. Qed.

(** A listing succeeds when the path is valid, the directory can be
    read, no size is negative and the sizes add up to less than 2^49. *)
Lemma listing_succeeds (parsed : ListDirectoryWithSizesArgs)
    (valid_path : str) (names : list str) :
  validate_path env realpath ALLOWED_DIR (ls_path parsed) = Ok valid_path ->
  listdir valid_path = Ok names ->
  (forall n, In n names -> 0 <= size (entry_of stat isdir valid_path n))%Z ->
  (fold_right Z.add 0 (map size (map (entry_of stat isdir valid_path) names))
   < 2 ^ 49)%Z ->
  is_content (list_directory_with_sizes env realpath ALLOWED_DIR format_2f
                listdir stat isdir (Ok parsed)).
Proof.
  intros Hv Hl Hnn Hsum.
  unfold list_directory_with_sizes, list_directory_with_sizes_body.
  cbn [bind]. rewrite Hv. cbn [bind]. rewrite Hl. cbn [bind].
  set (entries := sorted_entries stat isdir valid_path (ls_sortBy parsed) names).
  assert (Permutation entries (map (entry_of stat isdir valid_path) names))
    as Hperm by apply py_sort_perm.
  assert (forall e, In e entries -> 0 <= size e)%Z as Hpos.
  { intros e He. eapply Permutation_in in He; [|exact Hperm].
    apply in_map_iff in He as (n & <- & Hn). now apply Hnn. }
  rewrite <- (total_size_perm _ _ Hperm) in Hsum.
  destruct (files_total_bounds entries Hpos) as [Hfiles Hone].
  destruct (map_result_ok (format_entry format_2f) entries) as [formatted ->].
  { intros e He. unfold format_entry. destruct (isDirectory e); cbn; [eauto|].
    destruct (format_size_ok (size e)) as [text ->]; [|cbn; eauto].
    specialize (Hone e He). specialize (Hpos e He). lia. }
  cbn [bind]. rewrite size_where_filter.
  destruct (format_size_ok
              (fold_right Z.add 0%Z (map size (List.filter is_file entries))))
    as [combined ->]; [lia|].
  cbn [bind]. eexists. reflexivity.
Qed.





End TotalityFacts.

(** * Further properties of the server *)

(** ** The path validator *)

Section PathExtras.

Import Py PosixPath PathValidator.

Variable env : environ.
Variable realpath : str -> result str.

Lemma lstrip_by_all (f : ascii -> bool) (w : str) :
  Forall (fun c => f c = true) w -> lstrip_by f w = [].
Proof.
  induction 1 as [|c w Hc _ IH]; simpl; [reflexivity|]. now rewrite Hc.
Qed.

Lemma lstrip_by_app_all (f : ascii -> bool) (w s : str) :
  Forall (fun c => f c = true) w -> lstrip_by f (w ++ s) = lstrip_by f s.
Proof.
  induction 1 as [|c w Hc _ IH]; simpl; [reflexivity|]. now rewrite Hc.
Qed.

Lemma lstrip_by_app (f : ascii -> bool) (s w : str) :
  Forall (fun c => f c = true) w ->
  lstrip_by f (s ++ w) = match lstrip_by f s with
                         | [] => []
                         | _ :: _ => lstrip_by f s ++ w
                         end.
Proof.
  intros Hw. induction s as [|c s IH]; simpl.
  - now apply lstrip_by_all.
  - destruct (f c); [exact IH | reflexivity].
Qed.

Lemma rstrip_by_app_all (f : ascii -> bool) (s w : str) :
  Forall (fun c => f c = true) w -> rstrip_by f (s ++ w) = rstrip_by f s.
Proof.
  intros Hw. unfold rstrip_by. rewrite rev_app_distr.
  rewrite lstrip_by_app_all; [reflexivity|].
  apply List.Forall_forall. intros c Hc. apply in_rev in Hc.
  rewrite List.Forall_forall in Hw. now apply Hw.
Qed.

(** White space after a path is stripped before anything else is
    done. *)
Lemma strip_trailing_space (s w : str) :
  Forall (fun c => isspace c = true) w -> strip (s ++ w) = strip s.
Proof.
  intros Hw. unfold strip, strip_by. rewrite (lstrip_by_app _ _ _ Hw).
  destruct (lstrip_by isspace s) as [|c t] eqn:E.
  - reflexivity.
  - now apply rstrip_by_app_all.
Qed.

Lemma normalize_path_trailing_space (p w : str) :
  Forall (fun c => isspace c = true) w ->
  normalize_path env (p ++ w) = normalize_path env p.
Proof.
  intros Hw. unfold normalize_path. now rewrite (strip_trailing_space _ _ Hw).
Qed.

Lemma within_answers (p allowed : str) :
  isabs (env_cwd env) = true ->
  exists b, is_path_within_allowed_directory env p allowed = Ok b.
Proof.
  intros Hcwd. unfold is_path_within_allowed_directory.
  rewrite !normalize_path_isabs by exact Hcwd. cbn [negb orb].
  repeat case_match; eauto.
Qed.

(** [normalize_path] returns an absolute path, whatever it is given, so
    the containment test never raises its error [Paths must be
    absolute]: it always answers, and [validate_path] raises nothing but
    its three denials and what [os.path.realpath] raises. *)
Theorem containment_test_always_answers (p allowed : str) :
  isabs (env_cwd env) = true ->
  isabs (normalize_path env p) = true
  /\ (exists b, is_path_within_allowed_directory env p allowed = Ok b)
  /\ forall err,
       validate_path env realpath p allowed = Raise err ->
       SecurityViolation err
       \/ (exists q, realpath q = Raise err).
Proof.
  intros Hcwd. split; [now apply normalize_path_isabs|].
  split; [now apply within_answers|].
  intros err. unfold validate_path.
  destruct (within_answers (normalize_path env p) allowed Hcwd) as [b ->].
  cbn [bind]. destruct b; cbn [negb].
  2: { intros H. injection H as <-. left. left. eauto. }
  unfold validate_resolved.
  destruct (realpath (normalize_path env p)) as [P|e] eqn:HP; cbn [bind].
  - destruct (within_answers P allowed Hcwd) as [b ->]. cbn [bind].
    destruct b; cbn [negb]; [discriminate|].
    intros H. injection H as <-. left. right. left. eauto.
  - assert (forall e', validate_parent env realpath (normalize_path env p) allowed
                       = Raise e' ->
            SecurityViolation e' \/ (exists q, realpath q = Raise e')) as Hpar.
    { intros e'. unfold validate_parent.
      destruct (realpath (dirname (normalize_path env p))) as [rp|e2] eqn:Hrp;
        cbn [bind].
      - destruct (within_answers rp allowed Hcwd) as [b ->]. cbn [bind].
        destruct b; cbn [negb]; [discriminate|].
        intros H. injection H as <-. left. right. right. eauto.
      - intros H. injection H as <-. right. eauto. }
    destruct e; try (intros H; injection H as <-; right; eauto).
    apply Hpar.
Qed.

(** A request that starts with a tilde and a slash is taken from the root
    of the file system: the home directory is joined with a path that
    starts with a slash, and [os.path.join] then drops it. *)
Theorem tilde_slash_ignores_home (rest : str) :
  let p := lit "~/" ++ rest in
  strip_chars [SQUOTE; DQUOTE] (strip p) = p ->
  normalize_path env p = normpath (SLASH :: rest).
Proof.
  cbv zeta. intros Hs. unfold normalize_path. rewrite Hs.
  change (lit "~/" ++ rest) with (chr 126 :: SLASH :: rest).
  assert (startswith (lit "~/") (chr 126 :: SLASH :: rest) = true) as ->
    by (apply (startswith_app (lit "~/") rest)).
  cbn [orb skipn].
  assert (PosixPath.join (expanduser_tilde env) (SLASH :: rest) = SLASH :: rest)
    as ->.
  { unfold PosixPath.join.
    now rewrite (startswith_app sep rest : startswith sep (SLASH :: rest) = true). }
  rewrite (normpath_isabs (SLASH :: rest)); [reflexivity|].
  apply (startswith_app sep rest).
Qed.

(** The containment test strips the path it is given, so white space
    after the root is not seen: a request that normalizes to the root
    followed by white space, a sibling of the root, is validated when it
    resolves to itself. *)
Theorem sibling_after_space_is_validated (R w requested : str) :
  isabs (env_cwd env) = true ->
  normalize_path env R = R ->
  ~ In NUL R ->
  w <> [] ->
  Forall (fun c => isspace c = true) w ->
  normalize_path env requested = R ++ w ->
  realpath (R ++ w) = Ok (R ++ w) ->
  validate_path env realpath requested R = Ok (R ++ w)
  /\ ~ under R (R ++ w).
Proof.
  intros Hcwd HR Hnul Hne Hw Hreq Hreal.
  assert (is_path_within_allowed_directory env (R ++ w) R = Ok true) as Hin.
  { unfold is_path_within_allowed_directory.
    rewrite (normalize_path_trailing_space R w Hw), HR.
    assert (isabs R = true) as -> by (rewrite <- HR; now apply normalize_path_isabs).
    cbn [negb orb].
    destruct (contains [NUL] R) eqn:E.
    + apply contains_char in E. contradiction.
    + now rewrite bool_decide_eq_true_2. }
  split.
  - unfold validate_path, validate_resolved. rewrite Hreq, Hin. cbn [bind negb].
    rewrite Hreal. cbn [bind]. rewrite Hin. reflexivity.
  - intros [H|[rest H]].
    + apply (f_equal (@length ascii)) in H. rewrite length_app in H.
      destruct w; [contradiction | simpl in H; lia].
    + apply app_inv_head in H. destruct w as [|c w]; [contradiction|].
      injection H as -> _. inversion Hw as [|? ? Hc _]. discriminate Hc.
Qed.

End PathExtras.

(** ** Line endings and the edit engine *)

Section EditExtras.

Import Py EditEngine.

Variable unified_diff : list str -> list str -> str -> list str.
Variable fault : bool.
Variable token : str.

Lemma CR_is_linebreak : is_linebreak CR = true.
Proof. reflexivity. Qed.

Lemma LF_is_linebreak : is_linebreak LF = true.
Proof. reflexivity. Qed.

Lemma universal_newlines_no_cr (s : str) : ~ In CR (FileIO.universal_newlines s).
Proof.
  assert (forall n s, length s <= n -> ~ In CR (FileIO.universal_newlines s)) as H.
  { intros n; induction n as [|n IH]; intros [|c t] Hn; simpl in *;
      try (intros []; fail); try lia.
    destruct (Ascii.eqb c CR) eqn:E.
    - intros [Hc|Hin]; [discriminate Hc|].
      destruct t as [|d t']; [contradiction|].
      destruct (Ascii.eqb d LF); revert Hin; apply IH; simpl in *; lia.
    - intros [Hc|Hin].
      + subst c. now rewrite Ascii.eqb_refl in E.
      + revert Hin. apply IH. lia. }
  now apply (H (length s)).
Qed.

Lemma normalize_line_endings_id (s : str) :
  ~ In CR s -> normalize_line_endings s = s.
Proof.
  induction s as [|c t IH]; simpl; [reflexivity|]. intros H.
  destruct (Ascii.eqb c CR) eqn:E.
  - apply Ascii.eqb_eq in E. exfalso. apply H. now left.
  - f_equal. apply IH. intros Hin. apply H. now right.
Qed.

Lemma read_text_no_cr (st : store) (file_path text : str) :
  FileIO.read_text st file_path = Ok text -> ~ In CR text.
Proof.
  unfold FileIO.read_text. intros H.
  destruct (st !! file_path) as [[c|]|]; try discriminate.
  injection H as <-. apply universal_newlines_no_cr.
Qed.

(** What an edit reads holds no carriage return: the text mode has read
    each as a line feed.  [normalize_line_endings] finds nothing to
    change in it, and the edits are applied to the text as read. *)
Theorem edit_reads_no_carriage_return (st : store) (file_path text : str)
    (edits : list EditOperation) (dry_run : bool) :
  FileIO.read_text st file_path = Ok text ->
  ~ In CR text
  /\ normalize_line_endings text = text
  /\ (forall err,
        apply_edits text edits = Raise err ->
        apply_file_edits unified_diff fault token st file_path edits dry_run
        = (Raise err, st)).
Proof.
  intros H. pose proof (read_text_no_cr _ _ _ H) as Hcr.
  pose proof (normalize_line_endings_id _ Hcr) as Hn.
  repeat split; auto.
  intros err He. unfold apply_file_edits. now rewrite H, Hn, He.
Qed.

Lemma splitlines_break_free (s : str) :
  forall l, In l (splitlines s) -> break_free l.
Proof.
  assert (forall n s, length s <= n ->
          forall l, In l (splitlines s) -> break_free l) as H.
  { intros n; induction n as [|n IH]; intros [|c t] Hn l Hl; simpl in *;
      try contradiction; try lia.
    destruct (Ascii.eqb c CR) eqn:Ec.
    - destruct t as [|d t'].
      + destruct Hl as [<-|[]]. intros x [].
      + destruct (Ascii.eqb d LF); destruct Hl as [<-|Hl];
          try (intros x []); revert Hl; apply IH; simpl in *; lia.
    - destruct (is_linebreak c) eqn:Eb.
      + destruct Hl as [<-|Hl]; [intros x []|]. revert Hl. apply IH. lia.
      + assert (forall l', In l' (splitlines t) -> break_free l') as IHt
          by (intros l'; apply IH; lia).
        destruct (splitlines t) as [|l0 ls] eqn:Et.
        * destruct Hl as [<-|[]]. intros x [<-|[]]. exact Eb.
        * destruct Hl as [<-|Hl].
          -- intros x [<-|Hx]; [exact Eb|]. apply (IHt l0); [now left | exact Hx].
          -- apply IHt. now right. }
  intros l. now apply (H (length s)).
Qed.

Lemma split_go_chars (sep s : str) (skip : nat) (cur : str) :
  forall piece, In piece (split_go sep s skip cur) ->
  forall c, In c piece -> In c s \/ In c cur.
Proof.
  revert skip cur; induction s as [|a t IH]; intros skip cur piece Hp c Hc;
    simpl in Hp.
  - destruct Hp as [<-|[]]. right. now apply in_rev.
  - destruct skip as [|k].
    + destruct (startswith sep (a :: t)).
      * destruct Hp as [<-|Hp]; [right; now apply in_rev|].
        destruct (IH _ _ _ Hp c Hc) as [H|[]]. left. now right.
      * destruct (IH _ _ _ Hp c Hc) as [H|[<-|H]].
        -- left. now right.
        -- left. now left.
        -- now right.
    + destruct (IH _ _ _ Hp c Hc) as [H|H]; [left; now right | now right].
Qed.

Lemma lstrip_by_in (f : ascii -> bool) (s : str) (c : ascii) :
  In c (lstrip_by f s) -> In c s.
Proof.
  induction s as [|a t IH]; simpl; [trivial|].
  destruct (f a); [right; now apply IH | trivial].
Qed.

Lemma join_chars (sep : str) (parts : list str) (c : ascii) :
  In c (join sep parts) -> In c sep \/ exists p, In p parts /\ In c p.
Proof.
  induction parts as [|p rest IH]; simpl; [contradiction|].
  destruct rest as [|q rest'].
  - intros H. right. exists p. auto.
  - intros H. apply in_app_or in H as [H|H]; [right; exists p; auto|].
    apply in_app_or in H as [H|H]; [now left|].
    destruct (IH H) as [H'|(p' & Hp' & Hc)]; [now left|].
    right. exists p'. split; [now right | exact Hc].
Qed.

Lemma index_in {X : Type} (l : list X) (i : nat) (x : X) :
  index l i = Ok x -> In x l.
Proof.
  unfold index. destruct (nth_error l i) eqn:E; [|discriminate].
  intros H. injection H as <-. eapply nth_error_In, E.
Qed.

Lemma in_firstn' {X : Type} (n : nat) (l : list X) (x : X) :
  In x (firstn n l) -> In x l.
Proof.
  revert l; induction n as [|n IH]; intros [|a l]; simpl; try tauto.
  intros [H|H]; [now left | right; now apply IH].
Qed.

Lemma in_skipn' {X : Type} (n : nat) (l : list X) (x : X) :
  In x (skipn n l) -> In x l.
Proof.
  revert l; induction n as [|n IH]; intros [|a l]; simpl; try tauto.
  intros H. right. now apply IH.
Qed.

(** The shape of a successful edit: the first window that matches is
    replaced, and the lines before and after it are kept. *)
Lemma apply_edit_shape (content : str) (e : EditOperation) (r : str) :
  apply_edit content e = Ok r ->
  exists i line old0 pieces indent new0,
    find_window (old_lines_of e) (splitlines content) = Some i
    /\ index (splitlines content) i = Ok line
    /\ index (old_lines_of e) 0 = Ok old0
    /\ py_split line (strip old0) = Ok pieces
    /\ index pieces 0 = Ok indent
    /\ index (splitlines (normalize_line_endings (newText e))) 0 = Ok new0
    /\ r = join [LF]
             (firstn i (splitlines content)
              ++ ((indent ++ lstrip new0)
                  :: tl (splitlines (normalize_line_endings (newText e))))
              ++ skipn (i + length (old_lines_of e)) (splitlines content)).
Proof.
  unfold apply_edit, old_lines_of. intros H.
  destruct (find_window _ _) as [i|]; [|discriminate].
  destruct (index (splitlines content) i) as [line|] eqn:E1; cbn [bind] in H;
    [|discriminate].
  destruct (index (splitlines (normalize_line_endings (oldText e))) 0)
    as [old0|] eqn:E2; cbn [bind] in H; [|discriminate].
  destruct (py_split line (strip old0)) as [pieces|] eqn:E3; cbn [bind] in H;
    [|discriminate].
  destruct (index pieces 0) as [indent|] eqn:E4; cbn [bind] in H; [|discriminate].
  destruct (index (splitlines (normalize_line_endings (newText e))) 0)
    as [new0|] eqn:E5; cbn [bind] in H; [|discriminate].
  injection H as <-. exists i, line, old0, pieces, indent, new0.
  repeat split; auto.
Qed.

Lemma find_seq_first (f : nat -> bool) (n a i : nat) :
  List.find f (seq a n) = Some i ->
  forall j, a <= j < i -> f j = false.
Proof.
  revert a; induction n as [|n IH]; intros a; simpl; [discriminate|].
  destruct (f a) eqn:E.
  - intros H. injection H as <-. intros j Hj. lia.
  - intros H j Hj. destruct (Nat.eq_dec j a) as [->|Hne]; [exact E|].
    apply (IH (S a) H). lia.
Qed.

Lemma find_window_is_first (old_lines content_lines : list str) (i : nat) :
  find_window old_lines content_lines = Some i ->
  forall j, j < i -> window_matches old_lines content_lines j = false.
Proof.
  unfold find_window, window_range. intros H j Hj.
  apply (find_seq_first _ _ _ _ H). lia.
Qed.

Lemma apply_edit_only_line_feeds (content : str) (e : EditOperation) (r : str) :
  apply_edit content e = Ok r ->
  forall c, In c r -> is_linebreak c = true -> c = LF.
Proof.
  intros H c Hc Hb.
  destruct (apply_edit_shape _ _ _ H)
    as (i & line & old0 & pieces & indent & new0 & Hf & Hl & _ & Hp & Hi & Hn & ->).
  apply join_chars in Hc as [[<-|[]]|(l & Hl' & Hcl)]; [reflexivity|].
  exfalso.
  assert (break_free line) as Hline
    by (eapply splitlines_break_free, index_in, Hl).
  assert (break_free l) as Hfree; [|rewrite (Hfree c Hcl) in Hb; discriminate].
  apply in_app_or in Hl' as [Hl'|Hl'].
  { eapply splitlines_break_free, in_firstn', Hl'. }
  apply in_app_or in Hl' as [Hl'|Hl'].
  2: { eapply splitlines_break_free, in_skipn', Hl'. }
  destruct Hl' as [<-|Hl'].
  - intros x Hx. apply in_app_or in Hx as [Hx|Hx].
    + unfold py_split in Hp. destruct (strip old0); [discriminate|].
      injection Hp as <-. apply index_in in Hi.
      destruct (split_go_chars _ _ _ _ _ Hi x Hx) as [Hx'|Hx'];
        [now apply Hline | destruct Hx'].
    + apply lstrip_by_in in Hx.
      eapply splitlines_break_free; [eapply index_in, Hn | exact Hx].
  - apply (splitlines_break_free (normalize_line_endings (newText e))).
    destruct (splitlines (normalize_line_endings (newText e)));
      [destruct Hl' | right; exact Hl'].
Qed.

Lemma apply_edits_only_line_feeds (content : str)
    (edits : list EditOperation) (r : str) :
  edits <> [] ->
  apply_edits content edits = Ok r ->
  forall c, In c r -> is_linebreak c = true -> c = LF.
Proof.
  revert content; induction edits as [|e rest IH]; intros content Hne H;
    [contradiction|].
  simpl in H. destruct (apply_edit content e) as [c'|] eqn:E; cbn [bind] in H;
    [|discriminate].
  destruct rest as [|e' rest'].
  - simpl in H. injection H as <-. eapply apply_edit_only_line_feeds, E.
  - apply (IH c'); [discriminate | exact H].
Qed.

(** An edit whose old text has no line (the empty string) raises
    [IndexError] whatever the content, and so does an edit whose new text
    has no line once a window has matched on a first old line that is not
    blank: text cannot be deleted by an empty replacement. *)
Theorem empty_texts_raise_index_error (content : str) (e : EditOperation) :
  (old_lines_of e = [] -> apply_edit content e = Raise IndexError)
  /\ (forall i old0 rest,
        splitlines (normalize_line_endings (newText e)) = [] ->
        old_lines_of e = old0 :: rest ->
        strip old0 <> [] ->
        find_window (old_lines_of e) (splitlines content) = Some i ->
        apply_edit content e = Raise IndexError).
Proof.
  split.
  - intros Hold. unfold apply_edit. unfold old_lines_of in Hold. rewrite Hold.
    assert (find_window [] (splitlines content) = Some 0) as ->.
    { unfold find_window, window_range. simpl length.
      destruct (Z.to_nat _) eqn:En; [lia|]. reflexivity. }
    unfold index. destruct (nth_error (splitlines content) 0); reflexivity.
  - intros i old0 rest Hnew Hold Hne Hfind.
    pose proof (find_window_in_range _ _ _ Hfind) as [_ Hlen].
    unfold apply_edit. unfold old_lines_of in *. rewrite Hfind, Hold, Hnew.
    rewrite Hold in Hlen. simpl in Hlen.
    unfold index at 1.
    destruct (nth_error (splitlines content) i) as [line|] eqn:Hnth;
      [|apply nth_error_None in Hnth; lia].
    cbn [bind index nth_error]. unfold py_split.
    destruct (strip old0) eqn:Es; [contradiction|].
    cbn [bind]. unfold index.
    destruct (split_go _ _ _ _) eqn:Eg; reflexivity.
Qed.


Lemma lstrip_by_decomp (f : ascii -> bool) (s : str) :
  exists lead, Forall (fun c => f c = true) lead /\ s = lead ++ lstrip_by f s.
Proof.
  induction s as [|c t (lead & Hl & IH)]; simpl.
  - exists []. split; [constructor | reflexivity].
  - destruct (f c) eqn:E.
    + exists (c :: lead). split; [now constructor | simpl; now f_equal].
    + exists []. split; [constructor | reflexivity].
Qed.

Lemma lstrip_by_head (f : ascii -> bool) (s : str) (c : ascii) (t : str) :
  lstrip_by f s = c :: t -> f c = false.
Proof.
  induction s as [|a s IH]; simpl; [discriminate|].
  destruct (f a) eqn:E; [exact IH|]. intros H. injection H as <- _. exact E.
Qed.

Lemma rstrip_by_decomp (f : ascii -> bool) (s : str) :
  exists trail, s = rstrip_by f s ++ trail.
Proof.
  unfold rstrip_by. destruct (lstrip_by_decomp f (rev s)) as (lead & _ & H).
  exists (rev lead). rewrite <- rev_app_distr, <- H. now rewrite rev_involutive.
Qed.

(** A line that is not blank is its leading white space, its stripped
    text, which starts with a character that is no white space, and the
    rest. *)
Lemma strip_decomp (s : str) (c : ascii) (t : str) :
  strip s = c :: t ->
  exists lead trail,
    Forall (fun x => isspace x = true) lead
    /\ s = lead ++ c :: t ++ trail /\ isspace c = false.
Proof.
  unfold strip, strip_by. intros H.
  destruct (lstrip_by_decomp isspace s) as (lead & Hl & Hs).
  destruct (rstrip_by_decomp isspace (lstrip_by isspace s)) as (trail & Hu).
  rewrite H in Hu. exists lead, trail. split; [exact Hl|].
  split; [now rewrite Hu in Hs|].
  eapply lstrip_by_head. exact Hu.
Qed.

Lemma split_go_indent (c : ascii) (t lead trail cur : str) :
  isspace c = false ->
  Forall (fun x => isspace x = true) lead ->
  exists rest,
    split_go (c :: t) (lead ++ c :: t ++ trail) 0 cur
    = (rev cur ++ lead) :: rest.
Proof.
  intros Hc Hl. revert cur. induction Hl as [|a l Ha _ IH]; intros cur.
  - cbn [app]. rewrite app_nil_r.
    cbn [split_go].
    rewrite (startswith_app (c :: t) trail : startswith (c :: t) (c :: t ++ trail) = true).
    eauto.
  - cbn [app split_go startswith].
    assert (Ascii.eqb c a = false) as ->.
    { apply Ascii.eqb_neq. intros ->. congruence. }
    cbn [andb]. destruct (IH (a :: cur)) as (rest & ->).
    exists rest. cbn [rev]. now rewrite <- app_assoc.
Qed.

Lemma skipn_nth_error {X : Type} (l : list X) (i : nat) (x : X) :
  nth_error l i = Some x -> skipn i l = x :: skipn (S i) l.
Proof.
  revert l; induction i as [|i IH]; intros [|a l]; simpl; try discriminate.
  - intros H. now injection H as <-.
  - intros H. now apply IH.
Qed.

(** In a window that matches, the first old line and the first line of
    the window are equal once stripped. *)
Lemma window_first_line (old0 line : str) (olds content_lines : list str)
    (i : nat) :
  window_matches (old0 :: olds) content_lines i = true ->
  index content_lines i = Ok line ->
  strip old0 = strip line.
Proof.
  unfold window_matches, slice, index. intros Hm Hi.
  destruct (nth_error content_lines i) as [x|] eqn:E; [|discriminate].
  injection Hi as ->. rewrite (skipn_nth_error _ _ _ E) in Hm.
  replace (i + length (old0 :: olds) - i) with (S (length olds)) in Hm
    by (simpl; lia).
  cbn [firstn all_trimmed_equal] in Hm.
  apply andb_true_iff in Hm as [Hm _]. now apply bool_decide_eq_true in Hm.
Qed.

(** What one edit does.  It replaces the first window that matches, the
    one with the lowest index: no window before it matches, and the lines
    before and after it are kept as they are.  The first line it inserts
    carries the indentation of the line of the file where the window
    starts, its leading white space, followed by the first new line
    without its own leading white space; the other new lines are inserted
    as given. *)
Theorem edit_replaces_first_window (content : str) (e : EditOperation)
    (r : str) :
  apply_edit content e = Ok r ->
  exists i line lead new0,
    find_window (old_lines_of e) (splitlines content) = Some i
    /\ (forall j, j < i ->
        window_matches (old_lines_of e) (splitlines content) j = false)
    /\ i + length (old_lines_of e) <= length (splitlines content)
    /\ index (splitlines content) i = Ok line
    /\ index (splitlines (normalize_line_endings (newText e))) 0 = Ok new0
    /\ Forall (fun x => isspace x = true) lead
    /\ line = lead ++ lstrip line
    /\ r = join [LF]
             (firstn i (splitlines content)
              ++ ((lead ++ lstrip new0)
                  :: tl (splitlines (normalize_line_endings (newText e))))
              ++ skipn (i + length (old_lines_of e)) (splitlines content)).
Proof.
  intros H.
  destruct (apply_edit_shape _ _ _ H)
    as (i & line & old0 & pieces & indent & new0
        & Hf & Hl & Ho & Hp & Hi & Hn & Hr).
  destruct (find_window_in_range _ _ _ Hf) as [Hm Hlen].
  pose proof (find_window_is_first _ _ _ Hf) as Hfirst.
  destruct (old_lines_of e) as [|o olds] eqn:Eo; [discriminate Ho|].
  injection Ho as ->.
  pose proof (window_first_line _ _ _ _ _ Hm Hl) as Hs.
  unfold py_split in Hp.
  destruct (strip old0) as [|c t] eqn:Es; [discriminate|]. injection Hp as <-.
  symmetry in Hs.
  destruct (strip_decomp _ _ _ Hs) as (lead & trail & Hlead & Hline & Hc).
  destruct (split_go_indent c t lead trail [] Hc Hlead) as (rest & Hgo).
  rewrite <- Hline in Hgo. rewrite Hgo in Hi. injection Hi as <-.
  exists i, line, lead, new0. repeat split; auto.
  rewrite Hline at 2. unfold lstrip.
  rewrite (lstrip_by_app_all isspace lead _ Hlead).
  cbn [app lstrip_by]. rewrite Hc. exact Hline.
Qed.

Lemma persist_all_or_nothing (st : store) (file_path modified_content : str) :
  st !! temp_path_of token file_path = None ->
  persist fault token st file_path modified_content
  = (Ok tt, <[file_path := File modified_content]> st)
  \/ exists err,
       persist fault token st file_path modified_content = (Raise err, st).
Proof.
  intros Ht. unfold persist. set (temp := temp_path_of token file_path) in *.
  unfold FileIO.write_truncate, FileIO.written. rewrite Ht.
  destruct (FileIO.can_create st temp).
  - destruct fault.
    + right. eexists. f_equal.
      rewrite (unlink_quietly_file _ temp []) by apply lookup_insert_eq.
      now apply delete_insert_id.
    + destruct (rename_file (<[temp := File modified_content]> st) temp
                  file_path modified_content (lookup_insert_eq _ _ _))
        as [-> | (err & -> & _)].
      * left. f_equal. f_equal. now apply delete_insert_id.
      * right. exists err. f_equal.
        rewrite (unlink_quietly_file _ temp modified_content)
          by apply lookup_insert_eq.
        now apply delete_insert_id.
  - right. eexists. f_equal. now apply unlink_quietly_absent.
Qed.

Lemma apply_file_edits_cases (st : store) (file_path : str)
    (edits : list EditOperation) :
  st !! temp_path_of token file_path = None ->
  (exists text modified_content,
     FileIO.read_text st file_path = Ok text
     /\ apply_edits text edits = Ok modified_content
     /\ apply_file_edits unified_diff fault token st file_path edits false
        = (Ok (format_diff
                 (create_unified_diff unified_diff text modified_content
                    file_path)),
           <[file_path := File modified_content]> st))
  \/ (exists err,
        apply_file_edits unified_diff fault token st file_path edits false
        = (Raise err, st)).
Proof.
  intros Ht. unfold apply_file_edits.
  destruct (FileIO.read_text st file_path) as [text|err] eqn:Hr; [|right; eauto].
  rewrite (normalize_line_endings_id _ (read_text_no_cr _ _ _ Hr)).
  destruct (apply_edits text edits) as [m|err] eqn:He; [|right; eauto].
  cbn [negb].
  destruct (persist_all_or_nothing st file_path m Ht) as [-> | (err & ->)].
  - left. exists text, m. auto.
  - right. eauto.
Qed.

(** An edit is all or nothing.  When the temporary name is free, a call
    without [dry_run] either returns the fenced diff and leaves the store
    as it was but for the file, which holds the content after the last
    edit, or it raises and leaves the store as it was, whatever failed:
    the read, an edit, the write of the temporary file or the rename. *)
Theorem edit_is_all_or_nothing (st st' : store) (file_path : str)
    (edits : list EditOperation) (r : result str) :
  st !! temp_path_of token file_path = None ->
  apply_file_edits unified_diff fault token st file_path edits false = (r, st') ->
  (exists text modified_content,
     FileIO.read_text st file_path = Ok text
     /\ apply_edits text edits = Ok modified_content
     /\ r = Ok (format_diff
                 (create_unified_diff unified_diff text modified_content
                    file_path))
     /\ st' = <[file_path := File modified_content]> st)
  \/ (exists err, r = Raise err /\ st' = st).
Proof.
  intros Ht H.
  destruct (apply_file_edits_cases st file_path edits Ht)
    as [(text & m & Hr & He & Hrun) | (err & Hrun)];
    rewrite Hrun in H; injection H as <- <-.
  - left. exists text, m. auto.
  - right. eauto.
Qed.

(** After an edit that succeeded and changed the file, the only
    character of the file that ends a line is the line feed: every other
    line boundary (a form feed, a vertical tab, a separator) has become a
    line feed. *)
Theorem edited_file_has_only_line_feeds (st st' : store)
    (file_path diff : str) (edits : list EditOperation) :
  edits <> [] ->
  st !! temp_path_of token file_path = None ->
  apply_file_edits unified_diff fault token st file_path edits false
  = (Ok diff, st') ->
  exists modified_content,
    st' !! file_path = Some (File modified_content)
    /\ forall c, In c modified_content -> is_linebreak c = true -> c = LF.
Proof.
  intros Hne Ht H.
  destruct (apply_file_edits_cases st file_path edits Ht)
    as [(text & m & Hr & He & Hrun) | (err & Hrun)];
    rewrite Hrun in H; [|discriminate].
  injection H as _ <-. exists m. split; [apply lookup_insert_eq|].
  now apply (apply_edits_only_line_feeds text edits).
Qed.

(** A dry run previews the edit: it leaves the store as it was, the
    diff that a call without [dry_run] returns is the diff the dry run
    returns, and an error of the dry run is the error of the call
    without [dry_run], which then leaves the store as it was. *)
Theorem dry_run_previews_the_edit (st : store) (file_path : str)
    (edits : list EditOperation) :
  let dry := apply_file_edits unified_diff fault token st file_path edits true in
  let real := apply_file_edits unified_diff fault token st file_path edits false in
  snd dry = st
  /\ (forall diff, fst real = Ok diff -> fst dry = Ok diff)
  /\ (forall err, fst dry = Raise err -> real = (Raise err, st)).
Proof.
  cbv zeta. unfold apply_file_edits.
  destruct (FileIO.read_text st file_path) as [text|err]; cbn [fst snd].
  2: { repeat split; [discriminate | now intros ? [= ->]]. }
  destruct (apply_edits _ edits) as [m|err]; cbn [fst snd negb].
  2: { repeat split; [discriminate | now intros ? [= ->]]. }
  repeat split; [|discriminate].
  intros diff. destruct (persist fault token st file_path m) as [[[]|err] st'];
    cbn [fst]; [trivial | discriminate].
Qed.

(** After an edit that succeeded, a read of the file returns the content
    after the last edit, character for character. *)
Theorem edit_then_read (st st' : store) (file_path diff : str)
    (edits : list EditOperation) :
  st !! temp_path_of token file_path = None ->
  apply_file_edits unified_diff fault token st file_path edits false
  = (Ok diff, st') ->
  exists text modified_content,
    FileIO.read_text st file_path = Ok text
    /\ apply_edits text edits = Ok modified_content
    /\ FileIO.read_text st' file_path = Ok modified_content.
Proof.
  intros Ht H.
  destruct (apply_file_edits_cases st file_path edits Ht)
    as [(text & m & Hr & He & Hrun) | (err & Hrun)];
    rewrite Hrun in H; [|discriminate].
  injection H as _ <-. exists text, m. repeat split; auto.
  unfold FileIO.read_text. rewrite lookup_insert_eq. f_equal.
  apply universal_newlines_id.
  destruct edits as [|e rest].
  - injection He as <-. now apply (read_text_no_cr _ _ _ Hr).
  - intros Hcr.
    assert (CR = LF) as Habs; [|discriminate Habs].
    now apply (apply_edits_only_line_feeds text (e :: rest) m).
Qed.

End EditExtras.

(** ** The writer *)

Section WriterExtras.

Import Py EditEngine Tools.

Variable env : environ.
Variable realpath : str -> result str.
Variable ALLOWED_DIR : str.
Variable fault : bool.
Variable token : str.

Lemma lstrip_by_length (f : ascii -> bool) (s : str) :
  length (lstrip_by f s) <= length s.
Proof.
  induction s as [|c t IH]; simpl; [lia|]. destruct (f c); simpl; lia.
Qed.

Lemma dirname_length (p : str) : length (PosixPath.dirname p) <= length p.
Proof.
  unfold PosixPath.dirname, PosixPath.split. cbn [fst].
  assert (length (firstn (rfind_succ SLASH p) p) <= length p) as H
    by (rewrite length_firstn; lia).
  destruct (_ && _); [|exact H].
  unfold rstrip_chars, rstrip_by. rewrite length_rev.
  etransitivity; [apply lstrip_by_length|]. now rewrite length_rev.
Qed.

Lemma dirname_not_temp (p : str) : PosixPath.dirname p <> temp_path_of token p.
Proof.
  intros H. apply (f_equal (@length ascii)) in H.
  pose proof (dirname_length p). unfold temp_path_of in H.
  rewrite !length_app in H. simpl in H. lia.
Qed.

Lemma write_atomically_cases (st : store) (valid_path content : str) :
  st !! temp_path_of token valid_path = None ->
  write_atomically fault token st valid_path content
  = (Ok tt, <[valid_path := File content]> st)
  \/ exists err,
       write_atomically fault token st valid_path content = (Raise err, st).
Proof.
  intros Ht. unfold write_atomically.
  set (temp := temp_path_of token valid_path) in *.
  unfold FileIO.write_exclusive, FileIO.written. rewrite Ht.
  destruct (FileIO.can_create st temp).
  - destruct fault.
    + right. exists (FileIO.device_error temp). cbn [fst snd]. f_equal.
      rewrite (unlink_quietly_file _ temp []) by apply lookup_insert_eq.
      now apply delete_insert_id.
    + destruct (rename_file (<[temp := File content]> st) temp valid_path content
                  (lookup_insert_eq _ _ _)) as [-> | (err & -> & Hx)].
      * left. f_equal. f_equal. now apply delete_insert_id.
      * right. exists err.
        assert (FileIO.unlink_quietly (<[temp := File content]> st) temp = st) as Hu.
        { rewrite (unlink_quietly_file _ temp content) by apply lookup_insert_eq.
          now apply delete_insert_id. }
        destruct err; try discriminate Hx; now rewrite Hu.
  - right. exists (FileIO.missing st temp).
    pose proof (missing_not_exists st temp) as Hm.
    rewrite (unlink_quietly_absent _ _ Ht).
    destruct (FileIO.missing st temp); try discriminate Hm; reflexivity.
Qed.

Lemma rfind_succ_absent (c : ascii) (s : str) :
  ~ In c s -> rfind_succ c s = 0.
Proof.
  induction s as [|a t IH]; simpl; [reflexivity|]. intros H.
  rewrite IH by (intros Hin; apply H; now right).
  destruct (Ascii.eqb a c) eqn:E; [|reflexivity].
  apply Ascii.eqb_eq in E. exfalso. apply H. now left.
Qed.

Lemma rfind_succ_app (c : ascii) (a b : str) :
  ~ In c b -> rfind_succ c (a ++ b) = rfind_succ c a.
Proof.
  intros Hb. induction a as [|x t IH]; simpl.
  - now apply rfind_succ_absent.
  - now rewrite IH.
Qed.

Lemma rfind_succ_le (c : ascii) (s : str) : rfind_succ c s <= length s.
Proof.
  induction s as [|a t IH]; simpl; [lia|].
  destruct (rfind_succ c t); [destruct (Ascii.eqb a c)|]; lia.
Qed.

(** The temporary file is made beside the target. *)
Lemma dirname_temp (p : str) :
  ~ In SLASH token ->
  PosixPath.dirname (temp_path_of token p) = PosixPath.dirname p.
Proof.
  intros Ht. unfold PosixPath.dirname, PosixPath.split, temp_path_of.
  cbn [fst].
  assert (~ In SLASH (lit "." ++ token ++ lit ".tmp")) as Hs.
  { intros H. apply in_app_or in H as [H|H].
    - destruct H as [H|[]]; discriminate H.
    - apply in_app_or in H as [H|H]; [contradiction|].
      repeat (destruct H as [H|H]; [discriminate H|]). destruct H. }
  rewrite (rfind_succ_app SLASH p _ Hs).
  rewrite List.firstn_app.
  replace (rfind_succ SLASH p - length p) with 0
    by (pose proof (rfind_succ_le SLASH p); lia).
  cbn [firstn]. now rewrite app_nil_r.
Qed.

(** A write is all or nothing.  When the temporary name is free, the
    tool either answers with its message and leaves the store as it was
    but for the file, which holds the content, or it answers with an
    error and leaves the store as it was.  It succeeds when the parent
    directory exists, the device takes the content and the target is no
    directory. *)
Theorem write_is_all_or_nothing (st : store) (path content valid_path : str) :
  validate_path env realpath ALLOWED_DIR path = Ok valid_path ->
  st !! temp_path_of token valid_path = None ->
  ~ In SLASH token ->
  let args := Ok {| wf_path := path; wf_content := content |} in
  let written := write_file env realpath ALLOWED_DIR fault token st args in
  ((is_message (fst written)
    /\ snd written = <[valid_path := File content]> st)
   \/ (is_error (fst written) /\ snd written = st))
  /\ (FileIO.can_create st valid_path = true ->
      fault = false ->
      st !! valid_path <> Some Dir ->
      is_message (fst written)).
Proof.
  intros Hv Ht Htok. cbv zeta. unfold write_file. cbn [wf_path wf_content].
  rewrite Hv. split.
  - destruct (write_atomically_cases st valid_path content Ht)
      as [-> | (err & ->)]; cbn [fst snd].
    + left. split; [eexists; reflexivity | reflexivity].
    + right. split; [apply error_payload_is_error | reflexivity].
  - intros Hc Hf Hd.
    assert (write_atomically fault token st valid_path content
            = (Ok tt, <[valid_path := File content]> st)) as ->;
      [|eexists; reflexivity].
    unfold write_atomically.
    set (temp := temp_path_of token valid_path) in *.
    assert (temp <> valid_path) as Hne by apply temp_path_differs.
    unfold FileIO.write_exclusive, FileIO.written. rewrite Ht, Hf.
    assert (FileIO.can_create st temp = true) as ->.
    { unfold FileIO.can_create in *. unfold temp.
      now rewrite (dirname_temp valid_path Htok). }
    unfold FileIO.rename. rewrite lookup_insert_eq.
    rewrite lookup_insert_ne by exact Hne.
    assert (FileIO.can_create (<[temp := File content]> st) valid_path = true)
      as Hc'.
    { unfold FileIO.can_create in *.
      rewrite lookup_insert_ne; [exact Hc|].
      intros H. symmetry in H. now apply dirname_not_temp in H. }
    rewrite Hc'.
    destruct (st !! valid_path) as [[old|]|]; [| contradiction |];
      now rewrite delete_insert_id.
Qed.

(** A temporary name that is taken by a file is used all the same: the
    content is written over that file.  When the rename then fails, the
    target being a directory, the error of the rename is raised and the
    temporary file stays, with the new content; when it succeeds the file
    that was under the temporary name is gone. *)
Theorem stale_temporary_file_is_overwritten (st : store)
    (valid_path content old : str) :
  st !! temp_path_of token valid_path = Some (File old) ->
  fault = false ->
  let temp_path := temp_path_of token valid_path in
  (st !! valid_path = Some Dir ->
   write_atomically fault token st valid_path content
   = (Raise (IsADirectoryError valid_path), <[temp_path := File content]> st))
  /\ (forall target,
        st !! valid_path = Some (File target) ->
        write_atomically fault token st valid_path content
        = (Ok tt, <[valid_path := File content]> (delete temp_path st))).
Proof.
  intros Ht Hf. cbv zeta. unfold write_atomically.
  set (temp := temp_path_of token valid_path) in *.
  assert (temp <> valid_path) as Hne by apply temp_path_differs.
  unfold FileIO.write_exclusive, FileIO.write_truncate, FileIO.written.
  rewrite Ht, Hf. cbv beta iota zeta. rewrite Ht. cbv beta iota zeta.
  unfold FileIO.rename.
  rewrite lookup_insert_eq, lookup_insert_ne by exact Hne.
  split.
  - now intros ->.
  - intros target ->. now rewrite delete_insert_eq.
Qed.

End WriterExtras.

(** ** The readers *)

Section ReaderExtras.

Import Py LineWindowReader Tools.

Variable env : environ.
Variable realpath : str -> result str.
Variable ALLOWED_DIR : str.




Lemma in_tl {X : Type} (l : list X) (x : X) : In x (tl l) -> In x l.
Proof. destruct l; simpl; auto. Qed.




Lemma lstrip_by_snoc (f : ascii -> bool) (s : str) (c : ascii) :
  f c = false -> lstrip_by f (s ++ [c]) = lstrip_by f s ++ [c].
Proof.
  intros Hc. induction s as [|a t IH]; simpl.
  - now rewrite Hc.
  - destruct (f a); [exact IH | reflexivity].
Qed.

Lemma rstrip_by_cons (f : ascii -> bool) (c : ascii) (s : str) :
  f c = false -> rstrip_by f (c :: s) = c :: rstrip_by f s.
Proof.
  intros Hc. unfold rstrip_by. cbn [rev].
  rewrite (lstrip_by_snoc f _ c Hc), rev_app_distr. reflexivity.
Qed.

Lemma join_cons_char (c : ascii) (l : str) (ls : list str) :
  join [LF] ((c :: l) :: ls) = c :: join [LF] (l :: ls).
Proof. destruct ls; reflexivity. Qed.

Lemma iter_lines_nil (t : str) : FileIO.iter_lines t = [] -> t = [].
Proof.
  destruct t as [|c t]; [reflexivity|]. simpl.
  destruct (Ascii.eqb c LF); [discriminate|].
  destruct (FileIO.iter_lines t); discriminate.
Qed.

(** What [head_file] collects from the text [t] of a file is a prefix of
    [t] that is cut where a line ends. *)
Lemma head_lines_prefix (t : str) (i : nat) (num_lines : Z) :
  let found := head_lines i num_lines (FileIO.iter_lines t) in
  exists rest,
    t = join [LF] found ++ rest
    /\ (found = [] \/ rest = [] \/ exists rest', rest = LF :: rest')
    /\ (Z.of_nat (length found) <= Z.max (num_lines - Z.of_nat i) 0)%Z
    /\ Forall (fun line => ~ In LF line) found.
Proof.
  cbv zeta. revert i. induction t as [|c t IH]; intros i.
  - exists []. simpl. repeat split; auto. lia.
  - cbn [FileIO.iter_lines]. destruct (Ascii.eqb c LF) eqn:Ec.
    + apply Ascii.eqb_eq in Ec. subst c. cbn [head_lines].
      destruct (num_lines <=? Z.of_nat i)%Z eqn:En.
      * exists (LF :: t). simpl. repeat split; auto. lia.
      * apply Z.leb_gt in En.
        destruct (IH (S i)) as (rest & Ht & Hcut & Hlen & Hfree).
        assert (rstrip_chars [LF] [LF] = []) as -> by reflexivity.
        destruct (head_lines (S i) num_lines (FileIO.iter_lines t))
          as [|l ls] eqn:Eh.
        -- exists (LF :: t). split; [reflexivity|]. split; [|split].
           ++ right. right. eauto.
           ++ simpl. lia.
           ++ constructor; [intros [] | constructor].
        -- exists rest. split; [|split; [|split]].
           ++ change (join [LF] ([] :: l :: ls)) with (LF :: join [LF] (l :: ls)).
              simpl. now f_equal.
           ++ destruct Hcut as [Hcut|Hcut]; [discriminate | auto].
           ++ cbn [length] in *. lia.
           ++ constructor; [intros [] | exact Hfree].
    + assert (mem_char [LF] c = false) as Hmem.
      { unfold mem_char. cbn [existsb]. now rewrite Ec. }
      destruct (FileIO.iter_lines t) as [|l ls] eqn:El.
      * apply iter_lines_nil in El. subst t. cbn [head_lines].
        destruct (num_lines <=? Z.of_nat i)%Z eqn:En.
        -- exists [c]. simpl. repeat split; auto. lia.
        -- apply Z.leb_gt in En. exists [].
           unfold rstrip_chars. rewrite (rstrip_by_cons _ c [] Hmem).
           simpl. repeat split; auto; [lia|].
           constructor; [|constructor]. intros [H|[]]. subst c.
           now rewrite Ascii.eqb_refl in Ec.
      * specialize (IH i). cbn [head_lines] in *.
        destruct (num_lines <=? Z.of_nat i)%Z eqn:En.
        -- exists (c :: t). simpl. repeat split; auto. lia.
        -- destruct IH as (rest & Ht & Hcut & Hlen & Hfree).
           exists rest. unfold rstrip_chars in *.
           rewrite (rstrip_by_cons _ c l Hmem), join_cons_char.
           split; [|split; [|split]].
           ++ simpl. now f_equal.
           ++ destruct Hcut as [Hcut|Hcut]; [discriminate | auto].
           ++ exact Hlen.
           ++ inversion Hfree as [|? ? Hl Hls]; subst. constructor; [|exact Hls].
              intros [H|H]; [|contradiction]. subst c.
              now rewrite Ascii.eqb_refl in Ec.
Qed.

(** [head_file] returns a prefix of the text of the file, cut where a
    line ends: the text is what is returned followed by nothing or by a
    line feed and more.  What is returned is made of at most [num_lines]
    lines, none when [num_lines] is not positive. *)
Theorem head_returns_a_prefix (st : store) (file_path data : str)
    (num_lines : Z) :
  st !! file_path = Some (File data) ->
  exists found rest,
    head_file st file_path num_lines = Ok (join [LF] found)
    /\ FileIO.read_text st file_path = Ok (join [LF] found ++ rest)
    /\ (found = [] \/ rest = [] \/ exists rest', rest = LF :: rest')
    /\ (Z.of_nat (length found) <= Z.max num_lines 0)%Z
    /\ Forall (fun line => ~ In LF line) found.
Proof.
  intros Hf. unfold head_file, head_text, FileIO.read_text. rewrite Hf.
  destruct (head_lines_prefix (FileIO.universal_newlines data) 0 num_lines)
    as (rest & Ht & Hcut & Hlen & Hfree).
  eexists _, rest. split; [reflexivity|]. split; [now f_equal|].
  split; [exact Hcut|]. split; [|exact Hfree].
  rewrite Z.sub_0_r in Hlen. exact Hlen.
Qed.

End ReaderExtras.

(** ** Sizes and permissions *)

Section FormatExtras.

Import Py Tools.

Variable format_2f : Z -> Z -> str.

Lemma bit_length_div (bytes : Z) (i : Z) :
  (0 < i)%Z ->
  (2 ^ (10 * i - 1) <= bytes < 2 ^ (10 * i + 9))%Z ->
  Z.to_nat (bit_length bytes / 10) = Z.to_nat i.
Proof.
  intros Hi [Hlo Hhi].
  assert (0 < 2 ^ (10 * i - 1))%Z by (apply Z.pow_pos_nonneg; lia).
  destruct bytes as [|p|p]; try lia. unfold bit_length.
  assert (10 * i - 1 <= Z.log2 (Z.pos p))%Z by (apply Z.log2_le_pow2; lia).
  assert (Z.log2 (Z.pos p) < 10 * i + 9)%Z by (apply Z.log2_lt_pow2; lia).
  f_equal. symmetry.
  apply Z.div_unique with (r := (Z.log2 (Z.pos p) + 1 - 10 * i)%Z); lia.
Qed.

(** The unit of [format_size] changes at half of each power of 1024:
    sizes below 512 bytes are shown in bytes, as the number itself; from
    512 bytes on the size is shown in KB, from 2^19 in MB, from 2^29 in
    GB and from 2^39 in TB, divided by the power of 1024 of the unit. *)
Theorem size_unit_changes_at_half (bytes : Z) :
  ((0 < bytes < 512)%Z ->
   format_size format_2f bytes = Ok (str_of_Z bytes ++ lit " B"))
  /\ ((512 <= bytes < 2 ^ 19)%Z ->
      format_size format_2f bytes
      = Ok (format_2f bytes 1024 ++ lit " KB"))
  /\ ((2 ^ 19 <= bytes < 2 ^ 29)%Z ->
      format_size format_2f bytes
      = Ok (format_2f bytes (1024 ^ 2) ++ lit " MB"))
  /\ ((2 ^ 29 <= bytes < 2 ^ 39)%Z ->
      format_size format_2f bytes
      = Ok (format_2f bytes (1024 ^ 3) ++ lit " GB"))
  /\ ((2 ^ 39 <= bytes < 2 ^ 49)%Z ->
      format_size format_2f bytes
      = Ok (format_2f bytes (1024 ^ 4) ++ lit " TB")).
Proof.
  assert (forall i : Z,
            (0 < i)%Z ->
            (2 ^ (10 * i - 1) <= bytes < 2 ^ (10 * i + 9))%Z ->
            format_size format_2f bytes
            = let* unit := index units (Z.to_nat i) in
              Ok (format_2f bytes (1024 ^ Z.of_nat (Z.to_nat i))
                  ++ lit " " ++ unit)) as Hunit.
  { intros i Hi Hb. unfold format_size.
    assert (0 < 2 ^ (10 * i - 1))%Z by (apply Z.pow_pos_nonneg; lia).
    destruct (bytes =? 0)%Z eqn:E0; [apply Z.eqb_eq in E0; lia|].
    rewrite (bit_length_div bytes i Hi Hb).
    destruct (Z.to_nat i =? 0) eqn:Ei; [apply Nat.eqb_eq in Ei; lia|].
    reflexivity. }
  split; [|repeat split].
  - intros [Hlo Hhi]. unfold format_size.
    destruct (bytes =? 0)%Z eqn:E0; [apply Z.eqb_eq in E0; lia|].
    assert (Z.to_nat (bit_length bytes / 10) = 0) as ->; [|reflexivity].
    destruct bytes as [|p|p]; try lia. unfold bit_length.
    assert (Z.log2 (Z.pos p) < 9)%Z by (apply Z.log2_lt_pow2; lia).
    pose proof (Z.log2_nonneg (Z.pos p)).
    rewrite Z.div_small by lia. reflexivity.
  - intros Hb. now rewrite (Hunit 1%Z).
  - intros Hb. now rewrite (Hunit 2%Z).
  - intros Hb. now rewrite (Hunit 3%Z).
  - intros Hb. now rewrite (Hunit 4%Z).
Qed.

Lemma oct_digits_suffix (turns : nat) (n : Z) (acc : str) :
  exists pre,
    oct_digits turns n acc = pre ++ chr (48 + Z.to_nat (n mod 8)) :: acc.
Proof.
  revert n acc; induction turns as [|k IH]; intros n acc; cbn [oct_digits].
  - now exists [].
  - destruct (n <? 8)%Z; [now exists []|].
    destruct (IH (n / 8)%Z (chr (48 + Z.to_nat (n mod 8)) :: acc)) as (pre & ->).
    exists (pre ++ [chr (48 + Z.to_nat ((n / 8) mod 8))]).
    now rewrite <- app_assoc.
Qed.

(** The [permissions] of [get_file_stats] are the three low octal digits
    of the mode, for every mode from 0o100 on. *)
Theorem permissions_are_low_octal_digits (mode : Z) :
  (64 <= mode)%Z ->
  last3 (oct mode)
  = [chr (48 + Z.to_nat ((mode / 64) mod 8));
     chr (48 + Z.to_nat ((mode / 8) mod 8));
     chr (48 + Z.to_nat (mode mod 8))].
Proof.
  intros Hm. unfold oct.
  assert (6 <= Z.log2 mode)%Z by (apply (Z.log2_le_pow2 mode 6); lia).
  destruct (Z.to_nat (Z.log2 mode)) as [|[|k]] eqn:Ek; try lia.
  cbn [oct_digits].
  destruct (mode <? 8)%Z eqn:E1; [apply Z.ltb_lt in E1; lia|].
  destruct (mode / 8 <? 8)%Z eqn:E2.
  { apply Z.ltb_lt in E2.
    assert (8 <= mode / 8)%Z by (apply Z.div_le_lower_bound; lia). lia. }
  destruct (oct_digits_suffix k (mode / 8 / 8)
              (chr (48 + Z.to_nat ((mode / 8) mod 8))
               :: chr (48 + Z.to_nat (mode mod 8)) :: [])) as (pre & ->).
  rewrite Z.div_div by lia. change (8 * 8)%Z with 64%Z.
  unfold last3. rewrite !length_app. cbn [length].
  rewrite app_assoc.
  replace (length (lit "0o") + (length pre + 3) - 3)
    with (length (lit "0o" ++ pre)) by (rewrite length_app; lia).
  now rewrite skipn_app, skipn_all, Nat.sub_diag.
Qed.

End FormatExtras.

(** ** Directories and moves *)

Section DirectoryExtras.

Import Py Tools.

Variable env : environ.
Variable realpath : str -> result str.
Variable ALLOWED_DIR : str.
Variable listdir : str -> result (list str).
Variable isdir : str -> bool.
Variable dumps_indent2 : json -> str.
Variable recursion_limit : nat.

Lemma only_adds_refl (st : store) : only_adds_directories st st.
Proof. intros k. destruct (st !! k); auto. Qed.

Lemma only_adds_trans (a b c : store) :
  only_adds_directories a b -> only_adds_directories b c ->
  only_adds_directories a c.
Proof.
  intros Hab Hbc k. specialize (Hab k). specialize (Hbc k).
  destruct (a !! k) as [n|].
  - now rewrite Hab in Hbc.
  - destruct Hab as [Hab|Hab]; rewrite Hab in Hbc; auto.
Qed.

Lemma mkdir_only_adds (st st' : store) (p : str) (r : result unit) :
  FileIO.mkdir st p = (r, st') -> only_adds_directories st st'.
Proof.
  unfold FileIO.mkdir. destruct (st !! p) eqn:Hp.
  - intros H. injection H as _ <-. apply only_adds_refl.
  - destruct (FileIO.can_create st p); intros H; injection H as _ <-;
      [|apply only_adds_refl].
    intros k. destruct (decide (k = p)) as [->|Hne].
    + rewrite Hp, lookup_insert_eq. now right.
    + rewrite lookup_insert_ne by congruence. destruct (st !! k); auto.
Qed.

Lemma makedirs_only_adds (depth : nat) (st st' : store) (name : str)
    (r : result unit) :
  FileIO.makedirs depth st name = (r, st') -> only_adds_directories st st'.
Proof.
  revert st st' name r. induction depth as [|d IH]; intros st st' name r;
    cbn [FileIO.makedirs];
    destruct (PosixPath.split name) as [head0 tail0];
    destruct (match tail0 with
              | [] => PosixPath.split head0
              | _ :: _ => (head0, tail0)
              end) as [head tail].
  - destruct (_ && _).
    + intros H. injection H as _ <-. apply only_adds_refl.
    + destruct (FileIO.mkdir st name) as [[u|e] st2] eqn:Hm.
      * intros H. injection H as _ <-. eapply mkdir_only_adds, Hm.
      * destruct (st2 !! name) as [[c|]|]; intros H; injection H as _ <-;
          eapply mkdir_only_adds, Hm.
  - assert (forall st1 r1 st2,
              match FileIO.mkdir st1 name with
              | (Raise e, st2) =>
                  match st2 !! name with
                  | Some Dir => (Ok tt, st2)
                  | _ => (Raise e, st2)
                  end
              | ok => ok
              end = (r1, st2) -> only_adds_directories st1 st2) as Hcreate.
    { intros st1 r1 st2.
      destruct (FileIO.mkdir st1 name) as [[u|e] s2] eqn:Hm.
      - intros H. injection H as _ <-. eapply mkdir_only_adds, Hm.
      - destruct (s2 !! name) as [[c|]|]; intros H; injection H as _ <-;
          eapply mkdir_only_adds, Hm. }
    destruct (_ && _); [|apply Hcreate].
    destruct (FileIO.makedirs d st head) as [[u|e] st1] eqn:Hrec.
    + apply IH in Hrec. destruct (bool_decide (tail = lit ".")).
      * intros H. now injection H as _ <-.
      * intros H. apply Hcreate in H. eapply only_adds_trans; eauto.
    + apply IH in Hrec.
      destruct e; try (intros H; injection H as _ <-; exact Hrec).
      destruct (bool_decide (tail = lit ".")).
      * intros H. now injection H as _ <-.
      * intros H. apply Hcreate in H. eapply only_adds_trans; eauto.
Qed.

(** [create_directory] removes nothing and changes nothing that is
    stored: whatever it answers, every file and directory of the store is
    there after the call as before, and all that is new are directories. *)
Theorem create_directory_only_adds_directories (st : store)
    (args : result CreateDirectoryArgs) :
  only_adds_directories st
    (snd (create_directory env realpath ALLOWED_DIR recursion_limit st args)).
Proof.
  unfold create_directory. destruct args as [parsed|e]; [|apply only_adds_refl].
  destruct (validate_path env realpath ALLOWED_DIR (cd_path parsed));
    [|apply only_adds_refl].
  destruct (FileIO.makedirs recursion_limit st a) as [[u|e] st'] eqn:Hm;
    cbn [snd]; eapply makedirs_only_adds, Hm.
Qed.

(** [create_directory] on a path that exists, with its parent in the
    store: on a directory the tool answers with its message and changes
    nothing, [exist_ok] being set; on a regular file it answers with the
    error [FileExistsError] and changes nothing. *)
Theorem create_directory_on_existing_path (st : store) (path valid_path : str) :
  validate_path env realpath ALLOWED_DIR path = Ok valid_path ->
  snd (PosixPath.split valid_path) <> [] ->
  is_Some (st !! PosixPath.dirname valid_path) ->
  let created :=
    create_directory env realpath ALLOWED_DIR recursion_limit st
      (Ok {| cd_path := path |}) in
  (st !! valid_path = Some Dir ->
   created
   = (message_payload (lit "Successfully created directory " ++ path), st))
  /\ (forall content,
        st !! valid_path = Some (File content) ->
        created = (error_payload (FileExistsError valid_path), st)).
Proof.
  intros Hv Htail Hparent. cbv zeta. unfold create_directory.
  cbn [cd_path]. rewrite Hv.
  assert (forall n, st !! valid_path = Some n ->
          FileIO.makedirs recursion_limit st valid_path
          = match n with
            | Dir => (Ok tt, st)
            | File _ => (Raise (FileExistsError valid_path), st)
            end) as Hmk.
  { intros n Hn. unfold PosixPath.dirname in Hparent.
    destruct recursion_limit; cbn [FileIO.makedirs];
    destruct (PosixPath.split valid_path) as [head0 tail0];
    cbn [fst snd] in *;
    (destruct tail0 as [|c t]; [contradiction|]);
    rewrite (bool_decide_eq_true_2 _ Hparent);
    rewrite andb_false_r;
    unfold FileIO.mkdir; rewrite Hn; cbv beta iota zeta; rewrite Hn;
    destruct n; reflexivity. }
  split.
  - intros Hd. now rewrite (Hmk _ Hd).
  - intros content Hf. now rewrite (Hmk _ Hf).
Qed.

Lemma rename_raise_keeps (st st' : store) (src dst : str) (e : exn) :
  FileIO.rename st src dst = (Raise e, st') -> st' = st.
Proof.
  unfold FileIO.rename. intros H.
  repeat case_match; try discriminate; now injection H as _ <-.
Qed.

(** A move that fails changes nothing: when [move_file] answers with an
    error, the store is what it was before the call. *)
Theorem failed_move_changes_nothing (st : store) (args : result MoveFileArgs) :
  let moved := move_file env realpath ALLOWED_DIR st args in
  is_error (fst moved) -> snd moved = st.
Proof.
  cbv zeta. unfold move_file. destruct args as [parsed|e]; [|reflexivity].
  destruct (validate_path env realpath ALLOWED_DIR (mv_source parsed))
    as [vs|e]; cbn [bind]; [|reflexivity].
  destruct (validate_path env realpath ALLOWED_DIR (mv_destination parsed))
    as [vd|e]; cbn [bind]; [|reflexivity].
  destruct (FileIO.rename st vs vd) as [[u|e] st'] eqn:Hr; cbn [fst snd].
  - intros Herr. exfalso.
    eapply message_not_error; [|exact Herr]. eexists. reflexivity.
  - intros _. eapply rename_raise_keeps, Hr.
Qed.

(** Moving a regular file onto a regular file replaces it without a
    question: the tool answers with its message, the destination holds
    the content of the source, and the source is gone. *)
Theorem move_replaces_a_destination_file (st : store)
    (source destination valid_source valid_dest content old : str) :
  validate_path env realpath ALLOWED_DIR source = Ok valid_source ->
  validate_path env realpath ALLOWED_DIR destination = Ok valid_dest ->
  valid_source <> valid_dest ->
  st !! valid_source = Some (File content) ->
  st !! valid_dest = Some (File old) ->
  let moved :=
    move_file env realpath ALLOWED_DIR st
      (Ok {| mv_source := source; mv_destination := destination |}) in
  fst moved
  = message_payload (lit "Successfully moved " ++ source ++ lit " to "
                     ++ destination)
  /\ snd moved = <[valid_dest := File content]> (delete valid_source st)
  /\ snd moved !! valid_dest = Some (File content)
  /\ snd moved !! valid_source = None.
Proof.
  intros Hs Hd Hne Hsrc Hdst. cbv zeta. unfold move_file.
  cbn [mv_source mv_destination]. rewrite Hs, Hd. cbn [bind].
  unfold FileIO.rename. rewrite Hsrc, Hdst. cbn [fst snd].
  repeat split.
  - apply lookup_insert_eq.
  - rewrite lookup_insert_ne by congruence. apply lookup_delete_eq.
Qed.

Lemma each_as_map_result {A B C : Type} (g : A -> result B) (h : B -> C)
    (l : list A) :
  (fix each (names : list A) : result (list C) :=
     match names with
     | [] => Ok []
     | x :: rest =>
         let* b := g x in
         let* ys := each rest in
         Ok (h b :: ys)
     end) l
  = map_result (fun x => let* b := g x in Ok (h b)) l.
Proof.
  induction l as [|x rest IH]; [reflexivity|].
  cbn [map_result]. rewrite <- IH. destruct (g x); reflexivity.
Qed.

Lemma build_tree_eq (depth : nat) (current_path : str) :
  build_tree env realpath ALLOWED_DIR listdir isdir depth current_path
  = let* valid_path := validate_path env realpath ALLOWED_DIR current_path in
    let* names := listdir valid_path in
    map_result
      (fun entry =>
         let entry_path := PosixPath.join valid_path entry in
         let entry_data :=
           [(lit "name", JString entry);
            (lit "type",
             JString (if isdir entry_path then lit "directory" else lit "file"))] in
         let* entry_data' :=
           if isdir entry_path then
             match depth with
             | 0 => Raise RecursionError
             | S d =>
                 let* children :=
                   build_tree env realpath ALLOWED_DIR listdir isdir d entry_path in
                 Ok (entry_data ++ [(lit "children", JArray children)])
             end
           else Ok entry_data in
         Ok (JObject entry_data'))
      names.
Proof.
  destruct depth as [|d]; cbn [build_tree];
    (destruct (validate_path env realpath ALLOWED_DIR current_path)
       as [valid_path|e]; [|reflexivity]);
    cbn [bind]; (destruct (listdir valid_path) as [names|e]; [|reflexivity]);
    cbn [bind].
  - apply (each_as_map_result
             (fun entry =>
                if isdir (PosixPath.join valid_path entry)
                then Raise RecursionError
                else Ok [(lit "name", JString entry);
                         (lit "type",
                          JString (if isdir (PosixPath.join valid_path entry)
                                   then lit "directory" else lit "file"))])
             JObject names).
  - apply (each_as_map_result
             (fun entry =>
                if isdir (PosixPath.join valid_path entry)
                then
                  let* children :=
                    build_tree env realpath ALLOWED_DIR listdir isdir d
                      (PosixPath.join valid_path entry) in
                  Ok ([(lit "name", JString entry);
                       (lit "type",
                        JString (if isdir (PosixPath.join valid_path entry)
                                 then lit "directory" else lit "file"))]
                      ++ [(lit "children", JArray children)])
                else Ok [(lit "name", JString entry);
                         (lit "type",
                          JString (if isdir (PosixPath.join valid_path entry)
                                   then lit "directory" else lit "file"))])
             JObject names).
Qed.

Lemma map_result_Forall2 {X Y : Type} (f : X -> result Y) (l : list X)
    (r : list Y) :
  map_result f l = Ok r -> Forall2 (fun x y => f x = Ok y) l r.
Proof.
  revert r; induction l as [|x t IH]; intros r H; cbn [map_result] in H.
  - injection H as <-. constructor.
  - destruct (f x) as [y|e] eqn:Ex; cbn [bind] in H; [|discriminate].
    destruct (map_result f t) as [ys|e]; cbn [bind] in H; [|discriminate].
    injection H as <-. constructor; [exact Ex | now apply IH].
Qed.

Lemma map_result_raises {X Y : Type} (f : X -> result Y) (l : list X) (x : X) :
  In x l -> (exists e, f x = Raise e) -> exists e, map_result f l = Raise e.
Proof.
  intros Hin (e & He). induction l as [|a t IH]; [contradiction|].
  cbn [map_result]. destruct (f a) as [y|e'] eqn:Ea; cbn [bind]; [|eauto].
  destruct Hin as [->|Hin]; [congruence|].
  destruct (IH Hin) as (e'' & ->). cbn [bind]. eauto.
Qed.

Lemma build_tree_names (depth : nat) (current_path : str) (tree : list json) :
  build_tree env realpath ALLOWED_DIR listdir isdir depth current_path
  = Ok tree ->
  exists valid_path names,
    validate_path env realpath ALLOWED_DIR current_path = Ok valid_path
    /\ listdir valid_path = Ok names
    /\ Forall2
         (fun entry node =>
            exists rest,
              node = JObject
                       ((lit "name", JString entry)
                        :: (lit "type",
                            JString (if isdir (PosixPath.join valid_path entry)
                                     then lit "directory" else lit "file"))
                        :: rest))
         names tree.
Proof.
  rewrite build_tree_eq. intros H.
  destruct (validate_path env realpath ALLOWED_DIR current_path)
    as [valid_path|e]; cbn [bind] in H; [|discriminate].
  destruct (listdir valid_path) as [names|e] eqn:Hl; cbn [bind] in H;
    [|discriminate].
  exists valid_path, names. split; [reflexivity|]. split; [exact Hl|].
  apply map_result_Forall2 in H.
  eapply Forall2_impl; [exact H|]. cbv beta zeta.
  intros entry node Hn.
  destruct (isdir (PosixPath.join valid_path entry)); cbn [bind] in Hn.
  - destruct depth as [|d]; [discriminate|].
    destruct (build_tree env realpath ALLOWED_DIR listdir isdir d
                (PosixPath.join valid_path entry)) as [children|e];
      cbn [bind] in Hn; [|discriminate].
    injection Hn as <-. eexists. reflexivity.
  - injection Hn as <-. eexists. reflexivity.
Qed.

(** The tree that [directory_tree] returns has one node for each name
    that [os.listdir] gave, in that order, and each node starts with the
    name and the type of the entry. *)
Theorem tree_has_a_node_for_every_entry (path : str) (text : str) :
  directory_tree env realpath ALLOWED_DIR listdir isdir dumps_indent2
    recursion_limit (Ok {| dt_path := path |})
  = content_payload text ->
  exists valid_path names tree,
    validate_path env realpath ALLOWED_DIR path = Ok valid_path
    /\ listdir valid_path = Ok names
    /\ text = dumps_indent2 (JArray tree)
    /\ Forall2
         (fun entry node =>
            exists rest,
              node = JObject
                       ((lit "name", JString entry)
                        :: (lit "type",
                            JString (if isdir (PosixPath.join valid_path entry)
                                     then lit "directory" else lit "file"))
                        :: rest))
         names tree.
Proof.
  unfold directory_tree. cbn [bind dt_path].
  destruct (build_tree env realpath ALLOWED_DIR listdir isdir recursion_limit
              path) as [tree|e] eqn:Hb; cbn [bind].
  - intros H. apply (f_equal (fun j => match j with
                                       | JObject [(_, JString s)] => s
                                       | _ => []
                                       end)) in H.
    cbn in H. destruct (build_tree_names _ _ _ Hb)
      as (valid_path & names & Hv & Hl & Hall).
    exists valid_path, names, tree. auto.
  - intros H. exfalso. eapply error_is_not_content. exact H.
Qed.

Lemma build_tree_fails_below (depth : nat) (current_path valid_path : str)
    (names : list str) (entry : str) :
  validate_path env realpath ALLOWED_DIR current_path = Ok valid_path ->
  listdir valid_path = Ok names ->
  In entry names ->
  isdir (PosixPath.join valid_path entry) = true ->
  (forall d, exists err,
     build_tree env realpath ALLOWED_DIR listdir isdir d
       (PosixPath.join valid_path entry) = Raise err) ->
  exists err,
    build_tree env realpath ALLOWED_DIR listdir isdir depth current_path
    = Raise err.
Proof.
  intros Hv Hl Hin Hd Hsub. rewrite build_tree_eq, Hv. cbn [bind].
  rewrite Hl. cbn [bind].
  apply (map_result_raises _ names entry Hin). cbv beta zeta. rewrite Hd.
  destruct depth as [|d]; [eauto|].
  destruct (Hsub d) as (err & ->). cbn [bind]. eauto.
Qed.

(** [directory_tree] fails as a whole: when one directory listed under
    the path is denied by the validator, or cannot be listed, the tool
    answers with an error and no part of the tree. *)
Theorem tree_fails_as_a_whole (path valid_path entry : str)
    (names : list str) (err : exn) :
  validate_path env realpath ALLOWED_DIR path = Ok valid_path ->
  listdir valid_path = Ok names ->
  In entry names ->
  isdir (PosixPath.join valid_path entry) = true ->
  validate_path env realpath ALLOWED_DIR (PosixPath.join valid_path entry)
  = Raise err
  \/ (exists below,
        validate_path env realpath ALLOWED_DIR (PosixPath.join valid_path entry)
        = Ok below
        /\ listdir below = Raise err) ->
  is_error
    (directory_tree env realpath ALLOWED_DIR listdir isdir dumps_indent2
       recursion_limit (Ok {| dt_path := path |})).
Proof.
  intros Hv Hl Hin Hd Hsub. unfold directory_tree. cbn [bind dt_path].
  destruct (build_tree_fails_below recursion_limit path valid_path names entry
              Hv Hl Hin Hd) as (e & ->).
  - intros d. exists err.
    destruct Hsub as [Hs | (below & Hs & Hb)];
      destruct d; cbn [build_tree]; rewrite Hs; cbn [bind];
      try reflexivity; rewrite Hb; reflexivity.
  - cbn [bind]. apply error_payload_is_error.
Qed.

End DirectoryExtras.

(** ** The configuration *)

Section ConfigExtras.

Import Config.

Variable json_load : str -> outcome value.

Lemma lookup_key_is_Some (key : str) (items : list (str * value)) :
  bool_decide (is_Some (lookup_key key items)) = true ->
  exists x, lookup_key key items = Some x.
Proof.
  intros H. apply bool_decide_eq_true in H. destruct H as [x Hx]. eauto.
Qed.

Lemma getitem_loaded (v : value) (key : str) (x : value) :
  getitem v key = Loaded x ->
  exists items, v = VDict items /\ lookup_key key items = Some x.
Proof.
  destruct v; try discriminate. cbn [getitem].
  destruct (lookup_key key items) eqn:E; [|discriminate].
  intros H. injection H as <-. eauto.
Qed.

Lemma load_mcp_config_loaded (found : option node) (config : value)
    (events : list event) :
  load_mcp_config json_load found = (Loaded config, events) ->
  events = []
  /\ exists data items,
       found = Some (File data)
       /\ json_load (FileIO.universal_newlines data) = Loaded (VDict items)
       /\ config = VDict items.
Proof.
  unfold load_mcp_config.
  destruct found as [[data|]|]; try discriminate.
  destruct (json_load (FileIO.universal_newlines data)) as [v|e] eqn:Ej;
    cbn [and_then]; [|discriminate].
  destruct v; try discriminate.
  intros H. injection H as <- <-. split; [reflexivity|]. eauto.
Qed.

(** A configuration that loads is well formed.  When the block of the
    module ends without an exception, the file exists and holds a
    dictionary, [mcpServers] in it is a dictionary, [filesystem-server]
    in that is a dictionary, and the three settings are the values under
    [allowedDir], [serverName] and [port]; nothing was logged.  The tests
    with [in] alone would let a string or a list pass; the indexing that
    follows does not. *)
Theorem loaded_configuration_is_well_formed (found : option node)
    (loaded : settings) (events : list event) :
  load_configuration json_load found = (Loaded loaded, events) ->
  events = []
  /\ exists data config servers server,
       found = Some (File data)
       /\ json_load (FileIO.universal_newlines data) = Loaded (VDict config)
       /\ lookup_key (lit "mcpServers") config = Some (VDict servers)
       /\ lookup_key (lit "filesystem-server") servers = Some (VDict server)
       /\ lookup_key (lit "allowedDir") server = Some (ALLOWED_DIR loaded)
       /\ lookup_key (lit "serverName") server = Some (SERVER_NAME loaded)
       /\ lookup_key (lit "port") server = Some (PORT loaded).
Proof.
  unfold load_configuration.
  destruct (load_mcp_config json_load found) as [result evs] eqn:Hload.
  destruct result as [config|e]; cbn [and_then]; [|discriminate].
  destruct (load_mcp_config_loaded _ _ _ Hload)
    as (-> & data & items & -> & Hj & ->).
  cbn [contains_key and_then].
  destruct (bool_decide (is_Some (lookup_key (lit "mcpServers") items)))
    eqn:Hs; cbn [negb and_then orb]; [|discriminate].
  destruct (lookup_key_is_Some _ _ Hs) as (servers & Hservers).
  cbn [getitem]. rewrite Hservers. cbn [and_then].
  destruct (contains_key (lit "filesystem-server") servers) as [[]|e] eqn:Hc;
    cbn [and_then negb orb]; try discriminate.
  destruct (getitem servers (lit "filesystem-server")) as [server|e] eqn:Hg;
    cbn [and_then]; [|discriminate].
  destruct (getitem_loaded _ _ _ Hg) as (sitems & -> & Hserver).
  destruct (contains_all _ server) as [[]|e]; cbn [and_then negb];
    try discriminate.
  destruct (getitem server (lit "allowedDir")) as [a|e] eqn:Ha;
    cbn [and_then]; [|discriminate].
  destruct (getitem_loaded _ _ _ Ha) as (fields & -> & Hallowed).
  cbn [getitem].
  destruct (lookup_key (lit "serverName") fields) as [n|] eqn:Hn;
    cbn [and_then]; [|discriminate].
  destruct (lookup_key (lit "port") fields) as [p|] eqn:Hp;
    cbn [and_then]; [|discriminate].
  intros H. injection H as <- <-. split; [reflexivity|].
  exists data, items, sitems, fields. cbn [ALLOWED_DIR SERVER_NAME PORT].
  repeat split; auto.
Qed.

(** A configuration without the entry of the file server, or with an
    entry that lacks a setting, raises [ValueError] with the message of
    the block, and the failure is logged once, by the logger of the
    module.  The message for a missing setting names all three, whichever
    is missing. *)
Theorem incomplete_configuration_is_a_value_error (data : str)
    (config : list (str * value)) :
  json_load (FileIO.universal_newlines data) = Loaded (VDict config) ->
  let report text :=
    (Failed (value_error text),
     [LogError (lit "mcp_server_filesystem")
        (lit "Failed to load configuration: " ++ text)]) in
  (lookup_key (lit "mcpServers") config = None ->
   load_configuration json_load (Some (File data))
   = report (lit "Invalid mcpServers configuration: missing filesystem-server"))
  /\ (forall servers,
        lookup_key (lit "mcpServers") config = Some (VDict servers) ->
        lookup_key (lit "filesystem-server") servers = None ->
        load_configuration json_load (Some (File data))
        = report (lit "Invalid mcpServers configuration: missing filesystem-server"))
  /\ (forall servers server,
        lookup_key (lit "mcpServers") config = Some (VDict servers) ->
        lookup_key (lit "filesystem-server") servers = Some (VDict server) ->
        lookup_key (lit "allowedDir") server = None
        \/ lookup_key (lit "serverName") server = None
        \/ lookup_key (lit "port") server = None ->
        load_configuration json_load (Some (File data))
        = report (lit "Missing allowedDir, serverName, or port in filesystem-server configuration")).
Proof.
  intros Hj. cbv zeta. unfold load_configuration, load_mcp_config.
  rewrite Hj. cbn [and_then contains_key].
  split; [|split].
  - intros ->. reflexivity.
  - intros servers Hs Hnone. rewrite Hs.
    rewrite bool_decide_eq_true_2 by eauto. cbn [negb and_then getitem orb].
    rewrite Hs. cbn [and_then contains_key]. rewrite Hnone.
    rewrite bool_decide_eq_false_2 by (intros [x Hx]; discriminate).
    reflexivity.
  - intros servers server Hs Hserver Hmissing. rewrite Hs.
    rewrite bool_decide_eq_true_2 by eauto. cbn [negb and_then getitem orb].
    rewrite Hs. cbn [and_then contains_key]. rewrite Hserver.
    rewrite bool_decide_eq_true_2 by eauto. cbn [negb and_then getitem orb].
    rewrite ?Hs, ?Hserver. cbn [and_then getitem]. rewrite ?Hserver.
    cbn [and_then].
    assert (contains_all [lit "allowedDir"; lit "serverName"; lit "port"]
              (VDict server) = Loaded false) as ->; [|reflexivity].
    cbn [contains_all contains_key and_then].
    destruct (lookup_key (lit "allowedDir") server) eqn:Ha.
    2: { now rewrite bool_decide_eq_false_2 by (intros [x Hx]; discriminate). }
    rewrite bool_decide_eq_true_2 by eauto.
    destruct (lookup_key (lit "serverName") server) eqn:Hn.
    2: { now rewrite bool_decide_eq_false_2 by (intros [x Hx]; discriminate). }
    rewrite bool_decide_eq_true_2 by eauto.
    destruct (lookup_key (lit "port") server) eqn:Hp.
    2: { now rewrite bool_decide_eq_false_2 by (intros [x Hx]; discriminate). }
    destruct Hmissing as [H|[H|H]]; discriminate H.
Qed.

End ConfigExtras.

(** ** The helper [search_files] *)

Section SearchExtras.

Import Py PosixPath PathValidator Search.

Variable env : environ.
Variable ALLOWED_DIR : str.
Variable walk : str -> list (str * list str * list str).
Variable relpath : str -> str -> str.
Variable fnmatch : str -> str -> bool.

Lemma search_in_spec (root_path pattern : str) (exclude_patterns : list str)
    (root : str) (files results : list str) (r : str) :
  In r (search_in relpath fnmatch root_path pattern exclude_patterns root files
          results)
  <-> In r results
      \/ exists file,
           In file files
           /\ r = PosixPath.join root file
           /\ existsb (fnmatch (relpath r root_path)) exclude_patterns = false
           /\ contains pattern (lower file) = true.
Proof.
  revert results. induction files as [|file rest IH]; intros results;
    cbn [search_in].
  - split; [auto | intros [H|(file & [] & _)]; exact H].
  - destruct (existsb (fnmatch (relpath (PosixPath.join root file) root_path))
                exclude_patterns) eqn:Ex;
      [|destruct (contains pattern (lower file)) eqn:Ec]; rewrite IH.
    + split; (intros [H|(f & Hf & Hr & He & Hc)]; [now left|]); right.
      * exists f. split; [now right | auto].
      * destruct Hf as [<-|Hf]; [subst r; congruence|]. exists f. auto.
    + rewrite in_app_iff. cbn [In].
      split.
      * intros [[H|[<-|[]]]|(f & Hf & Hr & He & Hc)]; [now left | |].
        -- right. exists file. split; [now left|]. auto.
        -- right. exists f. split; [now right | auto].
      * intros [H|(f & [<-|Hf] & Hr & He & Hc)]; [now left; left | |].
        -- left. right. left. now symmetry.
        -- right. exists f. auto.
    + split; (intros [H|(f & Hf & Hr & He & Hc)]; [now left|]); right.
      * exists f. split; [now right | auto].
      * destruct Hf as [<-|Hf]; [congruence|]. exists f. auto.
Qed.

Lemma search_walk_spec (root_path pattern : str) (exclude_patterns : list str)
    (walked : list (str * list str * list str)) (results : list str) :
  isabs (env_cwd env) = true ->
  exists found,
    search_walk env ALLOWED_DIR relpath fnmatch root_path pattern
      exclude_patterns walked results = Ok found
    /\ forall r,
         In r found
         <-> In r results
             \/ exists root dirs files file,
                  In (root, dirs, files) walked
                  /\ is_path_within_allowed_directory env root ALLOWED_DIR
                     = Ok true
                  /\ In file files
                  /\ r = PosixPath.join root file
                  /\ existsb (fnmatch (relpath r root_path)) exclude_patterns
                     = false
                  /\ contains pattern (lower file) = true.
Proof.
  intros Hcwd. revert results.
  induction walked as [|[[root dirs] files] rest IH]; intros results;
    cbn [search_walk].
  - exists results. split; [reflexivity|]. intros r.
    split; [auto | intros [H|(? & ? & ? & ? & [] & _)]; exact H].
  - destruct (within_answers env root ALLOWED_DIR Hcwd) as [b Hb].
    rewrite Hb. cbn [bind]. destruct b; cbn [negb].
    + destruct (IH (search_in relpath fnmatch root_path pattern
                      exclude_patterns root files results))
        as (found & -> & Hfound).
      exists found. split; [reflexivity|]. intros r.
      rewrite Hfound, search_in_spec. split.
      * intros [[H|(file & Hf & Hr & He & Hc)]
               |(root' & dirs' & files' & file & Hin & Hw & Hf & Hr)].
        -- now left.
        -- right. exists root, dirs, files, file. split; [now left | auto].
        -- right. exists root', dirs', files', file. split; [now right | auto].
      * intros [H|(root' & dirs' & files' & file & [Heq|Hin] & Hw & Hf & Hr)].
        -- left. now left.
        -- injection Heq as <- <- <-. left. right. exists file. auto.
        -- right. exists root', dirs', files', file. auto.
    + destruct (IH results) as (found & -> & Hfound).
      exists found. split; [reflexivity|]. intros r. rewrite Hfound. split.
      * intros [H|(root' & dirs' & files' & file & Hin & Hr)]; [now left|].
        right. exists root', dirs', files', file. split; [now right | auto].
      * intros [H|(root' & dirs' & files' & file & [Heq|Hin] & Hw & Hr)];
          [now left | |].
        -- injection Heq as <- <- <-. congruence.
        -- right. exists root', dirs', files', file. auto.
Qed.

Lemma lower_char_idempotent (c : ascii) :
  lower_char (lower_char c) = lower_char c.
Proof. destruct c as [[] [] [] [] [] [] [] []]; reflexivity. Qed.

Lemma lower_idempotent (s : str) : lower (lower s) = lower s.
Proof.
  unfold lower. rewrite map_map. apply map_ext. apply lower_char_idempotent.
Qed.

(** What the helper [search_files] finds.  It raises nothing, and the
    paths it returns are those of the files that [os.walk] lists in a
    directory that passes the containment test, whose name in lower case
    holds the pattern in lower case, and whose path relative to the start
    matches no exclusion pattern: the pattern is no glob, it is looked
    for in the name alone, and the case of its letters does not count. *)
Theorem search_finds_names_that_hold_the_pattern (root_path pattern : str)
    (exclude_patterns : list str) :
  isabs (env_cwd env) = true ->
  (exists found,
     search_files env ALLOWED_DIR walk relpath fnmatch root_path pattern
       exclude_patterns = Ok found
     /\ forall r,
          In r found
          <-> exists root dirs files file,
                In (root, dirs, files) (walk root_path)
                /\ is_path_within_allowed_directory env root ALLOWED_DIR
                   = Ok true
                /\ In file files
                /\ r = PosixPath.join root file
                /\ existsb (fnmatch (relpath r root_path)) exclude_patterns
                   = false
                /\ contains (lower pattern) (lower file) = true)
  /\ search_files env ALLOWED_DIR walk relpath fnmatch root_path
       (lower pattern) exclude_patterns
     = search_files env ALLOWED_DIR walk relpath fnmatch root_path pattern
         exclude_patterns.
Proof.
  intros Hcwd. split.
  - unfold search_files.
    destruct (search_walk_spec root_path (lower pattern) exclude_patterns
                (walk root_path) [] Hcwd) as (found & -> & Hfound).
    exists found. split; [reflexivity|]. intros r. rewrite Hfound.
    split; [intros [[]|H]; exact H | now right].
  - unfold search_files. now rewrite lower_idempotent.
Qed.

End SearchExtras.

(** ** The scenarios *)

Import Py PosixPath PathValidator EditEngine Tools LineWindowReader Scenario.

Ltac no_nul := vm_compute; intuition discriminate.

(** C1, counterexample.  The link [/tmp/in] resolves to a file of the
    root, yet the validator denies it: the requested path itself is
    outside the root. *)
Lemma link_into_root_is_denied :
  realpath0 (normalize_path env0 (lit "/tmp/in")) = Ok (lit "/sandbox/a.txt")
  /\ under (normalize_path env0 root) (lit "/sandbox/a.txt")
  /\ PathValidator.validate_path env0 realpath0 (lit "/tmp/in") root
     = Raise (denied_path (lit "/tmp/in") root).
Proof.
  split; [vm_compute; reflexivity|]. split; [|vm_compute; reflexivity].
  right. exists (lit "a.txt"). vm_compute. reflexivity.
Qed.

(** The theorem of C1 at the link [/sandbox/link] of the scenario. *)
Lemma validate_iff_contained_witness :
  PathValidator.validate_path env0 realpath0 (lit "/sandbox/link/new.txt") root
  = Ok (lit "/sandbox/real/new.txt")
  /\ under (normalize_path env0 root) (lit "/sandbox/real/new.txt").
Proof.
  refine (proj1 (proj2 (validate_iff_contained env0 realpath0 _
                          (lit "/sandbox/link/new.txt") root _)
                   (lit "/sandbox/real/new.txt") _ _) _);
    try (vm_compute; reflexivity).
  split; (split; [right | no_nul]).
  - exists (lit "link/new.txt"). vm_compute. reflexivity.
  - exists (lit "real/new.txt"). vm_compute. reflexivity.
Defined.

(** The containment test strips what it compares: the sibling of the
    root whose name is the root and a space passes it. *)
Lemma sibling_with_trailing_space_passes :
  PathValidator.validate_path env0 realpath0 (lit "/sandbox /.") root = Ok (lit "/sandbox ")
  /\ ~ under (normalize_path env0 root) (lit "/sandbox ").
Proof.
  split; [vm_compute; reflexivity|].
  intros [H|[rest H]]; vm_compute in H; discriminate H.
Qed.

(** C2, at the failing input.  The target [/sandbox/link/new.txt] does
    not exist and its parent is a link inside the root: the validator
    returns the resolved path, not the normalized path requested. *)
Lemma creation_case_returns_resolved_path :
  store0 !! lit "/sandbox/link/new.txt" = None
  /\ store0 !! lit "/sandbox/real/new.txt" = None
  /\ normalize_path env0 (lit "/sandbox/link/new.txt")
     = lit "/sandbox/link/new.txt"
  /\ PathValidator.validate_path env0 realpath0 (lit "/sandbox/link/new.txt") root
     = Ok (lit "/sandbox/real/new.txt")
  /\ lit "/sandbox/real/new.txt" <> lit "/sandbox/link/new.txt".
Proof. repeat split; try (vm_compute; reflexivity). vm_compute. discriminate. Qed.

(** The theorem of C3 at a list whose second edit finds no window. *)
Lemma edit_persists_only_on_full_success_witness :
  apply_file_edits plain_diff false token0 store0 a_txt
    [world_to_there; absent_to_x] false
  = (Raise (no_match absent_to_x), store0).
Proof.
  apply (proj1 (proj2 (proj2 (edit_persists_only_on_full_success plain_diff
                                false token0 store0 a_txt
                                [world_to_there; absent_to_x])))
           hello_world [world_to_there] absent_to_x []
           (lit "hello" ++ [LF] ++ lit "there"));
    vm_compute; reflexivity.
Defined.

(** C4, at the scenario.  The edit of [world] into [there] leaves the
    file without its final line feed, whatever the diff library
    returns. *)
Lemma edit_scenario_drops_final_newline
    (unified_diff : list str -> list str -> str -> list str) :
  store0 !! a_txt = Some (File (lit "hello" ++ [LF] ++ lit "world" ++ [LF]))
  /\ snd (edit_file env0 realpath0 root unified_diff false token0 store0
            (Ok {| ef_path := a_txt; ef_edits := [world_to_there];
                   ef_dryRun := false |})) !! a_txt
     = Some (File (lit "hello" ++ [LF] ++ lit "there"))
  /\ lit "hello" ++ [LF] ++ lit "there"
     <> lit "hello" ++ [LF] ++ lit "there" ++ [LF].
Proof. repeat split; try (vm_compute; reflexivity). vm_compute. discriminate. Qed.

(** C5, at the failing input.  Of the three lines of the file, the reader
    returns two: the empty line, whose terminator is the first character
    of the last block, is lost. *)
Lemma tail_drops_empty_line_at_block_boundary :
  length three_lines = 1026
  /\ tail_text three_lines 3 = Ok (lit "a" ++ [LF] ++ repeat (chr 120) 1023)
  /\ tail_of_full_read three_lines 3
     = lit "a" ++ [LF; LF] ++ repeat (chr 120) 1023
  /\ tail_text three_lines 3 <> Ok (tail_of_full_read three_lines 3).
Proof. repeat split; try (vm_compute; reflexivity). vm_compute. discriminate. Qed.

(** C6, counterexample.  A content with a carriage return is written and
    read back with a line feed in its place. *)
Lemma carriage_return_is_not_read_back :
  let written := write_file env0 realpath0 root false token0 store0
                   (write_b crlf_content) in
  is_message (fst written)
  /\ read_file env0 realpath0 root (snd written) read_b
     = content_payload plain_content
  /\ content_payload plain_content <> content_payload crlf_content.
Proof.
  cbv zeta. split; [eexists; vm_compute; reflexivity|].
  split; [vm_compute; reflexivity|]. vm_compute. discriminate.
Qed.

(** The theorem of C6 at a content of two lines. *)
Lemma write_then_read_witness :
  read_file env0 realpath0 root
    (snd (write_file env0 realpath0 root false token0 store0
            (write_b plain_content))) read_b
  = content_payload plain_content.
Proof.
  refine (proj2 (proj1 (write_then_read env0 realpath0 root false token0 store0
                          (lit "/sandbox/b.txt") plain_content) _) _).
  - exists (lit "Successfully wrote to /sandbox/b.txt"). vm_compute. reflexivity.
  - no_nul.
Defined.

(** When the temporary name is taken and the rename fails, the second
    handler is not reached: the temporary file stays, with the new
    content. *)
Lemma temp_left_behind_after_collision :
  let written := write_file env0 realpath0 root false token0 store_taken
                   (Ok {| wf_path := lit "/sandbox/real";
                          wf_content := plain_content |}) in
  is_error (fst written)
  /\ snd written !! temp_path_of token0 (lit "/sandbox/real")
     = Some (File plain_content).
Proof.
  cbv zeta. split; [eexists; vm_compute; reflexivity | vm_compute; reflexivity].
Qed.

(** The theorem of C7 at a diff that holds a run of ten backticks. *)
Lemma fence_exceeds_every_run_witness :
  exists text modified_content,
    FileIO.read_text store_ticks (lit "/sandbox/code.md") = Ok text
    /\ apply_edits (normalize_line_endings text) [world_to_there]
       = Ok modified_content
    /\ let diff := create_unified_diff plain_diff
                     (normalize_line_endings text) modified_content
                     (lit "/sandbox/code.md") in
       let k := fence_count diff in
       fenced_diff = fence k ++ lit "diff" ++ [LF] ++ diff ++ [LF] ++ fence k ++ [LF]
       /\ 3 <= k
       /\ ~ occurs_in (fence k) diff
       /\ (forall m, occurs_in (fence m) diff -> m < k)
       /\ (forall j, occurs_in (repeat BACKTICK j) diff -> j < length (fence k)).
Proof.
  apply (fence_exceeds_every_run plain_diff false token0 store_ticks
           (lit "/sandbox/code.md") [world_to_there] true fenced_diff).
  vm_compute. reflexivity.
Defined.

(** C8, counterexample.  A write that succeeds returns a message payload,
    which is neither a content payload nor an error payload. *)
Lemma write_returns_a_message :
  let j := fst (write_file env0 realpath0 root false token0 store0
                  (write_b plain_content)) in
  j = message_payload (lit "Successfully wrote to /sandbox/b.txt")
  /\ ~ is_content j /\ ~ is_error j.
Proof.
  cbv zeta.
  assert (fst (write_file env0 realpath0 root false token0 store0
                 (write_b plain_content))
          = message_payload (lit "Successfully wrote to /sandbox/b.txt")) as ->
    by (vm_compute; reflexivity).
  split; [reflexivity|].
  split; [apply message_not_content | apply message_not_error]; now eexists.
Qed.

(** The theorem of C9 at the directory of the scenario, sorted by
    size. *)
Lemma listing_sorted_and_totalled_witness :
  exists valid_path names formatted combined,
    Tools.validate_path env0 realpath0 root (ls_path by_size) = Ok valid_path
    /\ listdir0 valid_path = Ok names
    /\ let entries := sorted_entries stat0 isdir0 valid_path (ls_sortBy by_size) names in
       Permutation entries (map (entry_of stat0 isdir0 valid_path) names)
       /\ (ls_sortBy by_size = lit "size" ->
           StronglySorted size_descending entries
           /\ StronglySorted size_descending (List.filter is_file entries))
       /\ (ls_sortBy by_size <> lit "size" ->
           StronglySorted name_ascending entries)
       /\ map_result (format_entry whole_2f) entries = Ok formatted
       /\ length formatted = length entries
       /\ format_size whole_2f
            (fold_right Z.add 0%Z (map size (List.filter is_file entries)))
          = Ok combined
       /\ listing_text
          = Py.join [LF]
              (formatted
               ++ summary_lines (length (List.filter is_file entries))
                    (length (List.filter isDirectory entries)) combined).
Proof.
  apply (listing_sorted_and_totalled env0 realpath0 root whole_2f listdir0
           stat0 isdir0 by_size listing_text).
  vm_compute. reflexivity.
Defined.

(** The theorem of C10 at an old text that starts with an empty
    line. *)
Lemma blank_first_line_never_applies_witness :
  apply_edit (lit "a" ++ [LF; LF] ++ lit "b") blank_then_b
  = Raise (ValueError (lit "empty separator")).
Proof.
  refine (proj1 (blank_first_line_never_applies plain_diff false token0
                   blank_then_b _) (lit "a" ++ [LF; LF] ++ lit "b") 1 _).
  - exists [], [lit "b"]. split; vm_compute; reflexivity.
  - vm_compute. reflexivity.
Defined.



(** A file of one pebibyte has no unit. *)
Lemma format_size_past_units_witness :
  Tools.format_size whole_2f (2 ^ 50) = Raise IndexError.
Proof.
  apply (format_size_past_units whole_2f (2 ^ 50)). lia.
Defined.

(** ** Further scenarios *)

Import MoreScenarios.

(** A relative request is made absolute before it is tested. *)
Lemma containment_test_always_answers_witness :
  isabs (normalize_path env0 (lit "notes.txt")) = true
  /\ (exists b,
        is_path_within_allowed_directory env0 (lit "notes.txt") root = Ok b)
  /\ forall err,
       PathValidator.validate_path env0 realpath0 (lit "notes.txt") root
       = Raise err ->
       SecurityViolation err \/ (exists q, realpath0 q = Raise err).
Proof.
  apply (containment_test_always_answers env0 realpath0 (lit "notes.txt") root).
  vm_compute. reflexivity.
Defined.

(** [~/notes.txt] is taken from the root of the file system, not from
    the home directory [/home/user]. *)
Lemma tilde_slash_ignores_home_witness :
  normalize_path env0 (lit "~/" ++ lit "notes.txt") = lit "/notes.txt".
Proof.
  rewrite (tilde_slash_ignores_home env0 (lit "notes.txt"));
    vm_compute; reflexivity.
Defined.

(** The sibling [/sandbox ] of the root [/sandbox]. *)
Lemma sibling_after_space_is_validated_witness :
  PathValidator.validate_path env0 realpath0 (lit "/sandbox /.") root
  = Ok (root ++ [SPACE])
  /\ ~ under root (root ++ [SPACE]).
Proof.
  apply (sibling_after_space_is_validated env0 realpath0 root [SPACE]
           (lit "/sandbox /."));
    try (vm_compute; reflexivity).
  - no_nul.
  - discriminate.
  - repeat constructor.
Defined.

(** A file written with a carriage return and a line feed is edited as
    the text with line feeds. *)
Lemma edit_reads_no_carriage_return_witness :
  ~ In CR plain_content
  /\ normalize_line_endings plain_content = plain_content
  /\ (forall err,
        apply_edits plain_content [absent_to_x] = Raise err ->
        apply_file_edits plain_diff false token0 store_crlf b_txt
          [absent_to_x] true
        = (Raise err, store_crlf)).
Proof.
  apply (edit_reads_no_carriage_return plain_diff false token0 store_crlf
           b_txt plain_content [absent_to_x] true).
  vm_compute. reflexivity.
Defined.

(** An empty old text and an empty new text. *)
Lemma empty_texts_raise_index_error_witness :
  apply_edit hello_world nothing_to_x = Raise IndexError
  /\ apply_edit hello_world world_to_nothing = Raise IndexError.
Proof.
  split.
  - apply (proj1 (empty_texts_raise_index_error hello_world nothing_to_x)).
    reflexivity.
  - apply (proj2 (empty_texts_raise_index_error hello_world world_to_nothing)
             1 (lit "world") []);
      try (vm_compute; reflexivity).
    vm_compute. discriminate.
Defined.

(** Of the two lines that match, the first is replaced, and the new line
    takes its two spaces for the four it came with. *)
Lemma edit_replaces_first_window_witness :
  exists i line lead new0,
    find_window (old_lines_of world_to_indented_there) (splitlines indented)
    = Some i
    /\ (forall j, j < i ->
        window_matches (old_lines_of world_to_indented_there)
          (splitlines indented) j = false)
    /\ i + length (old_lines_of world_to_indented_there)
       <= length (splitlines indented)
    /\ index (splitlines indented) i = Ok line
    /\ index (splitlines
                (normalize_line_endings (newText world_to_indented_there))) 0
       = Ok new0
    /\ Forall (fun x => isspace x = true) lead
    /\ line = lead ++ lstrip line
    /\ lit "  there" ++ [LF] ++ lit "world"
       = Py.join [LF]
           (firstn i (splitlines indented)
            ++ ((lead ++ lstrip new0)
                :: tl (splitlines
                         (normalize_line_endings
                            (newText world_to_indented_there))))
            ++ skipn (i + length (old_lines_of world_to_indented_there))
                 (splitlines indented)).
Proof.
  apply (edit_replaces_first_window indented world_to_indented_there
           (lit "  there" ++ [LF] ++ lit "world")).
  vm_compute. reflexivity.
Defined.

(** The edit of the scenario changes the file and nothing else. *)
Lemma edit_is_all_or_nothing_witness :
  let run := apply_file_edits plain_diff false token0 store0 a_txt
               [world_to_there] false in
  (exists text modified_content,
     FileIO.read_text store0 a_txt = Ok text
     /\ apply_edits text [world_to_there] = Ok modified_content
     /\ fst run = Ok (format_diff
                        (create_unified_diff plain_diff text modified_content
                           a_txt))
     /\ snd run = <[a_txt := File modified_content]> store0)
  \/ (exists err, fst run = Raise err /\ snd run = store0).
Proof.
  cbv zeta.
  apply (edit_is_all_or_nothing plain_diff false token0 store0 _ a_txt
           [world_to_there] _).
  - vm_compute. reflexivity.
  - apply surjective_pairing.
Defined.

(** A form feed in the file has become a line feed after the edit. *)
Lemma edited_file_has_only_line_feeds_witness :
  exists modified_content,
    snd (apply_file_edits plain_diff false token0 store_form_feed c_txt
           [world_to_there] false) !! c_txt
    = Some (File modified_content)
    /\ forall c, In c modified_content -> is_linebreak c = true -> c = LF.
Proof.
  assert (match fst (apply_file_edits plain_diff false token0 store_form_feed
                        c_txt [world_to_there] false) with
          | Ok _ => true
          | Raise _ => false
          end = true) as Hok by (vm_compute; reflexivity).
  destruct (apply_file_edits plain_diff false token0 store_form_feed c_txt
              [world_to_there] false) as [[diff|err] st'] eqn:Hrun.
  - apply (edited_file_has_only_line_feeds plain_diff false token0
             store_form_feed st' c_txt diff [world_to_there]).
    + discriminate.
    + vm_compute. reflexivity.
    + exact Hrun.
  - discriminate Hok.
Defined.

(** The dry run of the edit of the scenario shows the diff of the
    edit. *)
Lemma dry_run_previews_the_edit_witness :
  fst (apply_file_edits plain_diff false token0 store0 a_txt
         [world_to_there] true)
  = fst (apply_file_edits plain_diff false token0 store0 a_txt
           [world_to_there] false).
Proof.
  destruct (fst (apply_file_edits plain_diff false token0 store0 a_txt
                   [world_to_there] false)) as [diff|err] eqn:Hreal.
  - apply (proj1 (proj2 (dry_run_previews_the_edit plain_diff false token0
                           store0 a_txt [world_to_there])) diff Hreal).
  - vm_compute in Hreal. discriminate Hreal.
Defined.

(** The file of the scenario, read after the edit. *)
Lemma edit_then_read_witness :
  exists text modified_content,
    FileIO.read_text store0 a_txt = Ok text
    /\ apply_edits text [world_to_there] = Ok modified_content
    /\ FileIO.read_text
         (snd (apply_file_edits plain_diff false token0 store0 a_txt
                 [world_to_there] false)) a_txt
       = Ok modified_content.
Proof.
  assert (match fst (apply_file_edits plain_diff false token0 store0 a_txt
                        [world_to_there] false) with
          | Ok _ => true
          | Raise _ => false
          end = true) as Hok by (vm_compute; reflexivity).
  destruct (apply_file_edits plain_diff false token0 store0 a_txt
              [world_to_there] false) as [[diff|err] st'] eqn:Hrun.
  - apply (edit_then_read plain_diff false token0 store0 st' a_txt diff
             [world_to_there]).
    + vm_compute. reflexivity.
    + exact Hrun.
  - discriminate Hok.
Defined.

(** A write of [b.txt] under the root. *)
Lemma write_is_all_or_nothing_witness :
  let written := write_file env0 realpath0 root false token0 store0
                   (write_b plain_content) in
  ((is_message (fst written)
    /\ snd written = <[b_txt := File plain_content]> store0)
   \/ (is_error (fst written) /\ snd written = store0))
  /\ (FileIO.can_create store0 b_txt = true ->
      false = false ->
      store0 !! b_txt <> Some Dir ->
      is_message (fst written)).
Proof.
  apply (write_is_all_or_nothing env0 realpath0 root false token0 store0
           b_txt plain_content b_txt).
  - vm_compute. reflexivity.
  - vm_compute. reflexivity.
  - no_nul.
Defined.

(** The temporary name of a write onto the directory [/sandbox/real] is
    taken: the file under it is written over and stays. *)
Lemma stale_temporary_file_is_overwritten_witness :
  write_atomically false token0 store_taken (lit "/sandbox/real") plain_content
  = (Raise (IsADirectoryError (lit "/sandbox/real")),
     <[temp_path_of token0 (lit "/sandbox/real") := File plain_content]>
       store_taken).
Proof.
  apply (proj1 (stale_temporary_file_is_overwritten false token0 store_taken
                  (lit "/sandbox/real") plain_content (lit "old")
                  ltac:(vm_compute; reflexivity) eq_refl)).
  vm_compute. reflexivity.
Defined.


(** The first line of the file of the scenario. *)
Lemma head_returns_a_prefix_witness :
  exists found rest,
    head_file store0 a_txt 1 = Ok (Py.join [LF] found)
    /\ FileIO.read_text store0 a_txt = Ok (Py.join [LF] found ++ rest)
    /\ (found = [] \/ rest = [] \/ exists rest', rest = LF :: rest')
    /\ (Z.of_nat (length found) <= Z.max 1 0)%Z
    /\ Forall (fun line => ~ In LF line) found.
Proof.
  apply (head_returns_a_prefix store0 a_txt hello_world 1).
  vm_compute. reflexivity.
Defined.

(** A file of 512 bytes is shown in KB. *)
Lemma size_unit_changes_at_half_witness :
  Tools.format_size whole_2f 512 = Ok (whole_2f 512 1024 ++ lit " KB").
Proof.
  apply (proj1 (proj2 (size_unit_changes_at_half whole_2f 512))). lia.
Defined.

(** The mode 0o100644 of a regular file. *)
Lemma permissions_are_low_octal_digits_witness :
  last3 (oct 33188) = lit "644".
Proof.
  rewrite (permissions_are_low_octal_digits 33188) by lia.
  vm_compute. reflexivity.
Defined.

(** The directory [/sandbox/real] exists. *)
Lemma create_directory_on_existing_path_witness :
  create_directory env0 realpath0 root 1000 store0
    (Ok {| cd_path := lit "/sandbox/real" |})
  = (message_payload
       (lit "Successfully created directory " ++ lit "/sandbox/real"),
     store0).
Proof.
  apply (proj1 (create_directory_on_existing_path env0 realpath0 root 1000
                  store0 (lit "/sandbox/real") (lit "/sandbox/real")
                  ltac:(vm_compute; reflexivity)
                  ltac:(vm_compute; discriminate)
                  ltac:(vm_compute; eexists; reflexivity))).
  vm_compute. reflexivity.
Defined.

(** A move of a file that does not exist. *)
Lemma failed_move_changes_nothing_witness :
  snd (move_file env0 realpath0 root store0
         (Ok {| mv_source := lit "/sandbox/none.txt";
                mv_destination := b_txt |}))
  = store0.
Proof.
  apply (failed_move_changes_nothing env0 realpath0 root store0
           (Ok {| mv_source := lit "/sandbox/none.txt";
                  mv_destination := b_txt |})).
  assert (fst (move_file env0 realpath0 root store0
                 (Ok {| mv_source := lit "/sandbox/none.txt";
                        mv_destination := b_txt |}))
          = error_payload (FileNotFoundError (lit "/sandbox/none.txt"))) as ->
    by (vm_compute; reflexivity).
  apply error_payload_is_error.
Defined.

(** A move of [a.txt] onto [b.txt]. *)
Lemma move_replaces_a_destination_file_witness :
  let moved :=
    move_file env0 realpath0 root store_two
      (Ok {| mv_source := a_txt; mv_destination := b_txt |}) in
  fst moved
  = message_payload (lit "Successfully moved " ++ a_txt ++ lit " to " ++ b_txt)
  /\ snd moved = <[b_txt := File hello_world]> (delete a_txt store_two)
  /\ snd moved !! b_txt = Some (File hello_world)
  /\ snd moved !! a_txt = None.
Proof.
  apply (move_replaces_a_destination_file env0 realpath0 root store_two
           a_txt b_txt a_txt b_txt hello_world (lit "old"));
    try (vm_compute; reflexivity).
  vm_compute. discriminate.
Defined.

(** The tree of the root of the scenario. *)
Lemma tree_has_a_node_for_every_entry_witness :
  exists valid_path names tree,
    Tools.validate_path env0 realpath0 root root = Ok valid_path
    /\ listdir1 valid_path = Ok names
    /\ lit "b.txt, docs, a.txt" = names_only (JArray tree)
    /\ Forall2
         (fun entry node =>
            exists rest,
              node = JObject
                       ((lit "name", JString entry)
                        :: (lit "type",
                            JString (if isdir0 (PosixPath.join valid_path entry)
                                     then lit "directory" else lit "file"))
                        :: rest))
         names tree.
Proof.
  apply (tree_has_a_node_for_every_entry env0 realpath0 root listdir1 isdir0
           names_only 1000 root (lit "b.txt, docs, a.txt")).
  vm_compute. reflexivity.
Defined.

(** The directory [docs] cannot be listed. *)
Lemma tree_fails_as_a_whole_witness :
  is_error
    (directory_tree env0 realpath0 root listdir0 isdir0 names_only 1000
       (Ok {| dt_path := root |})).
Proof.
  apply (tree_fails_as_a_whole env0 realpath0 root listdir0 isdir0 names_only
           1000 root root (lit "docs") [lit "b.txt"; lit "docs"; lit "a.txt"]
           (NotADirectoryError (lit "/sandbox/docs")));
    try (vm_compute; reflexivity).
  - right. left. reflexivity.
  - right. exists (lit "/sandbox/docs"). split; vm_compute; reflexivity.
Defined.

(** The configuration file of the scenario. *)
Lemma loaded_configuration_is_well_formed_witness :
  [] = @nil Config.event
  /\ exists data config servers server,
       Some (File config_text) = Some (File data)
       /\ json_load0 (FileIO.universal_newlines data)
          = Config.Loaded (Config.VDict config)
       /\ Config.lookup_key (lit "mcpServers") config
          = Some (Config.VDict servers)
       /\ Config.lookup_key (lit "filesystem-server") servers
          = Some (Config.VDict server)
       /\ Config.lookup_key (lit "allowedDir") server
          = Some (Config.VStr (lit "/sandbox"))
       /\ Config.lookup_key (lit "serverName") server
          = Some (Config.VStr (lit "files"))
       /\ Config.lookup_key (lit "port") server = Some (Config.VInt 8001).
Proof.
  apply (loaded_configuration_is_well_formed json_load0
           (Some (File config_text))
           {| Config.ALLOWED_DIR := Config.VStr (lit "/sandbox");
              Config.SERVER_NAME := Config.VStr (lit "files");
              Config.PORT := Config.VInt 8001 |} []).
  vm_compute. reflexivity.
Defined.

(** A configuration file that holds the empty dictionary. *)
Lemma incomplete_configuration_is_a_value_error_witness :
  Config.load_configuration json_load0 (Some (File (lit "{}")))
  = (Config.Failed
       (Config.value_error
          (lit "Invalid mcpServers configuration: missing filesystem-server")),
     [Config.LogError (lit "mcp_server_filesystem")
        (lit "Failed to load configuration: "
         ++ lit "Invalid mcpServers configuration: missing filesystem-server")]).
Proof.
  apply (proj1 (incomplete_configuration_is_a_value_error json_load0
                  (lit "{}") [] ltac:(vm_compute; reflexivity))).
  reflexivity.
Defined.

(** A search for [READ] under the root of the scenario. *)
Lemma search_finds_names_that_hold_the_pattern_witness :
  (exists found,
     Search.search_files env0 root walk0 relpath0 fnmatch0 root (lit "READ")
       [lit "docs/readme.md"] = Ok found
     /\ forall r,
          In r found
          <-> exists dir dirs files file,
                In (dir, dirs, files) (walk0 root)
                /\ is_path_within_allowed_directory env0 dir root = Ok true
                /\ In file files
                /\ r = PosixPath.join dir file
                /\ existsb (fnmatch0 (relpath0 r root)) [lit "docs/readme.md"]
                   = false
                /\ contains (Search.lower (lit "READ")) (Search.lower file)
                   = true)
  /\ Search.search_files env0 root walk0 relpath0 fnmatch0 root
       (Search.lower (lit "READ")) [lit "docs/readme.md"]
     = Search.search_files env0 root walk0 relpath0 fnmatch0 root (lit "READ")
         [lit "docs/readme.md"].
Proof.
  apply (search_finds_names_that_hold_the_pattern env0 root walk0 relpath0
           fnmatch0 root (lit "READ") [lit "docs/readme.md"]).
  vm_compute. reflexivity.
Defined.
